(** * Bloaty CSV reader: the symbol pipeline of [SymbolAnalyzer.tsx]

    A shallow embedding of the transformation core of
    [src/components/SymbolAnalyzer.tsx]: row filtering and sorting, the
    instantiation collapser, [processSymbol], the tree builder with
    [calculateTotalSize], [mergeInstantiations], [categorizeSymbol] and
    [matchesFilters]; and of what the components compute from the
    hierarchy: [toggleFilter], the buttons of [SizeSlider], the rows, the
    category and the badge of [TreeView], and the traversal of [StatsBar].
    [formatBytes] and the percentages are floating-point computations and
    are left out, as is the storage of recent files.

    Conventions of the embedding.
    - A JavaScript string is a [string]: a sequence of code units below 256.
      The line terminators are LF and CR, the white space of [trim] is
      TAB, LF, VT, FF, CR, SPACE and NBSP.
    - A JavaScript number is an integer [VNum z] or [VNaN]; sizes are byte
      counts, and no sum leaves the range where doubles are exact.
    - A [Map] and the own properties of a plain object are association
      lists in insertion order (the place integer-like keys take in the
      enumeration of an object is not modelled; of what is proved below
      only the order inside a group of the merge pass depends on the
      order, and there the list is to be read as the enumeration).
    - Reading a key of a plain object that is no own property falls through
      to [Object.prototype], see [getChild]. The lookups are those of a page
      whose [Object.prototype] has its standard members. The model follows a
      walk of the builder as long as it is on the hierarchy; what a walk
      that has left it through [__proto__] stores on [Object.prototype]
      itself is not followed.
    - A loop that may not end takes a [fuel] and returns an [option]. *)

From Stdlib Require Import Bool Arith ZArith Lia List Ascii String.
From Stdlib Require Import Permutation Sorted DecimalString.
Import ListNotations.

Open Scope string_scope.
Open Scope Z_scope.

(* ================================================================== *)
(** * Strings *)

Definition code (c : ascii) : nat := nat_of_ascii c.

Definition inRange (lo hi : nat) (c : ascii) : bool :=
  (lo <=? code c)%nat && (code c <=? hi)%nat.

Definition isDigit (c : ascii) : bool := inRange 48 57 c.          (* [0-9] *)
Definition isUpper (c : ascii) : bool := inRange 65 90 c.          (* [A-Z] *)
Definition isLower (c : ascii) : bool := inRange 97 122 c.         (* [a-z] *)
Definition isHexLower (c : ascii) : bool :=                        (* [0-9a-f] *)
  isDigit c || inRange 97 102 c.
Definition isLowerAlnum (c : ascii) : bool :=                      (* [a-z0-9] *)
  isLower c || isDigit c.

Definition isLineTerminator (c : ascii) : bool :=
  (code c =? 10)%nat || (code c =? 13)%nat.

Definition isWhiteSpace (c : ascii) : bool :=
  inRange 9 13 c || (code c =? 32)%nat || (code c =? 160)%nat.

Definition isEmpty (s : string) : bool :=
  match s with EmptyString => true | _ => false end.

(** [p] is the text at the head of [s]. *)
Fixpoint isPrefix (p s : string) {struct p} : bool :=
  match p with
  | EmptyString => true
  | String a p' =>
      match s with
      | EmptyString => false
      | String b s' => Ascii.eqb a b && isPrefix p' s'
      end
  end.

(** [s.startsWith(p)] *)
Definition startsWith (s p : string) : bool := isPrefix p s.

(** [s.includes(sub)] *)
Fixpoint includes (s sub : string) : bool :=
  if isPrefix sub s then true
  else match s with
       | EmptyString => false
       | String _ s' => includes s' sub
       end.

(** [s.indexOf(sub)], [-1] when [sub] does not occur. *)
Fixpoint indexOf (s sub : string) : Z :=
  if isPrefix sub s then 0
  else match s with
       | EmptyString => -1
       | String _ s' => let r := indexOf s' sub in
                        if r <? 0 then -1 else r + 1
       end.

Fixpoint drop (n : nat) (s : string) : string :=
  match n, s with
  | O, _ => s
  | S _, EmptyString => EmptyString
  | S k, String _ s' => drop k s'
  end.

(** [s.slice(start)]: a negative [start] counts from the end. *)
Definition slice (s : string) (start : Z) : string :=
  let len := Z.of_nat (String.length s) in
  let from := if start <? 0 then Z.max (len + start) 0 else Z.min start len in
  drop (Z.to_nat from) s.

(** [s.endsWith(p)] *)
Definition endsWith (s p : string) : bool :=
  (String.length p <=? String.length s)%nat
  && String.eqb (drop (String.length s - String.length p) s) p.

(** [s.split(sep)] for a non-empty separator: the pieces between the
    occurrences of [sep], found left to right without overlap. [skip] counts
    the code units of a separator still to be consumed, [cur] is the piece
    being read. *)
Fixpoint splitGo (sep : string) (skip : nat) (s cur : string) : list string :=
  match s with
  | EmptyString => [cur]
  | String c s' =>
      match skip with
      | S k => splitGo sep k s' cur
      | O => if isPrefix sep s
             then cur :: splitGo sep (String.length sep - 1) s' EmptyString
             else splitGo sep O s' (cur ++ String c EmptyString)
      end
  end.

Definition split (s sep : string) : list string := splitGo sep O s EmptyString.

Fixpoint trimStart (s : string) : string :=
  match s with
  | String c s' => if isWhiteSpace c then trimStart s' else s
  | EmptyString => EmptyString
  end.

Fixpoint trimEnd (s : string) : string :=
  match s with
  | String c s' =>
      let r := trimEnd s' in
      if isEmpty r && isWhiteSpace c then EmptyString else String c r
  | EmptyString => EmptyString
  end.

(** [s.trim()] *)
Definition trim (s : string) : string := trimEnd (trimStart s).

Definition lowerChar (c : ascii) : ascii :=
  if isUpper c || (inRange 192 222 c && negb (code c =? 215)%nat)
  then ascii_of_nat (code c + 32) else c.

(** [s.toLowerCase()] *)
Fixpoint toLowerCase (s : string) : string :=
  match s with
  | EmptyString => EmptyString
  | String c s' => String (lowerChar c) (toLowerCase s')
  end.

(** The part of [s] that [.*] can cover: up to the first line terminator. *)
Fixpoint takeLine (s : string) : string :=
  match s with
  | EmptyString => EmptyString
  | String c s' => if isLineTerminator c then EmptyString
                   else String c (takeLine s')
  end.

(* ================================================================== *)
(** * Values *)

(** The primitive values a parsed CSV cell or a field computed from one can
    hold ([dynamicTyping] yields numbers, booleans, [null] for an empty cell
    and text; a missing column reads as [undefined]). *)
Inductive jsval : Type :=
| VUndefined
| VNull
| VBool (b : bool)
| VNaN
| VNum (z : Z)
| VStr (s : string).

Definition jsval_eqb (a b : jsval) : bool :=
  match a, b with
  | VUndefined, VUndefined => true
  | VNull, VNull => true
  | VBool x, VBool y => Bool.eqb x y
  | VNum x, VNum y => x =? y
  | VStr x, VStr y => String.eqb x y
  | _, _ => false                      (* in particular NaN === NaN is false *)
  end.

(** [typeof v === "string"], [typeof v === "number"] *)
Definition isString (v : jsval) : bool :=
  match v with VStr _ => true | _ => false end.
Definition isNumber (v : jsval) : bool :=
  match v with VNum _ | VNaN => true | _ => false end.

(** ToBoolean *)
Definition truthy (v : jsval) : bool :=
  match v with
  | VUndefined | VNull | VNaN => false
  | VBool b => b
  | VNum z => negb (z =? 0)
  | VStr s => negb (isEmpty s)
  end.

(** [a || b] and [a ?? b] *)
Definition js_or (a b : jsval) : jsval := if truthy a then a else b.
Definition nullish (a b : jsval) : jsval :=
  match a with VUndefined | VNull => b | _ => a end.

Fixpoint allDigits (s : string) : bool :=
  match s with
  | EmptyString => true
  | String c s' => isDigit c && allDigits s'
  end.

Fixpoint digitsValue (acc : Z) (s : string) : Z :=
  match s with
  | EmptyString => acc
  | String c s' => digitsValue (10 * acc + Z.of_nat (code c - 48)) s'
  end.

(** ToNumber. Of the numeric strings only the integer literals are read
    (optional sign, decimal digits, surrounding white space); every other
    non-empty text is [NaN] here, also the hexadecimal, fractional and
    exponent literals that JavaScript reads as numbers: the model is that
    of the uploads without such a text in a numeric column. *)
Definition toNumber (v : jsval) : jsval :=
  match v with
  | VUndefined => VNaN
  | VNull => VNum 0
  | VBool b => VNum (if b then 1 else 0)
  | VNaN => VNaN
  | VNum z => VNum z
  | VStr s =>
      match trim s with
      | EmptyString => VNum 0
      | String c r as t =>
          if (Ascii.eqb c "-" || Ascii.eqb c "+") && negb (isEmpty r) && allDigits r
          then VNum (if Ascii.eqb c "-" then - digitsValue 0 r else digitsValue 0 r)
          else if allDigits t then VNum (digitsValue 0 t) else VNaN
      end
  end.

(** ToString *)
Definition toString (v : jsval) : string :=
  match v with
  | VUndefined => "undefined"
  | VNull => "null"
  | VBool true => "true"
  | VBool false => "false"
  | VNaN => "NaN"
  | VNum z => NilZero.string_of_int (Z.to_int z)
  | VStr s => s
  end.

(** [a + b]: concatenation as soon as one side is text. *)
Definition js_add (a b : jsval) : jsval :=
  if isString a || isString b then VStr (toString a ++ toString b)
  else match toNumber a, toNumber b with
       | VNum x, VNum y => VNum (x + y)
       | _, _ => VNaN
       end.

(** [a - b] *)
Definition js_sub (a b : jsval) : jsval :=
  match toNumber a, toNumber b with
  | VNum x, VNum y => VNum (x - y)
  | _, _ => VNaN
  end.

(** [a < n] for a number [n]. *)
Definition js_lt (a : jsval) (n : Z) : bool :=
  match toNumber a with
  | VNum x => x <? n
  | _ => false
  end.

(* ================================================================== *)
(** * categorizeSymbol *)

Inductive Category : Type := SysV | Rust | CPP | Zig | Other.

Definition Category_eqb (a b : Category) : bool :=
  match a, b with
  | SysV, SysV | Rust, Rust | CPP, CPP | Zig, Zig | Other, Other => true
  | _, _ => false
  end.

(** [/^\[.*\]/] *)
Definition reBracket (s : string) : bool :=
  match s with
  | String c rest => Ascii.eqb c "[" && includes (takeLine rest) "]"
  | EmptyString => false
  end.

(** [/^_[A-Z_]/] *)
Definition reUnderscoreCap (s : string) : bool :=
  match s with
  | String c (String d _) => Ascii.eqb c "_" && (isUpper d || Ascii.eqb d "_")
  | _ => false
  end.

Fixpoint allN (p : ascii -> bool) (n : nat) (s : string) : option string :=
  match n with
  | O => Some s
  | S k => match s with
           | String c s' => if p c then allN p k s' else None
           | EmptyString => None
           end
  end.

(** [/h[0-9a-f]{16}/] *)
Fixpoint reHash (s : string) : bool :=
  match s with
  | EmptyString => false
  | String c s' =>
      (Ascii.eqb c "h" && match allN isHexLower 16 s' with Some _ => true | None => false end)
      || reHash s'
  end.

(** [/::[a-z0-9]{2}_/] *)
Fixpoint reColonTwo (s : string) : bool :=
  match s with
  | EmptyString => false
  | String _ s' =>
      (isPrefix "::" s &&
       match allN isLowerAlnum 2 (drop 2 s) with
       | Some r => isPrefix "_" r
       | None => false
       end)
      || reColonTwo s'
  end.

(** [/<.*>/] *)
Fixpoint reAngle (s : string) : bool :=
  match s with
  | EmptyString => false
  | String c s' => (Ascii.eqb c "<" && includes (takeLine s') ">") || reAngle s'
  end.

(** [/^[A-Z][^.]*_t$/] *)
Definition reTypeT (s : string) : bool :=
  match s with
  | String c rest => isUpper c && negb (includes rest ".") && endsWith rest "_t"
  | EmptyString => false
  end.

Definition isSysV (fullPath : string) : bool :=
  reBracket fullPath
  || includes fullPath "__"
  || endsWith fullPath ".dynsym"
  || reUnderscoreCap fullPath
  || includes fullPath "_Prototype__".

Definition isRust (fullPath : string) : bool :=
  reHash fullPath
  || includes fullPath "_rs::"
  || startsWith fullPath "rust_"
  || (includes fullPath "::_$" || reColonTwo fullPath)
  || includes fullPath "$u20$"
  || (includes fullPath "$LT$" || includes fullPath "$GT$")
  || includes fullPath "lol_html".

Definition isCpp (fullPath : string) : bool :=
  includes fullPath "::"
  || reAngle fullPath
  || includes fullPath "namespace"
  || reTypeT fullPath.

Definition categorizeSymbol (fullPath : jsval) : Category :=
  match fullPath with
  | VStr s =>
      if isEmpty s then Other
      else if isSysV s then SysV
      else if isRust s then Rust
      else if isCpp s then CPP
      else if includes s "." then Zig
      else Other
  | _ => Other
  end.

(* ================================================================== *)
(** * processSymbol *)

Definition startsKeyword (symbol : string) : bool :=
  startsWith symbol "void "
  || startsWith symbol "auto "
  || startsWith symbol "int "
  || startsWith symbol "char "
  || startsWith symbol "long "
  || startsWith symbol "short "
  || startsWith symbol "unsigned "
  || startsWith symbol "float "
  || startsWith symbol "double "
  || startsWith symbol "bool "
  || startsWith symbol "void*"
  || startsWith symbol "char*"
  || startsWith symbol "const "
  || startsWith symbol "volatile "
  || startsWith symbol "restrict ".

(** One turn of the [while] body. *)
Definition stripOnce (symbol : string) : string :=
  slice symbol (indexOf symbol " " + 1).

(** The [while] loop, with [fuel] bounding the number of tests of its
    condition; [None] when the fuel does not suffice. *)
Fixpoint stripKeywords (fuel : nat) (symbol : string) : option string :=
  match fuel with
  | O => None
  | S fuel' =>
      if startsKeyword symbol then stripKeywords fuel' (stripOnce symbol)
      else Some symbol
  end.

Definition cleanName (str : string) : string :=
  if isEmpty str then "" else trim str.

(** [Boolean] on a string, as used by [filter(Boolean)]. *)
Definition nonEmpty (s : string) : bool := negb (isEmpty s).

(** The part of [processSymbol] after the loop. *)
Definition splitSymbol (symbol : string) : list string :=
  if startsWith symbol "[" then [symbol]
  else if includes symbol "." then
    filter nonEmpty (map cleanName (split symbol "."))
  else if includes symbol "::" then
    filter nonEmpty (map cleanName (split symbol "::"))
  else [cleanName symbol].

Definition processSymbol (fuel : nat) (symbol : string) : option (list string) :=
  match stripKeywords fuel symbol with
  | Some rest => Some (splitSymbol rest)
  | None => None
  end.

(* ================================================================== *)
(** * Instantiation suffixes *)

Definition stripLit (lit s : string) : option string :=
  if isPrefix lit s then Some (drop (String.length lit) s) else None.

Fixpoint dropDigits (s : string) : string :=
  match s with
  | String c s' => if isDigit c then dropDigits s' else s
  | EmptyString => EmptyString
  end.

(** [[0-9]+], greedy. *)
Definition digits1 (s : string) : option string :=
  match s with
  | String c s' => if isDigit c then Some (dropDigits s') else None
  | EmptyString => None
  end.

(** [$]: the end of the input, and with the [m] flag also the position
    before a line terminator. *)
Definition atEnd (multiline : bool) (s : string) : bool :=
  match s with
  | EmptyString => true
  | String c _ => multiline && isLineTerminator c
  end.

Definition matched (multiline : bool) (s : string) (rest : option string)
  : option nat :=
  match rest with
  | Some r => if atEnd multiline r
              then Some (String.length s - String.length r)%nat else None
  | None => None
  end.

Definition bind {A B : Type} (o : option A) (f : A -> option B) : option B :=
  match o with Some a => f a | None => None end.

(** The three suffix patterns; each returns the length of the match that
    starts at the head of [s]. *)
(** [/__struct_([0-9]+)$/] *)
Definition reStruct (multiline : bool) (s : string) : option nat :=
  matched multiline s (bind (stripLit "__struct_" s) digits1).

(** [/__anon_([0-9]+)__struct_([0-9]+)$/] *)
Definition reAnonStruct (multiline : bool) (s : string) : option nat :=
  matched multiline s
    (bind (bind (bind (stripLit "__anon_" s) digits1) (stripLit "__struct_")) digits1).

(** [/__anon_([0-9]+)$/] *)
Definition reAnon (multiline : bool) (s : string) : option nat :=
  matched multiline s (bind (stripLit "__anon_" s) digits1).

(** [s.replaceAll(re, "")] for a global pattern: every match found from left
    to right is removed; [skip] counts the code units of a match still to be
    dropped. *)
Fixpoint replaceGo (re : string -> option nat) (skip : nat) (s : string) : string :=
  match s with
  | EmptyString => EmptyString
  | String c s' =>
      match skip with
      | S k => replaceGo re k s'
      | O => match re s with
             | Some (S n) => replaceGo re n s'
             | _ => String c (replaceGo re O s')
             end
      end
  end.

Definition replaceAllRe (re : string -> option nat) (s : string) : string :=
  replaceGo re O s.

(** The name computed in the dedup loop of [processFile]. *)
Definition canonicalName (symbols : string) : string :=
  replaceAllRe (reAnon true)
    (replaceAllRe (reAnonStruct false)
       (replaceAllRe (reStruct true) symbols)).

(** [baseName] in [processNode]. *)
Definition leafBaseName (nodeName : string) : string :=
  replaceAllRe (reAnon false) (replaceAllRe (reAnonStruct false) nodeName).

(** [baseName] in [transformNode]. *)
Definition nodeBaseName (nodeName : string) : string :=
  replaceAllRe (reAnonStruct false) (replaceAllRe (reAnon true) nodeName).

(* ================================================================== *)
(** * Rows, and the map of collapsed rows *)

Record CSVRow : Type := mkRow {
  symbols : jsval;
  vmsize : jsval;
  instantiations : jsval
}.

(** The text of a field that holds a string where the code calls a string
    method on it (on anything else the call would throw). *)
Definition textOf (v : jsval) : string :=
  match v with VStr s => s | _ => EmptyString end.

(** A [Map<string, V>] or the own properties of a plain object: keys in
    insertion order. *)
Definition dict (V : Type) : Type := list (string * V).

Fixpoint mapGet {V : Type} (m : dict V) (key : string) : option V :=
  match m with
  | [] => None
  | (k, v) :: m' => if String.eqb k key then Some v else mapGet m' key
  end.

Fixpoint mapSet {V : Type} (m : dict V) (key : string) (v : V) : dict V :=
  match m with
  | [] => [(key, v)]
  | (k, w) :: m' => if String.eqb k key then (k, v) :: m'
                    else (k, w) :: mapSet m' key v
  end.

Definition mapValues {V : Type} (m : dict V) : list V := map snd m.
Definition mapKeys {V : Type} (m : dict V) : list string := map fst m.

(** The callback of [results.data.filter]. Every parsed row is an object. *)
Definition keepRow (row : CSVRow) : bool :=
  if negb (truthy (symbols row)) || negb (isString (symbols row)) then false
  else if negb (truthy (vmsize row)) || isNumber (vmsize row) then true
  else false.

(** [Array.prototype.sort] is stable: a comparator result that is positive
    moves [b] before [a], any other result ([NaN] counts as zero) leaves [a]
    first. It is modelled as a stable insertion sort, which returns what
    every stable sort returns when the comparator is consistent. The
    comparator of [processFile] is consistent when the sizes of the rows are
    numbers and the collation is an order; next to a size that is [null],
    [undefined] or [false] it is not, and the order the engine returns is
    then its own. The properties that depend on the order of the rows are
    stated for numeric sizes. *)
Definition keepsOrder (v : jsval) : bool :=
  match v with VNum z => z <=? 0 | _ => true end.

Fixpoint insertSorted {A : Type} (cmp : A -> A -> jsval) (x : A) (l : list A)
  : list A :=
  match l with
  | [] => [x]
  | y :: l' => if keepsOrder (cmp x y) then x :: l
               else y :: insertSorted cmp x l'
  end.

Definition sortBy {A : Type} (cmp : A -> A -> jsval) (l : list A) : list A :=
  fold_right (insertSorted cmp) [] l.

(** One turn of the dedup loop over [sortedSymbols]. *)
Definition dedupStep (dedupedSymbols : dict CSVRow) (symbol : CSVRow)
  : dict CSVRow :=
  let name := canonicalName (textOf (symbols symbol)) in
  match mapGet dedupedSymbols name with
  | Some existing =>
      mapSet dedupedSymbols name
        (mkRow (symbols existing)
               (js_add (vmsize existing) (vmsize symbol))
               (js_add (instantiations existing)
                       (js_add (nullish (instantiations symbol) (VNum 0)) (VNum 1))))
  | None =>
      let symbols1 :=
        if negb (String.eqb name "_" && negb (String.eqb name (textOf (symbols symbol))))
        then VStr name else symbols symbol in
      mapSet dedupedSymbols (textOf symbols1)
        (mkRow symbols1 (vmsize symbol) (nullish (instantiations symbol) (VNum 0)))
  end.

Definition dedup (sortedSymbols : list CSVRow) : list CSVRow :=
  mapValues (fold_left dedupStep sortedSymbols []).

(* ================================================================== *)
(** * The hierarchy *)

#[warnings="-register-all"]
Inductive TreeNode : Type :=
  mkNode (name : string) (size : jsval) (children : dict TreeNode)
         (fullPath originalSymbol : jsval) (node_instantiations : jsval).

Definition name (n : TreeNode) : string :=
  let '(mkNode x _ _ _ _ _) := n in x.
Definition size (n : TreeNode) : jsval :=
  let '(mkNode _ x _ _ _ _) := n in x.
Definition children (n : TreeNode) : dict TreeNode :=
  let '(mkNode _ _ x _ _ _) := n in x.
Definition fullPath (n : TreeNode) : jsval :=
  let '(mkNode _ _ _ x _ _) := n in x.
Definition originalSymbol (n : TreeNode) : jsval :=
  let '(mkNode _ _ _ _ x _) := n in x.
Definition node_instantiations (n : TreeNode) : jsval :=
  let '(mkNode _ _ _ _ _ x) := n in x.

(** The properties every plain object inherits from [Object.prototype]; all
    of them read as objects or functions, hence truthy. *)
Definition objectPrototypeKeys : list string :=
  [ "constructor"; "hasOwnProperty"; "isPrototypeOf"; "propertyIsEnumerable";
    "toLocaleString"; "toString"; "valueOf"; "__proto__";
    "__defineGetter__"; "__defineSetter__"; "__lookupGetter__";
    "__lookupSetter__" ].

Definition inherited (key : string) : bool :=
  existsb (String.eqb key) objectPrototypeKeys.

(** What [current.children[part]] reads. *)
Inductive Lookup : Type :=
| Own (child : TreeNode)      (* an own property: a node of the tree *)
| Inherited                   (* a member of [Object.prototype], truthy *)
| Absent.                     (* [undefined] *)

Definition getChild (kids : dict TreeNode) (part : string) : Lookup :=
  match mapGet kids part with
  | Some child => Own child
  | None => if inherited part then Inherited else Absent
  end.

(** [obj[key] = v] on a plain object: assigning to [__proto__] goes to the
    inherited setter and adds no own property. *)
Definition setProp (obj : dict TreeNode) (key : string) (v : TreeNode)
  : dict TreeNode :=
  if String.eqb key "__proto__" then obj else mapSet obj key v.

(** The node created for a part that has no child yet. *)
Definition newNode (part path : string) (symbol : CSVRow) : TreeNode :=
  mkNode part (VNum 0) [] (VStr path) (symbols symbol) (VNum 0).

(** What happens to [current] at the last index: the record's size and
    count are added to it. *)
Definition addRecord (symbol : CSVRow) (current : TreeNode) : TreeNode :=
  mkNode (name current)
         (js_add (size current) (vmsize symbol))
         (children current) (fullPath current) (originalSymbol current)
         (js_add (node_instantiations current) (instantiations symbol)).

(** [current] with the node under [part] as the walk below it left it. *)
Definition setChild (current : TreeNode) (part : string) (child : TreeNode)
  : TreeNode :=
  mkNode (name current) (size current)
         (mapSet (children current) part child)
         (fullPath current) (originalSymbol current)
         (node_instantiations current).

(** The body of [parts.forEach] in the record insertion loop, from the part
    at the head of [parts] on; [current] is the node the walk stands on and
    the result is that node after the walk. The last index of the array is
    reached exactly when no part follows. Once the walk steps onto an
    inherited member of [Object.prototype] it has left the hierarchy: what
    it creates from there hangs off that member, and no node below [root]
    changes. One member is different: [__proto__] is [Object.prototype]
    itself, and a walk that goes on from it stores a [children] object (at
    its end a [size] and an [instantiations]) there, which every dictionary
    inherits from then on. The model does not follow that: it is the
    builder on the uploads none of whose records has the segment
    [__proto__] (see [offPrototype]), and the properties that say where the
    hierarchy has nodes are stated for those. *)
Fixpoint insertParts (parts : list string) (path : string) (symbol : CSVRow)
  (current : TreeNode) : TreeNode :=
  match parts with
  | [] => current
  | part :: rest =>
      if isEmpty part then insertParts rest path symbol current
      else
        let path := if isEmpty path then part else path ++ "::" ++ part in
        let descend (child : TreeNode) : TreeNode :=
          let child :=
            match rest with
            | [] => addRecord symbol child
            | _ :: _ => child
            end in
          setChild current part (insertParts rest path symbol child) in
        match getChild (children current) part with
        | Own child => descend child
        | Absent => descend (newNode part path symbol)
        | Inherited => current
        end
  end.

(** [calculateTotalSize], returning the node as the pass leaves it; the
    number the source returns is its [size]. A node is never null and always
    has a [children] object. *)
Fixpoint calculateTotalSize (node : TreeNode) : TreeNode :=
  let kids :=
    map (fun kc : string * TreeNode =>
           let '(k, child) := kc in (k, calculateTotalSize child))
        (children node) in
  let sum :=
    fold_left (fun sum child => js_add sum (js_or (size child) (VNum 0)))
              (mapValues kids) (VNum 0) in
  mkNode (name node) (js_add (js_or (size node) (VNum 0)) sum) kids
         (fullPath node) (originalSymbol node) (node_instantiations node).

Definition emptyRoot : TreeNode :=
  mkNode "root" (VNum 0) [] VUndefined VUndefined (VNum 0).

(** The callback of [sortedSymbols.forEach]: [None] when [processSymbol]
    does not return. *)
Definition insertSymbol (fuel : nat) (root : option TreeNode) (symbol : CSVRow)
  : option TreeNode :=
  match root with
  | Some root =>
      match processSymbol fuel (textOf (symbols symbol)) with
      | Some parts => Some (insertParts parts "" symbol root)
      | None => None
      end
  | None => None
  end.

Section ProcessFile.

(** [String.prototype.localeCompare], which depends on the host's
    collation. *)
Variable localeCompare : string -> string -> Z.

(** The comparator given to [sort]. *)
Definition compareRows (a b : CSVRow) : jsval :=
  if jsval_eqb (vmsize b) (vmsize a)
  then VNum (localeCompare (textOf (symbols a)) (textOf (symbols b)))
  else js_sub (vmsize b) (vmsize a).

(** The first statement of the [complete] handler: filter, then sort. *)
Definition normalize (data : list CSVRow) : list CSVRow :=
  sortBy compareRows (filter keepRow data).

(** The [complete] handler of [processFile], from the parsed rows to the
    hierarchy handed to [setHierarchy] (the largest size, computed on the
    way for the slider, is no part of it); [None] when the handler does not
    return within [fuel] turns of a keyword loop. *)
Definition processFile (fuel : nat) (data : list CSVRow) : option TreeNode :=
  let sortedSymbols := dedup (normalize data) in
  match fold_left (insertSymbol fuel) sortedSymbols (Some emptyRoot) with
  | Some root => Some (calculateTotalSize root)
  | None => None
  end.

End ProcessFile.

(* ================================================================== *)
(** * mergeInstantiations *)

Record SymbolGroup : Type := mkGroup {
  group_name : string;
  group_size : jsval;
  count : Z;
  originalSymbols : list jsval;
  group_instantiations : Z;
  group_children : dict TreeNode
}.

(** The leaf case of [processNode]. *)
Definition addLeaf (groups : dict SymbolGroup) (node : TreeNode)
  : dict SymbolGroup :=
  let baseName := leafBaseName (name node) in
  if negb (String.eqb baseName "") then
    let group :=
      match mapGet groups baseName with
      | Some group => group
      | None => mkGroup baseName (VNum 0) 0 [] 0 []
      end in
    mapSet groups baseName
      (mkGroup (group_name group)
               (js_add (group_size group) (size node))
               (count group + 1)
               (if truthy (originalSymbol node)
                then (originalSymbols group ++ [originalSymbol node])%list
                else originalSymbols group)
               (group_instantiations group + 1)
               (group_children group))
  else groups.

Fixpoint processNode (groups : dict SymbolGroup) (node : TreeNode)
  : dict SymbolGroup :=
  let groups :=
    match children node with
    | [] => addLeaf groups node
    | _ :: _ => groups
    end in
  fold_left (fun groups (kc : string * TreeNode) =>
               let '(_, child) := kc in processNode groups child)
            (children node) groups.

(** [group?.count || node.instantiations] *)
Definition annotate (group : option SymbolGroup) (old : jsval) : jsval :=
  js_or (match group with Some g => VNum (count g) | None => VUndefined end) old.

Fixpoint transformNode (groups : dict SymbolGroup) (node : TreeNode) : TreeNode :=
  let transformedChildren :=
    fold_left (fun acc (kc : string * TreeNode) =>
                 let '(_, child) := kc in
                 let result := transformNode groups child in
                 setProp acc (name result) result)
              (children node) [] in
  let baseName := nodeBaseName (name node) in
  let group := mapGet groups baseName in
  mkNode (name node) (size node) transformedChildren
         (fullPath node) (originalSymbol node)
         (annotate group (node_instantiations node)).

Definition collectGroups (symbols : list TreeNode) : dict SymbolGroup :=
  fold_left processNode symbols [].

Definition mergeInstantiations (symbols : list TreeNode) : list TreeNode :=
  map (transformNode (collectGroups symbols)) symbols.

(* ================================================================== *)
(** * matchesFilters *)

Definition isEmpty_list {A : Type} (l : list A) : bool :=
  match l with [] => true | _ :: _ => false end.

(** [activeFilters.has(category)] *)
Definition has (activeFilters : list Category) (category : Category) : bool :=
  existsb (Category_eqb category) activeFilters.

(** The text the search term is looked up in. *)
Definition searchText (node : TreeNode) : string :=
  textOf (js_or (fullPath node) (js_or (originalSymbol node) (VStr (name node)))).

Definition matchesFilters (minSize : Z) (activeFilters : list Category)
  (searchTerm : string) (node : TreeNode) : bool :=
  if js_lt (size node) minSize then false
  else
    let category := categorizeSymbol (originalSymbol node) in
    let matchesCategory :=
      (Nat.eqb (List.length activeFilters) 0) || has activeFilters category in
    let searchLower := toLowerCase searchTerm in
    let matchesSearch :=
      isEmpty searchTerm
      || includes (toLowerCase (searchText node)) searchLower in
    matchesCategory && matchesSearch.

(* ================================================================== *)
(** * The controls and views around the hierarchy *)

(** [Math.max(a, b)] *)
Definition js_max (a b : jsval) : jsval :=
  match toNumber a, toNumber b with
  | VNum x, VNum y => VNum (Z.max x y)
  | _, _ => VNaN
  end.

(** [a >= n] and [a > n] for a number [n]. *)
Definition js_ge (a : jsval) (n : Z) : bool :=
  match toNumber a with
  | VNum x => n <=? x
  | _ => false
  end.

Definition js_gt (a : jsval) (n : Z) : bool :=
  match toNumber a with
  | VNum x => n <? x
  | _ => false
  end.

(** The largest size among the collapsed records, which [processFile]
    hands to [setMaxSize]. *)
Definition maxVmSize (sortedSymbols : list CSVRow) : jsval :=
  fold_left (fun max symbol => js_max max (vmsize symbol)) sortedSymbols (VNum 0).

(** [set.delete(category)] *)
Definition setDelete (set : list Category) (category : Category) : list Category :=
  filter (fun c => negb (Category_eqb c category)) set.

(** [toggleFilter], from the current [activeFilters] to the set handed to
    [setActiveFilters]. A [Set] lists its members in insertion order. *)
Definition toggleFilter (activeFilters : list Category) (category : Category)
  : list Category :=
  let newFilters := activeFilters in
  if has newFilters category then setDelete newFilters category
  else (newFilters ++ [category])%list.

(** The comparator [(a, b) => b.size - a.size] of both views. *)
Definition bySizeDesc (a b : TreeNode) : jsval := js_sub (size b) (size a).

Module SizeSlider.

Definition step (maxSize : Z) : Z := Z.max 1 (maxSize / 1000).



End SizeSlider.

Module TreeView.

Definition hasChildren (data : TreeNode) : bool :=
  negb (isEmpty_list (children data)).

(** The initial value of the [expanded] state; [defaultExpanded] is [None]
    when the prop is left [undefined]. *)
Definition expanded (defaultExpanded : option bool) (level siblingCount : Z)
  : bool :=
  match defaultExpanded with
  | Some b => b
  | None => if level =? 0 then siblingCount <? 5 else true
  end.

Definition symbolForCategorization (originalSymbol : jsval) (data : TreeNode)
  : jsval :=
  js_or originalSymbol (js_or (fullPath data) (VStr (name data))).

Definition category (originalSymbol : jsval) (data : TreeNode) : Category :=
  categorizeSymbol (symbolForCategorization originalSymbol data).

(** The number shown in the badge next to the name, [None] when no badge is
    rendered. *)
Definition badge (data : TreeNode) : option jsval :=
  if js_gt (nullish (node_instantiations data) (VNum 0)) 1
  then Some (js_add (node_instantiations data) (VNum 1))
  else None.


End TreeView.

(** The top-level rows [SymbolAnalyzer] renders. *)
Definition shownRoots (minSize : Z) (activeFilters : list Category)
  (searchTerm : string) (hierarchy : TreeNode) : list TreeNode :=
  filter (matchesFilters minSize activeFilters searchTerm)
         (sortBy bySizeDesc (mapValues (children hierarchy))).

(** The traversal of [StatsBar] that fills [stats] and [totalCount]. The
    pass that follows it and sets every [percentage] to a floating-point
    quotient is not modelled: [stat_percentage] stays as the traversal
    leaves it. *)
Module StatsBar.

Record CategoryStats : Type := mkStats {
  stat_size : jsval;
  stat_count : Z;
  stat_percentage : jsval
}.

(** The string [categorizeSymbol] returns, the key of the [stats] map. *)
Definition categoryName (c : Category) : string :=
  match c with
  | SysV => "SYS-V"
  | Rust => "Rust"
  | CPP => "C++"
  | Zig => "Zig"
  | Other => "Other"
  end.

(** The leaf case of [calculateStats]; [totalCount] is the counter the
    closure shares with [stats]. *)
Definition countLeaf (state : dict CategoryStats * Z) (node : TreeNode)
  : dict CategoryStats * Z :=
  let '(stats, totalCount) := state in
  let category := categoryName (categorizeSymbol (originalSymbol node)) in
  let stat :=
    match mapGet stats category with
    | Some stat => stat
    | None => mkStats (VNum 0) 0 (VNum 0)
    end in
  (mapSet stats category
     (mkStats (js_add (stat_size stat) (size node))
              (stat_count stat + 1)
              (stat_percentage stat)),
   totalCount + 1).

Fixpoint calculateStats (state : dict CategoryStats * Z) (node : TreeNode)
  : dict CategoryStats * Z :=
  match children node with
  | [] => countLeaf state node
  | _ :: _ =>
      fold_left (fun state (kc : string * TreeNode) =>
                   let '(_, child) := kc in calculateStats state child)
                (children node) state
  end.

(** [stats.get(category) || { size: 0, count: 0, percentage: 0 }], what a
    button of the bar shows. *)
Definition statFor (stats : dict CategoryStats) (c : Category) : CategoryStats :=
  match mapGet stats (categoryName c) with
  | Some stat => stat
  | None => mkStats (VNum 0) 0 (VNum 0)
  end.

End StatsBar.

(** The nodes without children, left to right. *)
Fixpoint leavesOf (n : TreeNode) : list TreeNode :=
  match children n with
  | [] => [n]
  | _ :: _ =>
      flat_map (fun kc : string * TreeNode => let '(_, child) := kc in leavesOf child)
               (children n)
  end.

(* ================================================================== *)
(** * Definitions used to state the properties *)

(** A collation to run the pipeline with: code unit order. *)
Definition codeUnitCompare (a b : string) : Z :=
  match String.compare a b with Lt => -1 | Eq => 0 | Gt => 1 end.

(** The keyword tokens of the segmenter. *)
Definition keywords : list string :=
  [ "void"; "auto"; "int"; "char"; "long"; "short"; "unsigned"; "float";
    "double"; "bool"; "void*"; "char*"; "const"; "volatile"; "restrict" ].

(** The filter as the specification words it: the category of the original
    name, else of the segment name; the search over the original name, else
    the path key, else the segment name. *)
Definition matches_spec (minSize : Z) (activeCategories : list Category)
  (searchTerm : string) (node : TreeNode) : bool :=
  negb (js_lt (size node) minSize)
  && (isEmpty_list activeCategories
      || has activeCategories
           (categorizeSymbol (nullish (originalSymbol node) (VStr (name node)))))
  && (isEmpty searchTerm
      || includes
           (toLowerCase
              (textOf (nullish (originalSymbol node)
                         (nullish (fullPath node) (VStr (name node))))))
           (toLowerCase searchTerm)).

(** The rows of [l] whose name strips to the canonical name [c]. *)
Definition stripsTo (c : string) (row : CSVRow) : bool :=
  String.eqb (canonicalName (textOf (symbols row))) c.

(** The record a group of rows collapses to: the first row renamed, with the
    sizes of the others added and, for each of the others, its count plus
    one. *)
Definition collapse (c : string) (group : list CSVRow) : option CSVRow :=
  match group with
  | [] => None
  | first :: rest =>
      Some (mkRow (VStr c)
              (fold_left (fun acc row => js_add acc (vmsize row)) rest
                         (vmsize first))
              (fold_left (fun acc row =>
                            js_add acc (js_add (nullish (instantiations row) (VNum 0))
                                               (VNum 1)))
                         rest (nullish (instantiations first) (VNum 0))))
  end.

(** The dedup loop renames a row unless its name strips to the bare ["_"]
    from something longer. *)
Definition renamed (row : CSVRow) : bool :=
  negb (String.eqb (canonicalName (textOf (symbols row))) "_")
  || String.eqb (canonicalName (textOf (symbols row))) (textOf (symbols row)).

(** The size a row sorts by, an absent or zero-like size counting as zero. *)
Definition sizeOf (row : CSVRow) : Z :=
  match vmsize row with VNum z => z | _ => 0 end.

(** Descending by size, ties ascending by name under the collation [lc]. *)
Definition rowOrder (lc : string -> string -> Z) (a b : CSVRow) : Prop :=
  sizeOf b < sizeOf a
  \/ (sizeOf a = sizeOf b /\ lc (textOf (symbols a)) (textOf (symbols b)) <= 0).

(** The state of the loop in which it spins: a keyword matches and the text
    has no space. *)
Definition spins (s : string) : bool :=
  startsKeyword s && (indexOf s " " <? 0).

(** The map of the dedup loop after the rows [l]. *)
Definition dedupState (l : list CSVRow) : dict CSVRow := fold_left dedupStep l [].

(** The node reached from [n] along the child keys [path]. *)
Fixpoint nodeAt (n : TreeNode) (path : list string) : option TreeNode :=
  match path with
  | [] => Some n
  | key :: path' =>
      match mapGet (children n) key with
      | Some child => nodeAt child path'
      | None => None
      end
  end.

Fixpoint noDupKeys (keys : list string) : bool :=
  match keys with
  | [] => true
  | key :: keys' => negb (existsb (String.eqb key) keys') && noDupKeys keys'
  end.

(** The data model of the hierarchy: [children] maps a segment name to the
    node of that name, each name once. (The builder never files a node
    under [__proto__], which is no own property of a plain object.) *)
Fixpoint wellKeyed (n : TreeNode) : bool :=
  forallb (fun kc : string * TreeNode =>
             let '(key, child) := kc in
             String.eqb key (name child)
             && negb (String.eqb key "__proto__")
             && wellKeyed child)
          (children n)
  && noDupKeys (mapKeys (children n)).


(** Every group the first traversal records has at least one member. *)
Definition populated (groups : dict SymbolGroup) : Prop :=
  forall k group, In (k, group) groups -> 0 < count group.

(** The hierarchy [processFile] returns for the rows [x.foo] (10), [y.foo]
    (20) and [x.bar] (5). *)
Definition sampleHierarchy : TreeNode :=
  mkNode "root" (VNum 35)
    [ ("y", mkNode "y" (VNum 20)
              [ ("foo", mkNode "foo" (VNum 20) [] (VStr "y::foo") (VStr "y.foo") (VNum 0)) ]
              (VStr "y") (VStr "y.foo") (VNum 0));
      ("x", mkNode "x" (VNum 15)
              [ ("foo", mkNode "foo" (VNum 10) [] (VStr "x::foo") (VStr "x.foo") (VNum 0));
                ("bar", mkNode "bar" (VNum 5) [] (VStr "x::bar") (VStr "x.bar") (VNum 0)) ]
              (VStr "x") (VStr "x.foo") (VNum 0)) ]
    VUndefined VUndefined (VNum 0).

Definition sampleRows : list CSVRow :=
  [ mkRow (VStr "x.foo") (VNum 10) (VNum 0);
    mkRow (VStr "y.foo") (VNum 20) (VNum 0);
    mkRow (VStr "x.bar") (VNum 5) (VNum 0) ].

(** The number a numeric size holds. *)
Definition sizeZ (v : jsval) : Z :=
  match v with VNum z => z | _ => 0 end.

Definition isNum (v : jsval) : bool :=
  match v with VNum _ => true | _ => false end.

Definition sumZ (l : list Z) : Z := fold_right Z.add 0 l.

(** The sizes recorded in the nodes of a hierarchy before aggregation,
    summed. *)
Fixpoint ownTotal (n : TreeNode) : Z :=
  sizeZ (size n)
  + sumZ (map (fun kc : string * TreeNode =>
                 let '(_, child) := kc in ownTotal child) (children n)).

(** Every size in the hierarchy is an integer. *)
Fixpoint numericTree (n : TreeNode) : bool :=
  isNum (size n)
  && forallb (fun kc : string * TreeNode =>
                let '(_, child) := kc in numericTree child) (children n).

(** No node is filed under a name that [Object.prototype] provides. *)
Fixpoint ownKeysOnly (n : TreeNode) : bool :=
  forallb (fun kc : string * TreeNode =>
             let '(key, child) := kc in
             negb (inherited key) && ownKeysOnly child) (children n).

(** The walk along [parts] never steps onto an inherited member. *)
Definition stays (parts : list string) : bool :=
  forallb (fun part => negb (inherited part)) parts.

(** The segments of a record: the parts the insertion loop does not skip. *)
Definition segmentsOf (parts : list string) : list string :=
  filter nonEmpty parts.

Fixpoint pathEqb (p q : list string) : bool :=
  match p, q with
  | [], [] => true
  | a :: p', b :: q' => String.eqb a b && pathEqb p' q'
  | _, _ => false
  end.

(** The record [rec] ends at the node along [path]: it has segments, they
    are [path], and none of them is inherited. *)
Definition endsAt (fuel : nat) (path : list string) (rec : CSVRow) : bool :=
  match processSymbol fuel (textOf (symbols rec)) with
  | Some parts =>
      negb (isEmpty_list (segmentsOf parts))
      && pathEqb (segmentsOf parts) path
      && stays (segmentsOf parts)
  | None => false
  end.

(** The record yields at least one segment, the condition of the
    conservation property. *)
Definition hasSegments (fuel : nat) (rec : CSVRow) : bool :=
  match processSymbol fuel (textOf (symbols rec)) with
  | Some parts => negb (isEmpty_list (segmentsOf parts))
  | None => false
  end.

(** The record reaches a node of the hierarchy. *)
Definition lands (fuel : nat) (rec : CSVRow) : bool :=
  match processSymbol fuel (textOf (symbols rec)) with
  | Some parts =>
      negb (isEmpty_list (segmentsOf parts)) && stays (segmentsOf parts)
  | None => false
  end.

(** No segment of the record is [__proto__]: its walk never stands on
    [Object.prototype] itself. *)
Definition offPrototype (fuel : nat) (rec : CSVRow) : bool :=
  match processSymbol fuel (textOf (symbols rec)) with
  | Some parts => negb (existsb (String.eqb "__proto__") (segmentsOf parts))
  | None => true
  end.

Definition instAt (n : TreeNode) (path : list string) : option jsval :=
  option_map node_instantiations (nodeAt n path).

(** The counters of the records that end at [path], added up the way the
    insertion loop does. *)
Definition countsAt (fuel : nat) (path : list string) (recs : list CSVRow) : jsval :=
  fold_left js_add (map instantiations (filter (endsAt fuel path) recs)) (VNum 0).

(** The node the walk continues from once it stands on [child]. *)
Definition arrive (rest : list string) (symbol : CSVRow) (child : TreeNode)
  : TreeNode :=
  match rest with
  | [] => addRecord symbol child
  | _ :: _ => child
  end.

Definition extendPath (path part : string) : string :=
  if isEmpty path then part else path ++ "::" ++ part.

Definition numericRow (row : CSVRow) : bool := isNum (vmsize row).

Definition orZero (o : option jsval) : jsval :=
  match o with Some v => v | None => VNum 0 end.

(** The counts of a hierarchy under construction agree with the records
    [recs] inserted so far: a node carries the added-up counters of the
    records that end at it, and where there is no node no record ended. *)
Definition countsAgree (fuel : nat) (tree : TreeNode) (recs : list CSVRow) : Prop :=
  forall path,
    match instAt tree path with
    | Some v => v = countsAt fuel path recs
    | None => filter (endsAt fuel path) recs = []
    end.

(** [p] is an initial part of the path [q]. *)
Fixpoint prefixb (p q : list string) : bool :=
  match p, q with
  | [], _ => true
  | a :: p', b :: q' => String.eqb a b && prefixb p' q'
  | _ :: _, [] => false
  end.

(** The record [rec] goes through the node along [path]: it has segments,
    [path] is an initial part of them, and none of them is inherited. *)
Definition passes (fuel : nat) (path : list string) (rec : CSVRow) : bool :=
  match processSymbol fuel (textOf (symbols rec)) with
  | Some parts =>
      negb (isEmpty_list (segmentsOf parts))
      && prefixb path (segmentsOf parts)
      && stays (segmentsOf parts)
  | None => false
  end.

(** The sizes of the records that go through [path], summed. *)
Definition sizesAt (fuel : nat) (path : list string) (recs : list CSVRow) : Z :=
  sumZ (map sizeOf (filter (passes fuel path) recs)).

(** The sizes recorded at and below the node along [path]. *)
Definition totalAt (n : TreeNode) (path : list string) : option Z :=
  option_map ownTotal (nodeAt n path).

Definition orZeroZ (o : option Z) : Z :=
  match o with Some z => z | None => 0 end.

(** The sizes of a hierarchy under construction agree with the records
    [recs] inserted so far. *)
Definition sizesAgree (fuel : nat) (tree : TreeNode) (recs : list CSVRow) : Prop :=
  forall path,
    match totalAt tree path with
    | Some v => v = sizesAt fuel path recs
    | None => filter (passes fuel path) recs = []
    end.

(** A row whose size is a number and not negative. *)
Definition nonnegRow (row : CSVRow) : bool :=
  match vmsize row with VNum z => 0 <=? z | _ => false end.

(** The category under which [StatsBar] counts a node without children. *)
Definition leafCategory (leaf : TreeNode) : Category :=
  categorizeSymbol (originalSymbol leaf).

Definition leavesIn (c : Category) (hierarchy : TreeNode) : list TreeNode :=
  filter (fun leaf => Category_eqb (leafCategory leaf) c) (leavesOf hierarchy).

Definition leafSizes (leaves : list TreeNode) : Z :=
  sumZ (map (fun leaf => sizeZ (size leaf)) leaves).

(** [stats] and [totalCount] after [calculateStats(hierarchy)], both fresh
    at every render. *)
Definition statsOf (hierarchy : TreeNode) : dict StatsBar.CategoryStats * Z :=
  StatsBar.calculateStats (([] : dict StatsBar.CategoryStats), 0) hierarchy.

(** The categories [StatsBar] renders a button for, in its order. *)
Definition buttons : list Category := [CPP; Zig; Rust; SysV; Other].

(** Every size recorded in the hierarchy is a number and not negative. *)
Fixpoint nonnegTree (n : TreeNode) : bool :=
  match size n with VNum z => 0 <=? z | _ => false end
  && forallb (fun kc : string * TreeNode =>
                let '(_, child) := kc in nonnegTree child) (children n).

(** The record [rec] reaches the node along [path]: [path] is an initial
    part of its segments and names no inherited member. *)
Definition reaches (fuel : nat) (path : list string) (rec : CSVRow) : bool :=
  match processSymbol fuel (textOf (symbols rec)) with
  | Some parts => prefixb path (segmentsOf parts) && stays path
  | None => false
  end.

(** The first of the records [recs] that reaches [path]. *)
Definition firstReaching (fuel : nat) (path : list string) (recs : list CSVRow)
  : option CSVRow :=
  hd_error (filter (reaches fuel path) recs).

(** The [path] variable of the insertion loop after the parts [parts],
    started from [path]. *)
Definition joinFrom (path : string) (parts : list string) : string :=
  fold_left extendPath parts path.

(** What a node is labelled with. *)
Definition labelOf (n : TreeNode) : string * jsval * jsval :=
  (name n, fullPath n, originalSymbol n).

Definition labelAt (n : TreeNode) (path : list string)
  : option (string * jsval * jsval) :=
  option_map labelOf (nodeAt n path).

(** The labels of a hierarchy under construction agree with the records
    [recs] inserted so far: below the root there is a node exactly where a
    record reaches, named after the last segment, with the segments joined
    as its path and the name of the first record that reached it. *)
Definition labelsAgree (fuel : nat) (tree : TreeNode) (recs : list CSVRow) : Prop :=
  forall path,
    path <> [] ->
    labelAt tree path =
    option_map (fun rec => (last path "", VStr (joinFrom "" path), symbols rec))
               (firstReaching fuel path recs).

(** The text holds neither of the two keywords that are tested without a
    following space. *)
Definition pointerFree (s : string) : bool :=
  negb (includes s "void*") && negb (includes s "char*").

(** The nodes without children of a forest whose stripped name is
    [baseName], left to right. *)
Definition membersOf (baseName : string) (symbols : list TreeNode)
  : list TreeNode :=
  filter (fun leaf => String.eqb (leafBaseName (name leaf)) baseName)
         (flat_map leavesOf symbols).

(** What one more member does to its group. *)
Definition joinGroup (group : SymbolGroup) (node : TreeNode) : SymbolGroup :=
  mkGroup (group_name group)
          (js_add (group_size group) (size node))
          (count group + 1)
          (if truthy (originalSymbol node)
           then (originalSymbols group ++ [originalSymbol node])%list
           else originalSymbols group)
          (group_instantiations group + 1)
          (group_children group).

(** The row brings no count of its own: the column is absent or zero. *)
Definition noCount (row : CSVRow) : bool :=
  match instantiations row with
  | VUndefined | VNull => true
  | VNum z => z =? 0
  | _ => false
  end.

(** The kept rows that are variants of the canonical name [c]. *)
Definition variants (c : string) (data : list CSVRow) : list CSVRow :=
  filter (stripsTo c) (filter keepRow data).

(** The threshold [processFile] sets after every file,
    [setMinSize(1024 * 10)]. *)
Definition initialMinSize : Z := 1024 * 10.

(* ================================================================== *)
(** * Properties *)

(** ** The classifier *)

Lemma markers_nonempty (s : string) :
  isSysV s = true \/ isRust s = true \/ isCpp s = true \/ includes s "." = true ->
  isEmpty s = false.
Proof.
  destruct s as [|c s]; [|reflexivity].
  intros [H | [H | [H | H]]]; discriminate H.
Qed.

(** C5, as stated, fails on two of its examples. ["std::to_string"]
    contains [::] and has neither a hash nor an anon marker, yet [::to_]
    matches the Rust pattern [::[a-z0-9]{2}_] and the name is Rust, not CPP;
    and a name whose 16 hex digits do not follow an [h], or that also holds
    a SysV marker, is not Rust. *)
Lemma categorizeSymbol_examples_counterexample :
  ~ (forall s, includes s "::" = true -> reHash s = false ->
               includes s "anon" = false ->
               categorizeSymbol (VStr s) = CPP)
  /\ categorizeSymbol (VStr "std::to_string") = Rust
  /\ categorizeSymbol (VStr "fmt::0123456789abcdef") = CPP
  /\ categorizeSymbol (VStr "a__b::h0123456789abcdef") = SysV.
Proof.
  split; [|repeat split].
  intros H. specialize (H "std::to_string" eq_refl eq_refl eq_refl).
  discriminate H.
Qed.

(** C5, amended. [categorizeSymbol] is a function on every value (so it
    returns, and returns the same category for the same input); anything
    that is not a string, [undefined] included, is Other; on a string the
    SysV, Rust, CPP and Zig groups are tried in that order and the first
    that matches decides, Other being the default. In particular a name
    that contains [::] and matches neither the SysV nor the Rust group is
    CPP, a name that contains an [h] followed by 16 lower-case hex digits
    and matches no SysV pattern is Rust, a name of the bracket form is SysV,
    and ["foo.bar"] is Zig. *)
Theorem categorizeSymbol_ladder (s : string) :
  (forall v, isString v = false -> categorizeSymbol v = Other)
  /\ categorizeSymbol VUndefined = Other
  /\ (isSysV s = true -> categorizeSymbol (VStr s) = SysV)
  /\ (isSysV s = false -> isRust s = true -> categorizeSymbol (VStr s) = Rust)
  /\ (isSysV s = false -> isRust s = false -> isCpp s = true ->
      categorizeSymbol (VStr s) = CPP)
  /\ (isSysV s = false -> isRust s = false -> isCpp s = false ->
      includes s "." = true -> categorizeSymbol (VStr s) = Zig)
  /\ (isSysV s = false -> isRust s = false -> isCpp s = false ->
      includes s "." = false -> categorizeSymbol (VStr s) = Other)
  /\ (includes s "::" = true -> isSysV s = false -> isRust s = false ->
      categorizeSymbol (VStr s) = CPP)
  /\ (reHash s = true -> isSysV s = false -> categorizeSymbol (VStr s) = Rust)
  /\ (reBracket s = true -> categorizeSymbol (VStr s) = SysV)
  /\ categorizeSymbol (VStr "Namespace::Class::method") = CPP
  /\ categorizeSymbol (VStr "core::fmt::write::h0123456789abcdef") = Rust
  /\ categorizeSymbol (VStr "[anon_symbol]") = SysV
  /\ categorizeSymbol (VStr "foo.bar") = Zig.
Proof.
  assert (ladder : forall t, isEmpty t = false ->
            categorizeSymbol (VStr t) =
            if isSysV t then SysV else if isRust t then Rust
            else if isCpp t then CPP else if includes t "." then Zig else Other).
  { intros t Ht. unfold categorizeSymbol. now rewrite Ht. }
  repeat split; try reflexivity.
  - intros v Hv. destruct v; try reflexivity. discriminate Hv.
  - intros H. rewrite ladder by (apply markers_nonempty; auto). now rewrite H.
  - intros H1 H2. rewrite ladder by (apply markers_nonempty; auto).
    now rewrite H1, H2.
  - intros H1 H2 H3. rewrite ladder by (apply markers_nonempty; auto).
    now rewrite H1, H2, H3.
  - intros H1 H2 H3 H4. rewrite ladder by (apply markers_nonempty; auto).
    now rewrite H1, H2, H3, H4.
  - intros H1 H2 H3 H4. unfold categorizeSymbol.
    destruct (isEmpty s); [reflexivity|]. now rewrite H1, H2, H3, H4.
  - intros Hc H1 H2.
    assert (H3 : isCpp s = true) by (unfold isCpp; now rewrite Hc).
    rewrite ladder by (apply markers_nonempty; auto). now rewrite H1, H2, H3.
  - intros Hh H1.
    assert (H2 : isRust s = true) by (unfold isRust; now rewrite Hh).
    rewrite ladder by (apply markers_nonempty; auto). now rewrite H1, H2.
  - intros Hb.
    assert (H1 : isSysV s = true) by (unfold isSysV; now rewrite Hb).
    rewrite ladder by (apply markers_nonempty; auto). now rewrite H1.
Qed.

Lemma categorizeSymbol_ladder_witness :
  categorizeSymbol (VStr "std::vector<int>") = CPP
  /\ categorizeSymbol (VStr "alloc::raw_vec::h00ff00ff00ff00ff") = Rust
  /\ categorizeSymbol (VStr "[section .text]") = SysV
  /\ categorizeSymbol (VNum 7) = Other.
Proof.
  split; [|split; [|split]].
  - destruct (categorizeSymbol_ladder "std::vector<int>")
      as (_ & _ & _ & _ & _ & _ & _ & H & _).
    apply H; reflexivity.
  - destruct (categorizeSymbol_ladder "alloc::raw_vec::h00ff00ff00ff00ff")
      as (_ & _ & _ & _ & _ & _ & _ & _ & H & _).
    apply H; reflexivity.
  - destruct (categorizeSymbol_ladder "[section .text]")
      as (_ & _ & _ & _ & _ & _ & _ & _ & _ & H & _).
    apply H; reflexivity.
  - destruct (categorizeSymbol_ladder "") as (H & _).
    apply H; reflexivity.
Defined.

(** ** The filter *)

Lemma size_zero_empty {A : Type} (l : list A) :
  Nat.eqb (List.length l) 0 = isEmpty_list l.
Proof. now destruct l. Qed.

Lemma matchesFilters_unfold minSize activeFilters searchTerm node :
  matchesFilters minSize activeFilters searchTerm node =
  negb (js_lt (size node) minSize)
  && (isEmpty_list activeFilters
      || has activeFilters (categorizeSymbol (originalSymbol node)))
  && (isEmpty searchTerm
      || includes (toLowerCase (searchText node)) (toLowerCase searchTerm)).
Proof.
  unfold matchesFilters. rewrite size_zero_empty.
  destruct (js_lt (size node) minSize); reflexivity.
Qed.

(** C6. The filter is the conjunction of a size, a category and a search
    condition: a node whose size is below [minSize] is rejected whatever the
    category filters and the search term are; with no active category the
    category condition rejects nothing (a node accepted under some filters
    is accepted under none, and then only size and search decide); with an
    empty search term the search condition rejects nothing. *)
Theorem matchesFilters_composition (minSize : Z) (activeFilters : list Category)
  (searchTerm : string) (node : TreeNode) :
  (matchesFilters minSize activeFilters searchTerm node =
   negb (js_lt (size node) minSize)
   && (isEmpty_list activeFilters
       || has activeFilters (categorizeSymbol (originalSymbol node)))
   && (isEmpty searchTerm
       || includes (toLowerCase (searchText node)) (toLowerCase searchTerm)))
  /\ (js_lt (size node) minSize = true ->
      matchesFilters minSize activeFilters searchTerm node = false)
  /\ (forall z, size node = VNum z -> z < minSize ->
      matchesFilters minSize activeFilters searchTerm node = false)
  /\ (matchesFilters minSize activeFilters searchTerm node = true ->
      matchesFilters minSize [] searchTerm node = true)
  /\ (matchesFilters minSize [] searchTerm node =
      negb (js_lt (size node) minSize)
      && (isEmpty searchTerm
          || includes (toLowerCase (searchText node)) (toLowerCase searchTerm)))
  /\ (matchesFilters minSize activeFilters searchTerm node = true ->
      matchesFilters minSize activeFilters "" node = true)
  /\ (matchesFilters minSize activeFilters "" node =
      negb (js_lt (size node) minSize)
      && (isEmpty_list activeFilters
          || has activeFilters (categorizeSymbol (originalSymbol node)))).
Proof.
  rewrite !matchesFilters_unfold. cbn [isEmpty_list isEmpty orb].
  repeat split.
  - intros ->. reflexivity.
  - intros z Hz Hlt. unfold js_lt. rewrite Hz. cbn.
    apply Z.ltb_lt in Hlt. now rewrite Hlt.
  - intros H. apply andb_true_iff in H as [H Hs].
    apply andb_true_iff in H as [H _]. now rewrite H, Hs.
  - now rewrite andb_true_r.
  - intros H. apply andb_true_iff in H as [H _]. now rewrite H.
  - now rewrite andb_true_r.
Qed.

Lemma matchesFilters_composition_witness :
  matchesFilters 10240 [CPP] "foo"
    (mkNode "foo" (VNum 512) [] (VStr "ns::foo") (VStr "ns::foo") (VNum 0)) = false
  /\ matchesFilters 0 [] "foo"
    (mkNode "foo" (VNum 512) [] (VStr "ns::foo") (VStr "ns::foo") (VNum 0)) = true.
Proof.
  split.
  - destruct (matchesFilters_composition 10240 [CPP] "foo"
                (mkNode "foo" (VNum 512) [] (VStr "ns::foo") (VStr "ns::foo") (VNum 0)))
      as (_ & Hsize & _).
    apply Hsize. reflexivity.
  - destruct (matchesFilters_composition 0 [CPP] "foo"
                (mkNode "foo" (VNum 512) [] (VStr "ns::foo") (VStr "ns::foo") (VNum 0)))
      as (_ & _ & _ & Hcat & _).
    apply Hcat. reflexivity.
Defined.

(** C7, as stated, fails: the node that [processFile] creates for the first
    segment of ["Namespace::Class::method"] has the path key ["Namespace"];
    the search term ["method"] occurs in its original name and not in its
    path key, so the specified order accepts it and [matchesFilters]
    rejects it. *)
Lemma matchesFilters_fallback_counterexample :
  ~ (forall minSize activeFilters searchTerm node,
        matchesFilters minSize activeFilters searchTerm node =
        matches_spec minSize activeFilters searchTerm node).
Proof.
  intros H.
  specialize (H 0 [] "method"
    (mkNode "Namespace" (VNum 20000) []
       (VStr "Namespace") (VStr "Namespace::Class::method") (VNum 0))).
  discriminate H.
Qed.

(** C7, amended. The category condition classifies the original qualified
    name alone, with no fallback: a node without one counts as Other. The
    search condition tests the term, case-insensitively, against the path
    key; against the original qualified name when the path key is absent or
    empty; and against the segment name when both are. *)
Theorem matchesFilters_fallback (minSize : Z) (activeFilters : list Category)
  (searchTerm : string) (node : TreeNode) :
  (matchesFilters minSize activeFilters searchTerm node = true <->
   js_lt (size node) minSize = false
   /\ (activeFilters = [] \/
       In (categorizeSymbol (originalSymbol node)) activeFilters)
   /\ (searchTerm = "" \/
       includes (toLowerCase (searchText node)) (toLowerCase searchTerm) = true))
  /\ (originalSymbol node = VUndefined ->
      categorizeSymbol (originalSymbol node) = Other)
  /\ (forall p, fullPath node = VStr p -> p <> "" -> searchText node = p)
  /\ (forall o, truthy (fullPath node) = false ->
      originalSymbol node = VStr o -> o <> "" -> searchText node = o)
  /\ (truthy (fullPath node) = false -> truthy (originalSymbol node) = false ->
      searchText node = name node).
Proof.
  split; [|repeat split].
  - rewrite matchesFilters_unfold, !andb_true_iff, !orb_true_iff, negb_true_iff.
    assert (Hl : isEmpty_list activeFilters = true <-> activeFilters = []).
    { destruct activeFilters; split; intros H; try reflexivity; discriminate H. }
    assert (Hs : isEmpty searchTerm = true <-> searchTerm = "").
    { destruct searchTerm; split; intros H; try reflexivity; discriminate H. }
    assert (Hh : forall c, has activeFilters c = true <-> In c activeFilters).
    { intros c. unfold has. rewrite existsb_exists. split.
      - intros [x [Hin Hx]]. destruct c, x; try discriminate Hx; exact Hin.
      - intros Hin. exists c. split; [exact Hin | now destruct c]. }
    rewrite Hl, Hs, Hh. tauto.
  - intros ->. reflexivity.
  - intros p Hp Hne. unfold searchText, js_or. rewrite Hp. cbn.
    destruct p; [contradiction|reflexivity].
  - intros o Hf Ho Hne. unfold searchText, js_or. rewrite Hf, Ho. cbn.
    destruct o; [contradiction|reflexivity].
  - intros Hf Ho. unfold searchText, js_or. now rewrite Hf, Ho.
Qed.

Lemma matchesFilters_fallback_witness :
  searchText (mkNode "Namespace" (VNum 20000) []
                (VStr "Namespace") (VStr "Namespace::Class::method") (VNum 0))
  = "Namespace"
  /\ searchText (mkNode "seg" (VNum 1) [] VUndefined (VStr "a.seg") (VNum 0)) = "a.seg".
Proof.
  split.
  - destruct (matchesFilters_fallback 0 [] ""
      (mkNode "Namespace" (VNum 20000) []
         (VStr "Namespace") (VStr "Namespace::Class::method") (VNum 0)))
      as (_ & _ & H & _).
    apply H; [reflexivity | discriminate].
  - destruct (matchesFilters_fallback 0 [] ""
      (mkNode "seg" (VNum 1) [] VUndefined (VStr "a.seg") (VNum 0)))
      as (_ & _ & _ & H & _).
    apply H; [reflexivity | reflexivity | discriminate].
Defined.

(** ** The segmenter *)

Lemma length_drop (n : nat) (s : string) :
  String.length (drop n s) = (String.length s - n)%nat.
Proof.
  revert s. induction n as [|n IH]; intros s; cbn.
  - now rewrite Nat.sub_0_r.
  - destruct s as [|c s]; cbn; [reflexivity | apply IH].
Qed.

Lemma slice_drop (n : nat) (s : string) :
  (n <= String.length s)%nat -> slice s (Z.of_nat n) = drop n s.
Proof.
  intros Hn. unfold slice.
  destruct (Z.of_nat n <? 0) eqn:E; [apply Z.ltb_lt in E; lia|].
  rewrite Z.min_l by lia. now rewrite Nat2Z.id.
Qed.

Lemma indexOf_cons (c : ascii) (s sub : string) :
  indexOf (String c s) sub =
  if isPrefix sub (String c s) then 0
  else if indexOf s sub <? 0 then -1 else indexOf s sub + 1.
Proof. reflexivity. Qed.

Lemma indexOf_range (s sub : string) :
  indexOf s sub = -1 \/ 0 <= indexOf s sub.
Proof.
  induction s as [|c s IH].
  - destruct sub; cbn; lia.
  - rewrite indexOf_cons.
    destruct (isPrefix sub (String c s)); [lia|].
    destruct (indexOf s sub <? 0) eqn:E; [lia|].
    apply Z.ltb_ge in E. lia.
Qed.

Lemma indexOf_space_lt (s : string) :
  0 <= indexOf s " " -> indexOf s " " < Z.of_nat (String.length s).
Proof.
  induction s as [|c s IH].
  - cbn. lia.
  - rewrite indexOf_cons. cbn [String.length].
    destruct (isPrefix " " (String c s)); [lia|].
    destruct (indexOf s " " <? 0) eqn:E; [lia|].
    apply Z.ltb_ge in E. specialize (IH E). lia.
Qed.

(** A turn of the loop shortens the text exactly when it contains a space. *)
Lemma stripOnce_shorter (s : string) :
  0 <= indexOf s " " ->
  (String.length (stripOnce s) < String.length s)%nat.
Proof.
  intros H. pose proof (indexOf_space_lt s H) as Hlt. unfold stripOnce.
  replace (indexOf s " " + 1) with (Z.of_nat (Z.to_nat (indexOf s " " + 1))) by lia.
  rewrite slice_drop by lia. rewrite length_drop. lia.
Qed.

Lemma stripOnce_fixed (s : string) :
  indexOf s " " = -1 -> stripOnce s = s.
Proof.
  intros H. unfold stripOnce. rewrite H.
  change (-1 + 1) with (Z.of_nat 0). now rewrite slice_drop by lia.
Qed.

Lemma stripKeywords_spins (s : string) :
  spins s = true -> forall fuel, stripKeywords fuel s = None.
Proof.
  intros H fuel. apply andb_true_iff in H as [Hk Hi].
  apply Z.ltb_lt in Hi.
  assert (Hfix : stripOnce s = s).
  { apply stripOnce_fixed. destruct (indexOf_range s " "); lia. }
  induction fuel as [|fuel IH]; cbn; [reflexivity|].
  now rewrite Hk, Hfix.
Qed.

Lemma stripKeywords_mono (fuel fuel' : nat) (s r : string) :
  stripKeywords fuel s = Some r -> (fuel <= fuel')%nat ->
  stripKeywords fuel' s = Some r.
Proof.
  revert fuel' s. induction fuel as [|fuel IH]; intros fuel' s H Hle.
  - discriminate H.
  - destruct fuel' as [|fuel']; [lia|]. cbn in *.
    destruct (startsKeyword s); [|exact H].
    apply IH; [exact H | lia].
Qed.

(** The loop either leaves within [length s + 1] tests of its condition or
    never does. *)
Lemma stripKeywords_total (s : string) :
  (exists r, stripKeywords (S (String.length s)) s = Some r)
  \/ (forall fuel, stripKeywords fuel s = None).
Proof.
  remember (String.length s) as n eqn:Hn.
  assert (Hle : (String.length s <= n)%nat) by lia. clear Hn.
  revert s Hle. induction n as [|n IH]; intros s Hle.
  - destruct (startsKeyword s) eqn:Hk.
    + destruct s; [discriminate Hk | cbn in Hle; lia].
    + left. exists s. cbn. now rewrite Hk.
  - destruct (startsKeyword s) eqn:Hk.
    + destruct (indexOf s " " <? 0) eqn:Hi.
      * right. apply stripKeywords_spins. unfold spins. now rewrite Hk, Hi.
      * apply Z.ltb_ge in Hi. pose proof (stripOnce_shorter s Hi) as Hs.
        destruct (IH (stripOnce s)) as [[r Hr] | Hnone]; [lia | |].
        -- left. exists r.
           change (stripKeywords (S (S n)) s) with
             (if startsKeyword s then stripKeywords (S n) (stripOnce s)
              else Some s).
           now rewrite Hk.
        -- right. intros [|fuel]; [reflexivity|]. cbn. rewrite Hk. apply Hnone.
    + left. exists s. cbn. now rewrite Hk.
Qed.

Lemma processSymbol_mono (fuel fuel' : nat) (s : string) (parts : list string) :
  processSymbol fuel s = Some parts -> (fuel <= fuel')%nat ->
  processSymbol fuel' s = Some parts.
Proof.
  unfold processSymbol. intros H Hle.
  destruct (stripKeywords fuel s) as [r|] eqn:E; [|discriminate H].
  now rewrite (stripKeywords_mono _ _ _ _ E Hle).
Qed.

Lemma cleanName_trim (s : string) : cleanName s = trim s.
Proof. now destruct s. Qed.

Lemma keyword_space_strip (kw rest : string) :
  In kw keywords ->
  startsKeyword (kw ++ " " ++ rest) = true /\ stripOnce (kw ++ " " ++ rest) = rest.
Proof.
  intros Hin. unfold keywords in Hin. cbn [In] in Hin.
  assert (Hslice : forall n : nat, (n <= String.length (kw ++ " " ++ rest))%nat ->
            drop n (kw ++ " " ++ rest) = rest ->
            indexOf (kw ++ " " ++ rest) " " + 1 = Z.of_nat n ->
            stripOnce (kw ++ " " ++ rest) = rest).
  { intros n Hn Hd Hi. unfold stripOnce. rewrite Hi. now rewrite slice_drop. }
  repeat (destruct Hin as [<- | Hin];
    [ split; [reflexivity|];
      match goal with
      | |- stripOnce (?k ++ _ ++ _) = _ =>
          apply (Hslice (S (String.length k))); [cbn; lia | reflexivity | reflexivity]
      end | ]).
  contradiction.
Qed.

(** C4, as stated, fails on its third example: [char*] is itself a keyword
    of the loop, so ["const char* foo.bar"] loses both ["const "] and
    ["char* "] and no amount of fuel yields [["char* foo"; "bar"]]. *)
Lemma processSymbol_example_counterexample :
  ~ (exists fuel,
        processSymbol fuel "const char* foo.bar" = Some ["char* foo"; "bar"]).
Proof.
  intros [fuel H].
  assert (H3 : processSymbol 3 "const char* foo.bar" = Some ["foo"; "bar"])
    by reflexivity.
  destruct (Nat.le_ge_cases fuel 3) as [Hle | Hge].
  - rewrite (processSymbol_mono _ _ _ _ H Hle) in H3. discriminate H3.
  - rewrite (processSymbol_mono _ _ _ _ H3 Hge) in H. discriminate H.
Qed.

(** C4, amended. A leading keyword of the fixed list that is followed by a
    space is stripped together with that space, and the rest is segmented
    again; a text without a leading keyword is segmented by the first
    strategy that applies: a leading bracket keeps the whole text as one
    segment, else a dot splits on dots, else a double colon splits on double
    colons, else the trimmed text is the only segment, the pieces of a split
    being trimmed and the empty ones dropped. ["Namespace::Class::method"]
    gives its three components, ["[vtable for X]"] itself, and
    ["const char* foo.bar"] gives [["foo"; "bar"]]. *)
Theorem processSymbol_strategies (fuel : nat) (s : string) :
  (forall kw, In kw keywords ->
     processSymbol (S fuel) (kw ++ " " ++ s) = processSymbol fuel s)
  /\ (startsKeyword s = false -> startsWith s "[" = true ->
      processSymbol (S fuel) s = Some [s])
  /\ (startsKeyword s = false -> startsWith s "[" = false ->
      includes s "." = true ->
      processSymbol (S fuel) s = Some (filter nonEmpty (map trim (split s "."))))
  /\ (startsKeyword s = false -> startsWith s "[" = false ->
      includes s "." = false -> includes s "::" = true ->
      processSymbol (S fuel) s = Some (filter nonEmpty (map trim (split s "::"))))
  /\ (startsKeyword s = false -> startsWith s "[" = false ->
      includes s "." = false -> includes s "::" = false ->
      processSymbol (S fuel) s = Some [trim s])
  /\ processSymbol (S fuel) "Namespace::Class::method"
     = Some ["Namespace"; "Class"; "method"]
  /\ processSymbol (S fuel) "[vtable for X]" = Some ["[vtable for X]"]
  /\ processSymbol (S (S (S fuel))) "const char* foo.bar" = Some ["foo"; "bar"].
Proof.
  assert (Hmap : forall l, map cleanName l = map trim l).
  { intros l. apply map_ext. exact cleanName_trim. }
  assert (Hno : startsKeyword s = false ->
                processSymbol (S fuel) s = Some (splitSymbol s)).
  { intros Hk. unfold processSymbol. cbn. now rewrite Hk. }
  repeat split.
  - intros kw Hin. destruct (keyword_space_strip kw s Hin) as [Hk Hs].
    unfold processSymbol. cbn [stripKeywords]. now rewrite Hk, Hs.
  - intros Hk Hb. rewrite (Hno Hk). unfold splitSymbol. now rewrite Hb.
  - intros Hk Hb Hd. rewrite (Hno Hk). unfold splitSymbol.
    now rewrite Hb, Hd, Hmap.
  - intros Hk Hb Hd Hc. rewrite (Hno Hk). unfold splitSymbol.
    now rewrite Hb, Hd, Hc, Hmap.
  - intros Hk Hb Hd Hc. rewrite (Hno Hk). unfold splitSymbol.
    now rewrite Hb, Hd, Hc, cleanName_trim.
Qed.

Lemma processSymbol_strategies_witness :
  processSymbol 2 "unsigned ns::f" = Some ["ns"; "f"]
  /\ processSymbol 1 "[section .text]" = Some ["[section .text]"]
  /\ processSymbol 1 " main " = Some ["main"].
Proof.
  split; [|split].
  - destruct (processSymbol_strategies 1 "ns::f") as (Hkw & _).
    transitivity (processSymbol 1 "ns::f");
      [apply (Hkw "unsigned"); cbn; tauto|].
    destruct (processSymbol_strategies 0 "ns::f") as (_ & _ & _ & Hc & _).
    rewrite Hc by reflexivity. reflexivity.
  - destruct (processSymbol_strategies 0 "[section .text]") as (_ & Hb & _).
    apply Hb; reflexivity.
  - destruct (processSymbol_strategies 0 " main ") as (_ & _ & _ & _ & Hw & _).
    rewrite Hw by reflexivity. reflexivity.
Defined.

(** C10 does not hold of the code: the tokens [void*] and [char*] are tested
    without the space that follows every other keyword, and the body cuts
    at the first space. On a text that starts with one of them and has no
    space, [indexOf] is [-1], the body leaves the text as it is, and the loop
    never ends: whatever the fuel, [processSymbol] has no result on
    ["void*"], nor on ["char*buf"]. *)
Theorem processSymbol_spins (fuel : nat) :
  startsKeyword "void*" = true
  /\ stripOnce "void*" = "void*"
  /\ stripKeywords fuel "void*" = None
  /\ processSymbol fuel "void*" = None
  /\ processSymbol fuel "char*buf" = None.
Proof.
  assert (H1 : stripKeywords fuel "void*" = None)
    by (apply stripKeywords_spins; reflexivity).
  assert (H2 : stripKeywords fuel "char*buf" = None)
    by (apply stripKeywords_spins; reflexivity).
  unfold processSymbol. rewrite H1, H2. repeat split.
Qed.

(** ** Dictionaries *)

Lemma mapGet_mapSet_same {V : Type} (m : dict V) (k : string) (v : V) :
  mapGet (mapSet m k v) k = Some v.
Proof.
  induction m as [|[k' w] m IH]; cbn.
  - now rewrite String.eqb_refl.
  - destruct (String.eqb k' k) eqn:E; cbn; rewrite E; [reflexivity | exact IH].
Qed.

Lemma mapGet_mapSet_other {V : Type} (m : dict V) (k k' : string) (v : V) :
  k <> k' -> mapGet (mapSet m k v) k' = mapGet m k'.
Proof.
  intros Hne. induction m as [|[k0 w] m IH]; cbn.
  - destruct (String.eqb k k') eqn:E; [apply String.eqb_eq in E; contradiction|].
    reflexivity.
  - destruct (String.eqb k0 k) eqn:E; cbn.
    + apply String.eqb_eq in E. subst k0.
      destruct (String.eqb k k') eqn:E'; [apply String.eqb_eq in E'; contradiction|].
      reflexivity.
    + destruct (String.eqb k0 k'); [reflexivity | exact IH].
Qed.

Lemma mapGet_None_keys {V : Type} (m : dict V) (k : string) :
  mapGet m k = None <-> ~ In k (mapKeys m).
Proof.
  induction m as [|[k' w] m IH]; cbn.
  - tauto.
  - destruct (String.eqb k' k) eqn:E.
    + apply String.eqb_eq in E. split; [discriminate | intros H; tauto].
    + apply String.eqb_neq in E. rewrite IH. tauto.
Qed.

Lemma mapKeys_mapSet {V : Type} (m : dict V) (k : string) (v : V) :
  mapKeys (mapSet m k v) =
  match mapGet m k with
  | Some _ => mapKeys m
  | None => (mapKeys m ++ [k])%list
  end.
Proof.
  induction m as [|[k' w] m IH]; cbn.
  - reflexivity.
  - destruct (String.eqb k' k) eqn:E; cbn; [reflexivity|].
    unfold mapKeys in IH. rewrite IH. now destruct (mapGet m k).
Qed.

Lemma mapSet_NoDup {V : Type} (m : dict V) (k : string) (v : V) :
  NoDup (mapKeys m) -> NoDup (mapKeys (mapSet m k v)).
Proof.
  intros H. rewrite mapKeys_mapSet. destruct (mapGet m k) eqn:E; [exact H|].
  apply mapGet_None_keys in E.
  apply NoDup_rev in H. rewrite <- (rev_involutive (mapKeys m ++ [k])%list).
  apply NoDup_rev. rewrite rev_app_distr. cbn. constructor; [|exact H].
  now rewrite <- in_rev.
Qed.

Lemma In_mapSet {V : Type} (m : dict V) (k k' : string) (v w : V) :
  In (k', w) (mapSet m k v) -> (k' = k /\ w = v) \/ In (k', w) m.
Proof.
  induction m as [|[k0 u] m IH]; cbn.
  - intros [H | []]. injection H as <- <-. now left.
  - destruct (String.eqb k0 k) eqn:E; cbn.
    + apply String.eqb_eq in E. subst k0.
      intros [H | H]; [injection H as <- <-; now left | now right; right].
    + intros [H | H]; [now right; left|].
      destruct (IH H) as [H' | H']; [now left | now right; right].
Qed.

(** ** The collapser *)

Lemma dedupState_snoc (l : list CSVRow) (row : CSVRow) :
  dedupState (l ++ [row]) = dedupStep (dedupState l) row.
Proof. unfold dedupState. now rewrite fold_left_app. Qed.

Lemma collapse_None (c : string) (group : list CSVRow) :
  collapse c group = None <-> group = [].
Proof. destruct group; cbn; split; intros H; try reflexivity; discriminate H. Qed.

Lemma collapse_snoc (c : string) (group : list CSVRow) (row rec : CSVRow) :
  collapse c group = Some rec ->
  collapse c (group ++ [row]) =
  Some (mkRow (symbols rec) (js_add (vmsize rec) (vmsize row))
          (js_add (instantiations rec)
             (js_add (nullish (instantiations row) (VNum 0)) (VNum 1)))).
Proof.
  destruct group as [|first rest]; cbn; [discriminate|].
  intros H. injection H as <-. cbn. now rewrite !fold_left_app.
Qed.

Lemma filter_snoc {A : Type} (f : A -> bool) (l : list A) (x : A) :
  filter f (l ++ [x]) = (filter f l ++ (if f x then [x] else []))%list.
Proof. rewrite filter_app. cbn. now destruct (f x). Qed.

(** The state of the dedup loop after the rows [l]: under every canonical
    name met so far the collapsed record of its rows, each record filed
    under its own name, no name twice. *)
Lemma dedupState_spec (l : list CSVRow) :
  Forall (fun row => renamed row = true) l ->
  (forall c, mapGet (dedupState l) c = collapse c (filter (stripsTo c) l))
  /\ (forall k rec, In (k, rec) (dedupState l) -> textOf (symbols rec) = k)
  /\ NoDup (mapKeys (dedupState l)).
Proof.
  induction l as [|row l IH] using rev_ind; intros Hren.
  - repeat split; [intros k rec [] | constructor].
  - apply Forall_app in Hren as [Hl Hrow]. apply Forall_inv in Hrow.
    destruct (IH Hl) as (Hget & Hkey & Hnd). clear IH.
    rewrite dedupState_snoc. unfold dedupStep.
    set (n := canonicalName (textOf (symbols row))) in *.
    assert (Hgrp : forall c, filter (stripsTo c) (l ++ [row]) =
              (filter (stripsTo c) l ++ (if String.eqb n c then [row] else []))%list).
    { intros c. rewrite filter_snoc. reflexivity. }
    destruct (mapGet (dedupState l) n) as [existing|] eqn:En.
    + repeat split.
      * intros c. rewrite Hgrp. destruct (String.eqb n c) eqn:Ec.
        -- apply String.eqb_eq in Ec. subst c. rewrite mapGet_mapSet_same.
           symmetry. apply collapse_snoc. now rewrite <- Hget.
        -- apply String.eqb_neq in Ec. rewrite mapGet_mapSet_other by exact Ec.
           rewrite app_nil_r. apply Hget.
      * intros k rec Hin. apply In_mapSet in Hin as [[-> ->] | Hin]; [|now apply Hkey].
        cbn. rewrite Hget in En. destruct (filter (stripsTo n) l); cbn in En;
          [discriminate|]. now injection En as <-.
      * now apply mapSet_NoDup.
    + assert (Hname : (if negb (String.eqb n "_" &&
                                negb (String.eqb n (textOf (symbols row))))
                       then VStr n else symbols row) = VStr n).
      { unfold renamed in Hrow. fold n in Hrow.
        destruct (String.eqb n "_"); cbn in *; [|reflexivity].
        now rewrite Hrow. }
      rewrite Hname. cbn [textOf]. repeat split.
      * intros c. rewrite Hgrp. destruct (String.eqb n c) eqn:Ec.
        -- apply String.eqb_eq in Ec. subst c. rewrite mapGet_mapSet_same.
           rewrite Hget in En. apply collapse_None in En. now rewrite En.
        -- apply String.eqb_neq in Ec. rewrite mapGet_mapSet_other by exact Ec.
           rewrite app_nil_r. apply Hget.
      * intros k rec Hin. apply In_mapSet in Hin as [[-> ->] | Hin]; [|now apply Hkey].
        reflexivity.
      * now apply mapSet_NoDup.
Qed.

Lemma filter_by_key (m : dict CSVRow) (c : string) :
  (forall k rec, In (k, rec) m -> textOf (symbols rec) = k) ->
  NoDup (mapKeys m) ->
  filter (fun rec => String.eqb (textOf (symbols rec)) c) (mapValues m) =
  match mapGet m c with Some rec => [rec] | None => [] end.
Proof.
  intros Hkey Hnd. induction m as [|[k rec] m IH]; cbn; [reflexivity|].
  inversion Hnd as [|? ? Hnotin Hnd']; subst.
  assert (Hk : textOf (symbols rec) = k) by (apply Hkey; now left).
  assert (IH' := IH (fun k' r H => Hkey k' r (or_intror H)) Hnd').
  rewrite Hk. destruct (String.eqb k c) eqn:E.
  - apply String.eqb_eq in E. subst c. unfold mapValues in IH'. rewrite IH'.
    apply mapGet_None_keys in Hnotin. now rewrite Hnotin.
  - exact IH'.
Qed.

(** C3, as stated, fails on its own example: the first row of a group opens
    the record with its own count and only the rows merged into it add one
    each, so the two rows collapse to [{"foo", 30, 1}], in whichever order
    the sort leaves them. *)
Lemma dedup_example_counterexample :
  ~ (exists localeCompare,
        dedup (normalize localeCompare
                 [ mkRow (VStr "foo__anon_1") (VNum 10) (VNum 0);
                   mkRow (VStr "foo__anon_2") (VNum 20) (VNum 0) ])
        = [ mkRow (VStr "foo") (VNum 30) (VNum 2) ]).
Proof. intros [lc H]. discriminate H. Qed.

(** C3, amended. For rows none of which strips to the bare ["_"] from a
    longer name, each group of rows that strip to the same canonical name
    leaves exactly one record under that name: its size is the sum of the
    group's sizes, and its instantiation count is the count of the group's
    first row plus, for every further row, that row's count plus one. The
    rows [{"foo__anon_1", 10, 0}] and [{"foo__anon_2", 20, 0}] collapse to
    the single record [{"foo", 30, 1}]. *)
Theorem dedup_groups (l : list CSVRow) (c : string) :
  Forall (fun row => renamed row = true) l ->
  filter (fun rec => String.eqb (textOf (symbols rec)) c) (dedup l) =
    match collapse c (filter (stripsTo c) l) with
    | Some rec => [rec]
    | None => []
    end
  /\ (forall localeCompare,
        dedup (normalize localeCompare
                 [ mkRow (VStr "foo__anon_1") (VNum 10) (VNum 0);
                   mkRow (VStr "foo__anon_2") (VNum 20) (VNum 0) ])
        = [ mkRow (VStr "foo") (VNum 30) (VNum 1) ]).
Proof.
  intros Hren. split; [|reflexivity].
  destruct (dedupState_spec l Hren) as (Hget & Hkey & Hnd).
  unfold dedup. fold (dedupState l).
  rewrite (filter_by_key _ c Hkey Hnd). now rewrite Hget.
Qed.

Lemma dedup_groups_witness :
  filter (fun rec => String.eqb (textOf (symbols rec)) "f")
    (dedup [ mkRow (VStr "f__anon_7") (VNum 9) (VNum 2);
             mkRow (VStr "g") (VNum 5) VUndefined;
             mkRow (VStr "f__struct_1") (VNum 4) (VNum 3);
             mkRow (VStr "f") (VNum 1) VNull ])
  = [ mkRow (VStr "f") (VNum 14) (VNum 7) ].
Proof.
  refine (proj1 (dedup_groups
            [ mkRow (VStr "f__anon_7") (VNum 9) (VNum 2);
              mkRow (VStr "g") (VNum 5) VUndefined;
              mkRow (VStr "f__struct_1") (VNum 4) (VNum 3);
              mkRow (VStr "f") (VNum 1) VNull ] "f" _)).
  repeat constructor.
Defined.

(** ** The normalizer *)

Lemma insertSorted_perm {A : Type} (cmp : A -> A -> jsval) (x : A) (l : list A) :
  Permutation (insertSorted cmp x l) (x :: l).
Proof.
  induction l as [|y l IH]; cbn.
  - apply Permutation_refl.
  - destruct (keepsOrder (cmp x y)).
    + apply Permutation_refl.
    + apply perm_trans with (y :: x :: l);
        [now apply perm_skip | apply perm_swap].
Qed.

Lemma sortBy_perm {A : Type} (cmp : A -> A -> jsval) (l : list A) :
  Permutation (sortBy cmp l) l.
Proof.
  induction l as [|x l IH]; cbn.
  - apply Permutation_refl.
  - apply perm_trans with (x :: sortBy cmp l);
      [apply insertSorted_perm | now apply perm_skip].
Qed.

Lemma insertSorted_sorted {A : Type} (cmp : A -> A -> jsval) (R : A -> A -> Prop)
  (x : A) (l : list A) :
  (forall a b c, R a b -> R b c -> R a c) ->
  (forall y, In y l -> keepsOrder (cmp x y) = true -> R x y) ->
  (forall y, In y l -> keepsOrder (cmp x y) = false -> R y x) ->
  StronglySorted R l -> StronglySorted R (insertSorted cmp x l).
Proof.
  intros Htrans Hle Hgt Hs. induction Hs as [|y l Hs IH Hall]; cbn.
  - constructor; constructor.
  - destruct (keepsOrder (cmp x y)) eqn:E.
    + assert (Rxy : R x y) by (apply Hle; [now left | exact E]).
      constructor; [now constructor|].
      constructor; [exact Rxy|].
      rewrite Forall_forall in *. intros z Hz. apply (Htrans _ y); auto.
    + assert (Ryx : R y x) by (apply Hgt; [now left | exact E]).
      constructor.
      * apply IH; intros z Hz; [apply Hle | apply Hgt]; now right.
      * rewrite Forall_forall in *. intros z Hz.
        apply (Permutation_in _ (insertSorted_perm cmp x l)) in Hz.
        destruct Hz as [<- | Hz]; auto.
Qed.

Lemma keepRow_spec (row : CSVRow) :
  keepRow row = true <->
  (exists s, symbols row = VStr s /\ s <> "")
  /\ (truthy (vmsize row) = false \/ isNumber (vmsize row) = true).
Proof.
  unfold keepRow. destruct row as [sym vm inst]; cbn. split.
  - intros H. destruct sym as [| |b| |z|s]; cbn in H;
      try (destruct b; discriminate H); try (destruct z; discriminate H);
      try discriminate H.
    destruct s as [|a s]; [discriminate H|]. cbn in H. split.
    + exists (String a s). split; [reflexivity | discriminate].
    + destruct (truthy vm); [right | now left].
      cbn in H. now destruct (isNumber vm).
  - intros [[s [-> Hs]] Hv]. destruct s as [|a s]; [contradiction|]. cbn.
    destruct Hv as [-> | ->]; [reflexivity|]. now rewrite orb_true_r.
Qed.

Section Normalize.

Variable localeCompare : string -> string -> Z.
Hypothesis localeCompare_antisym :
  forall a b, 0 < localeCompare a b -> localeCompare b a <= 0.
Hypothesis localeCompare_trans :
  forall a b c, localeCompare a b <= 0 -> localeCompare b c <= 0 ->
                localeCompare a c <= 0.

Lemma rowOrder_trans (a b c : CSVRow) :
  rowOrder localeCompare a b -> rowOrder localeCompare b c ->
  rowOrder localeCompare a c.
Proof.
  unfold rowOrder. intros [H1 | [H1 H1']] [H2 | [H2 H2']].
  - left. lia.
  - left. lia.
  - left. lia.
  - right. split; [lia|]. eapply localeCompare_trans; eauto.
Qed.

Lemma compareRows_numeric (a b : CSVRow) (x y : Z) :
  vmsize a = VNum x -> vmsize b = VNum y ->
  (keepsOrder (compareRows localeCompare a b) = true ->
   rowOrder localeCompare a b)
  /\ (keepsOrder (compareRows localeCompare a b) = false ->
      rowOrder localeCompare b a).
Proof.
  intros Ha Hb. unfold compareRows, rowOrder, sizeOf. rewrite Ha, Hb. cbn.
  destruct (y =? x) eqn:E; cbn.
  - apply Z.eqb_eq in E. subst y. split; intros H.
    + apply Z.leb_le in H. right. now split.
    + apply Z.leb_gt in H. right. split; [reflexivity|].
      now apply localeCompare_antisym.
  - apply Z.eqb_neq in E. split; intros H.
    + apply Z.leb_le in H. left. lia.
    + apply Z.leb_gt in H. left. lia.
Qed.

Lemma sortBy_numeric_sorted (l : list CSVRow) :
  (forall row, In row l -> exists z, vmsize row = VNum z) ->
  StronglySorted (rowOrder localeCompare) (sortBy (compareRows localeCompare) l).
Proof.
  induction l as [|x l IH]; intros Hnum; cbn.
  - constructor.
  - destruct (Hnum x (or_introl eq_refl)) as [zx Hx].
    assert (Hin : forall y, In y (sortBy (compareRows localeCompare) l) ->
              exists z, vmsize y = VNum z).
    { intros y Hy. apply Hnum. right.
      now apply (Permutation_in _ (sortBy_perm (compareRows localeCompare) l)). }
    apply insertSorted_sorted.
    + exact rowOrder_trans.
    + intros y Hy. destruct (Hin y Hy) as [zy Hzy].
      now apply (compareRows_numeric x y zx zy).
    + intros y Hy. destruct (Hin y Hy) as [zy Hzy].
      now apply (compareRows_numeric x y zx zy).
    + apply IH. intros row Hrow. apply Hnum. now right.
Qed.

(** C8, amended. The normalizer keeps exactly the rows whose [symbols] is
    a non-empty text and whose [vmsize] is falsy (absent, empty, zero) or
    a number (a [vmsize] that is truthy and no number drops the row), and
    returns them all, reordered. When every kept row has a numeric size, the
    result is sorted descending by size, ties ascending by [localeCompare]
    of the names; the rows [{"b",100,0}] and [{"a",100,0}] come out as [a]
    then [b] as soon as the collation puts ["a"] first. *)
Theorem normalize_spec (data : list CSVRow) :
  Permutation (normalize localeCompare data) (filter keepRow data)
  /\ (forall row, In row (normalize localeCompare data) <->
                  In row data /\ keepRow row = true)
  /\ (forall row, keepRow row = true <->
        (exists s, symbols row = VStr s /\ s <> "")
        /\ (truthy (vmsize row) = false \/ isNumber (vmsize row) = true))
  /\ ((forall row, In row data -> keepRow row = true ->
                   exists z, vmsize row = VNum z) ->
      StronglySorted (rowOrder localeCompare) (normalize localeCompare data))
  /\ (0 < localeCompare "b" "a" ->
      normalize localeCompare
        [ mkRow (VStr "b") (VNum 100) (VNum 0);
          mkRow (VStr "a") (VNum 100) (VNum 0) ]
      = [ mkRow (VStr "a") (VNum 100) (VNum 0);
          mkRow (VStr "b") (VNum 100) (VNum 0) ]).
Proof.
  assert (Hperm : Permutation (normalize localeCompare data) (filter keepRow data))
    by apply sortBy_perm.
  split; [exact Hperm|]. split; [|split; [|split]].
  - intros row. rewrite <- filter_In. split; intros H.
    + now apply (Permutation_in _ Hperm).
    + now apply (Permutation_in _ (Permutation_sym Hperm)).
  - exact keepRow_spec.
  - intros Hnum. apply sortBy_numeric_sorted. intros row Hrow.
    apply filter_In in Hrow as [Hin Hkeep]. now apply Hnum.
  - intros Hb. cbn. apply Z.leb_gt in Hb. now rewrite Hb.
Qed.

End Normalize.

Lemma codeUnitCompare_antisym (a b : string) :
  0 < codeUnitCompare a b -> codeUnitCompare b a <= 0.
Proof.
  unfold codeUnitCompare. rewrite (String.compare_antisym a b).
  destruct (String.compare b a); cbn; lia.
Qed.

Lemma ascii_compare_N (a b : ascii) :
  Ascii.compare a b = N.compare (N_of_ascii a) (N_of_ascii b).
Proof. reflexivity. Qed.

Lemma string_compare_le_trans (a b c : string) :
  String.compare a b <> Gt -> String.compare b c <> Gt ->
  String.compare a c <> Gt.
Proof.
  revert b c. induction a as [|x a IH]; intros [|y b] [|z c]; cbn;
    try congruence.
  rewrite !ascii_compare_N.
  destruct (N.compare_spec (N_of_ascii x) (N_of_ascii y)) as [Hxy | Hxy | Hxy];
    destruct (N.compare_spec (N_of_ascii y) (N_of_ascii z)) as [Hyz | Hyz | Hyz];
    try congruence; intros H1 H2.
  - rewrite Hxy, Hyz, N.compare_refl. now apply (IH b).
  - rewrite Hxy. apply N.compare_lt_iff in Hyz. now rewrite Hyz.
  - rewrite <- Hyz. apply N.compare_lt_iff in Hxy. now rewrite Hxy.
  - assert (H : (N_of_ascii x < N_of_ascii z)%N) by lia.
    apply N.compare_lt_iff in H. now rewrite H.
Qed.

Lemma codeUnitCompare_trans (a b c : string) :
  codeUnitCompare a b <= 0 -> codeUnitCompare b c <= 0 ->
  codeUnitCompare a c <= 0.
Proof.
  unfold codeUnitCompare. intros H1 H2.
  assert (H : String.compare a c <> Gt).
  { apply (string_compare_le_trans a b c).
    - destruct (String.compare a b); [discriminate | discriminate | lia].
    - destruct (String.compare b c); [discriminate | discriminate | lia]. }
  destruct (String.compare a c); [lia | lia | congruence].
Qed.

(** C8, as stated, fails: a row with an empty size cell ([null]) and a row
    of size [0] are both kept and both zero-like, the comparator finds them
    neither identical in size nor different in number, so the name never
    breaks their tie and ["b"] stays before ["a"]. *)
Lemma normalize_tie_counterexample :
  ~ (forall data,
        StronglySorted (rowOrder codeUnitCompare) (normalize codeUnitCompare data)).
Proof.
  intros H.
  specialize (H [ mkRow (VStr "b") VNull (VNum 0);
                  mkRow (VStr "a") (VNum 0) (VNum 0) ]).
  cbn in H. inversion H as [|? ? _ Hall]; subst.
  apply Forall_inv in Hall. unfold rowOrder, sizeOf in Hall. cbn in Hall.
  destruct Hall as [Hlt | [_ Hle]]; [lia|].
  vm_compute in Hle. now apply Hle.
Qed.

Lemma normalize_spec_witness :
  StronglySorted (rowOrder codeUnitCompare)
    (normalize codeUnitCompare
       [ mkRow (VStr "z") (VNum 3) (VNum 0);
         mkRow (VStr "dropped") (VStr "n/a") (VNum 0);
         mkRow (VStr "b") (VNum 100) (VNum 0);
         mkRow VNull (VNum 500) (VNum 0);
         mkRow (VStr "a") (VNum 100) (VNum 0) ])
  /\ normalize codeUnitCompare
       [ mkRow (VStr "b") (VNum 100) (VNum 0);
         mkRow (VStr "a") (VNum 100) (VNum 0) ]
     = [ mkRow (VStr "a") (VNum 100) (VNum 0);
         mkRow (VStr "b") (VNum 100) (VNum 0) ].
Proof.
  destruct (normalize_spec codeUnitCompare codeUnitCompare_antisym
              codeUnitCompare_trans
              [ mkRow (VStr "z") (VNum 3) (VNum 0);
                mkRow (VStr "dropped") (VStr "n/a") (VNum 0);
                mkRow (VStr "b") (VNum 100) (VNum 0);
                mkRow VNull (VNum 500) (VNum 0);
                mkRow (VStr "a") (VNum 100) (VNum 0) ])
    as (_ & _ & _ & Hsorted & Hab).
  split.
  - apply Hsorted. intros row Hin Hkeep. cbn in Hin.
    destruct Hin as [<- | [<- | [<- | [<- | [<- | []]]]]];
      try discriminate Hkeep; eexists; reflexivity.
  - apply Hab. reflexivity.
Defined.

(** ** Induction on the hierarchy *)

Lemma TreeNode_induction (P : TreeNode -> Prop) :
  (forall nm sz kids fp os inst,
      Forall (fun kc : string * TreeNode => P (snd kc)) kids ->
      P (mkNode nm sz kids fp os inst)) ->
  forall n, P n.
Proof.
  intros step.
  fix IH 1. intros [nm sz kids fp os inst]. apply step.
  induction kids as [|[k c] kids IHkids].
  - constructor.
  - constructor; [apply IH | exact IHkids].
Qed.

Lemma mapGet_In {V : Type} (m : dict V) (k : string) (v : V) :
  mapGet m k = Some v -> In (k, v) m.
Proof.
  induction m as [|[k' w] m IH]; cbn; [discriminate|].
  destruct (String.eqb k' k) eqn:E.
  - apply String.eqb_eq in E. subst k'. intros H. injection H as <-. now left.
  - intros H. right. now apply IH.
Qed.

Lemma mapSet_absent {V : Type} (m : dict V) (k : string) (v : V) :
  mapGet m k = None -> mapSet m k v = (m ++ [(k, v)])%list.
Proof.
  induction m as [|[k' w] m IH]; cbn; [reflexivity|].
  destruct (String.eqb k' k); [discriminate|].
  intros H. now rewrite IH.
Qed.

Lemma mapGet_app_None {V : Type} (m m' : dict V) (k : string) :
  mapGet m k = None -> mapGet (m ++ m')%list k = mapGet m' k.
Proof.
  induction m as [|[k' w] m IH]; cbn; [reflexivity|].
  destruct (String.eqb k' k); [discriminate | exact IH].
Qed.

Lemma mapGet_map {V W : Type} (f : V -> W) (m : dict V) (k : string) :
  mapGet (map (fun kc : string * V => (fst kc, f (snd kc))) m) k =
  option_map f (mapGet m k).
Proof.
  induction m as [|[k' w] m IH]; cbn; [reflexivity|].
  destruct (String.eqb k' k); [reflexivity | exact IH].
Qed.

Lemma noDupKeys_NoDup (keys : list string) :
  noDupKeys keys = true -> NoDup keys.
Proof.
  induction keys as [|k keys IH]; cbn; intros H; constructor.
  - apply andb_true_iff in H as [H _]. apply negb_true_iff in H.
    intros Hin. assert (Hex : existsb (String.eqb k) keys = true).
    { apply existsb_exists. exists k. split; [exact Hin | apply String.eqb_refl]. }
    congruence.
  - apply IH. now apply andb_true_iff in H as [_ H].
Qed.

(** ** The variant merger *)

Lemma name_transformNode groups n : name (transformNode groups n) = name n.
Proof. now destruct n. Qed.

(** On a well-keyed node the loop that fills [transformedChildren] files
    every transformed child under the key its original had. *)
Lemma transformedChildren_spec groups (kids : dict TreeNode) (acc : dict TreeNode) :
  Forall (fun kc : string * TreeNode =>
            fst kc = name (snd kc) /\ fst kc <> "__proto__") kids ->
  NoDup (mapKeys kids) ->
  (forall k, In k (mapKeys kids) -> mapGet acc k = None) ->
  fold_left (fun acc (kc : string * TreeNode) =>
               let '(_, child) := kc in
               let result := transformNode groups child in
               setProp acc (name result) result)
            kids acc
  = (acc ++ map (fun kc : string * TreeNode =>
                   (fst kc, transformNode groups (snd kc))) kids)%list.
Proof.
  revert acc. induction kids as [|[k c] kids IH]; intros acc Hkeys Hnd Hfresh; cbn.
  - now rewrite app_nil_r.
  - apply Forall_cons_iff in Hkeys as [[Hk Hproto] Hkeys']. cbn in Hk, Hproto.
    cbn in Hnd. apply NoDup_cons_iff in Hnd as [Hnotin Hnd'].
    rewrite name_transformNode, <- Hk. unfold setProp.
    destruct (String.eqb k "__proto__") eqn:E;
      [apply String.eqb_eq in E; contradiction|].
    rewrite mapSet_absent by (apply Hfresh; now left).
    rewrite IH; [now rewrite <- app_assoc | exact Hkeys' | exact Hnd' |].
    intros k' Hk'. rewrite mapGet_app_None by (apply Hfresh; now right).
    cbn. destruct (String.eqb k k') eqn:E'; [|reflexivity].
    apply String.eqb_eq in E'. subst k'. contradiction.
Qed.

Lemma wellKeyed_children (n : TreeNode) :
  wellKeyed n = true ->
  Forall (fun kc : string * TreeNode =>
            fst kc = name (snd kc) /\ fst kc <> "__proto__"
            /\ wellKeyed (snd kc) = true) (children n)
  /\ NoDup (mapKeys (children n)).
Proof.
  destruct n as [nm sz kids fp os inst]. cbn. intros H.
  apply andb_true_iff in H as [Hall Hnd]. split; [|now apply noDupKeys_NoDup].
  rewrite forallb_forall in Hall. apply Forall_forall. intros [k c] Hin.
  specialize (Hall _ Hin). cbn in Hall.
  apply andb_true_iff in Hall as [Hall Hwk].
  apply andb_true_iff in Hall as [Hk Hp].
  apply String.eqb_eq in Hk. apply negb_true_iff in Hp.
  apply String.eqb_neq in Hp. cbn. auto.
Qed.

Lemma children_transformNode groups (n : TreeNode) :
  wellKeyed n = true ->
  children (transformNode groups n) =
  map (fun kc : string * TreeNode => (fst kc, transformNode groups (snd kc)))
      (children n).
Proof.
  intros Hwk. destruct (wellKeyed_children n Hwk) as [Hall Hnd].
  destruct n as [nm sz kids fp os inst]. cbn in *.
  rewrite transformedChildren_spec; [reflexivity | | exact Hnd | reflexivity].
  eapply Forall_impl; [|exact Hall]. cbn. tauto.
Qed.

Lemma mapKeys_map {V W : Type} (f : V -> W) (m : dict V) :
  mapKeys (map (fun kc : string * V => (fst kc, f (snd kc))) m) = mapKeys m.
Proof. unfold mapKeys. rewrite map_map. now apply map_ext. Qed.

Lemma addLeaf_populated groups n :
  populated groups -> populated (addLeaf groups n).
Proof.
  intros Hp. unfold addLeaf.
  destruct (negb (String.eqb (leafBaseName (name n)) "")); [|exact Hp].
  intros k group Hin. apply In_mapSet in Hin as [[-> ->] | Hin]; [|now apply (Hp k)].
  cbn. destruct (mapGet groups (leafBaseName (name n))) as [g|] eqn:E.
  - apply mapGet_In in E. apply Hp in E. lia.
  - cbn. lia.
Qed.

Lemma processNode_populated n :
  forall groups, populated groups -> populated (processNode groups n).
Proof.
  induction n as [nm sz kids fp os inst IH] using TreeNode_induction.
  intros groups Hp. cbn.
  assert (Hstart : populated
            match kids with
            | [] => addLeaf groups (mkNode nm sz kids fp os inst)
            | _ :: _ => groups
            end).
  { destruct kids; [now apply addLeaf_populated | exact Hp]. }
  revert Hstart.
  generalize (match kids with
              | [] => addLeaf groups (mkNode nm sz kids fp os inst)
              | _ :: _ => groups
              end) as start.
  clear Hp. induction IH as [|[k c] kids' Hc _ IHkids]; intros start Hstart; cbn.
  - exact Hstart.
  - apply IHkids. now apply Hc.
Qed.

Lemma collectGroups_populated (symbols : list TreeNode) :
  populated (collectGroups symbols).
Proof.
  unfold collectGroups.
  assert (H : forall start, populated start ->
            populated (fold_left processNode symbols start)).
  { induction symbols as [|n symbols IH]; intros start Hs; cbn; [exact Hs|].
    apply IH. now apply processNode_populated. }
  apply H. intros k group [].
Qed.

Lemma annotate_populated groups (key : string) (old : jsval) :
  populated groups ->
  annotate (mapGet groups key) old =
  match mapGet groups key with
  | Some group => VNum (count group)
  | None => old
  end.
Proof.
  intros Hp. destruct (mapGet groups key) as [g|] eqn:E; [|reflexivity].
  apply mapGet_In in E. apply Hp in E. unfold annotate, js_or. cbn.
  destruct (count g =? 0) eqn:Ez; [apply Z.eqb_eq in Ez; lia | reflexivity].
Qed.

(** The frame of [transformNode] at one position. *)
Lemma transformNode_frame groups (path : list string) :
  populated groups ->
  forall n, wellKeyed n = true ->
  match nodeAt n path with
  | Some node =>
      exists node',
        nodeAt (transformNode groups n) path = Some node'
        /\ name node' = name node
        /\ size node' = size node
        /\ fullPath node' = fullPath node
        /\ originalSymbol node' = originalSymbol node
        /\ mapKeys (children node') = mapKeys (children node)
        /\ node_instantiations node' =
           match mapGet groups (nodeBaseName (name node)) with
           | Some group => VNum (count group)
           | None => node_instantiations node
           end
  | None => nodeAt (transformNode groups n) path = None
  end.
Proof.
  intros Hp. induction path as [|key path IH]; intros n Hwk.
  - cbn [nodeAt]. exists (transformNode groups n). split; [reflexivity|].
    assert (Hkids := children_transformNode groups n Hwk).
    repeat split; try (now destruct n).
    + rewrite Hkids. apply mapKeys_map.
    + destruct n as [nm sz kids fp os inst]. cbn [transformNode node_instantiations name].
      now apply annotate_populated.
  - cbn [nodeAt]. rewrite (children_transformNode groups n Hwk), mapGet_map.
    destruct (mapGet (children n) key) as [child|] eqn:E; cbn [option_map];
      [|reflexivity].
    apply IH. destruct (wellKeyed_children n Hwk) as [Hall _].
    rewrite Forall_forall in Hall. apply mapGet_In in E.
    now apply (Hall _ E).
Qed.

(** C9. The merge pass keeps every tree of its input and, in a tree of the
    data model (children filed under their own names), every position: the
    node found along a path in the output has the name, the size, the path
    key, the original name and the child keys of the node found along the
    same path in the input, no position appears or disappears, and its
    instantiation count is the member count of the group its stripped name
    matches, if there is one, and its old count otherwise. *)
Theorem mergeInstantiations_frame (symbols : list TreeNode) (tree : TreeNode)
  (path : list string) :
  In tree symbols -> wellKeyed tree = true ->
  List.length (mergeInstantiations symbols) = List.length symbols
  /\ In (transformNode (collectGroups symbols) tree) (mergeInstantiations symbols)
  /\ match nodeAt tree path with
     | Some node =>
         exists node',
           nodeAt (transformNode (collectGroups symbols) tree) path = Some node'
           /\ name node' = name node
           /\ size node' = size node
           /\ fullPath node' = fullPath node
           /\ originalSymbol node' = originalSymbol node
           /\ mapKeys (children node') = mapKeys (children node)
           /\ node_instantiations node' =
              match mapGet (collectGroups symbols) (nodeBaseName (name node)) with
              | Some group => VNum (count group)
              | None => node_instantiations node
              end
     | None => nodeAt (transformNode (collectGroups symbols) tree) path = None
     end.
Proof.
  intros Hin Hwk. unfold mergeInstantiations. split; [apply length_map|].
  split; [now apply in_map|].
  apply transformNode_frame; [apply collectGroups_populated | exact Hwk].
Qed.

Lemma mergeInstantiations_frame_witness :
  exists node',
    nodeAt (transformNode (collectGroups [sampleHierarchy]) sampleHierarchy)
           ["x"; "foo"] = Some node'
    /\ name node' = "foo"
    /\ size node' = VNum 10
    /\ fullPath node' = VStr "x::foo"
    /\ originalSymbol node' = VStr "x.foo"
    /\ mapKeys (children node') = []
    /\ node_instantiations node' = VNum 2.
Proof.
  exact (proj2 (proj2 (mergeInstantiations_frame [sampleHierarchy] sampleHierarchy
                         ["x"; "foo"] (or_introl eq_refl) eq_refl))).
Defined.

(** ** The tree builder *)

Lemma insertParts_cons (part : string) (rest : list string) (path : string)
  (symbol : CSVRow) (current : TreeNode) :
  isEmpty part = false ->
  insertParts (part :: rest) path symbol current =
  match mapGet (children current) part with
  | Some child =>
      setChild current part
        (insertParts rest (extendPath path part) symbol (arrive rest symbol child))
  | None =>
      if inherited part then current
      else setChild current part
             (insertParts rest (extendPath path part) symbol
                (arrive rest symbol (newNode part (extendPath path part) symbol)))
  end.
Proof.
  intros Hne. cbn [insertParts]. rewrite Hne. unfold getChild.
  destruct (mapGet (children current) part); [reflexivity|].
  now destruct (inherited part).
Qed.

Lemma forallb_mapSet {V : Type} (P : string * V -> bool) (m : dict V)
  (k : string) (v : V) :
  forallb P m = true -> P (k, v) = true -> forallb P (mapSet m k v) = true.
Proof.
  intros Hm Hv. induction m as [|[k' w] m IH]; cbn in *.
  - now rewrite Hv.
  - apply andb_true_iff in Hm as [Hw Hm].
    destruct (String.eqb k' k) eqn:E; cbn.
    + apply String.eqb_eq in E. subst k'. now rewrite Hv, Hm.
    + now rewrite Hw, IH.
Qed.

Lemma forallb_mapGet {V : Type} (P : string * V -> bool) (m : dict V)
  (k : string) (v : V) :
  forallb P m = true -> mapGet m k = Some v -> P (k, v) = true.
Proof.
  intros Hm Hget. apply mapGet_In in Hget.
  rewrite forallb_forall in Hm. now apply Hm.
Qed.

Lemma ownKeysOnly_child (n : TreeNode) (k : string) (child : TreeNode) :
  ownKeysOnly n = true -> mapGet (children n) k = Some child ->
  inherited k = false /\ ownKeysOnly child = true.
Proof.
  destruct n as [nm sz kids fp os inst]. cbn. intros Hn Hget.
  pose proof (forallb_mapGet _ _ _ _ Hn Hget) as H. cbn in H.
  apply andb_true_iff in H as [H1 H2]. now apply negb_true_iff in H1.
Qed.

Lemma ownKeysOnly_setChild (n : TreeNode) (k : string) (child : TreeNode) :
  ownKeysOnly n = true -> inherited k = false -> ownKeysOnly child = true ->
  ownKeysOnly (setChild n k child) = true.
Proof.
  destruct n as [nm sz kids fp os inst]. cbn. intros Hn Hk Hc.
  apply forallb_mapSet; [exact Hn|]. cbn. now rewrite Hk, Hc.
Qed.

Lemma ownKeysOnly_arrive rest symbol child :
  ownKeysOnly child = true -> ownKeysOnly (arrive rest symbol child) = true.
Proof. destruct rest, child; cbn; auto. Qed.

(** The builder never files a node under an inherited name. *)
Lemma insertParts_ownKeysOnly (parts : list string) :
  forall path symbol current,
    ownKeysOnly current = true ->
    ownKeysOnly (insertParts parts path symbol current) = true.
Proof.
  induction parts as [|part rest IH]; intros path symbol current Hc.
  - exact Hc.
  - destruct (isEmpty part) eqn:Hne.
    + cbn [insertParts]. rewrite Hne. now apply IH.
    + rewrite insertParts_cons by exact Hne.
      destruct (mapGet (children current) part) as [child|] eqn:E.
      * destruct (ownKeysOnly_child _ _ _ Hc E) as [Hk Hchild].
        apply ownKeysOnly_setChild; auto.
        apply IH. now apply ownKeysOnly_arrive.
      * destruct (inherited part) eqn:Hk; [exact Hc|].
        apply ownKeysOnly_setChild; auto.
        apply IH. now apply ownKeysOnly_arrive.
Qed.

Lemma ownTotal_unfold (n : TreeNode) :
  ownTotal n =
  sizeZ (size n) + sumZ (map (fun kc : string * TreeNode => ownTotal (snd kc))
                             (children n)).
Proof.
  destruct n as [nm sz kids fp os inst]. cbn. f_equal. f_equal.
  apply map_ext. now intros [k c].
Qed.

Lemma sumZ_mapSet {V : Type} (g : V -> Z) (m : dict V) (k : string) (v : V) :
  sumZ (map (fun kc : string * V => g (snd kc)) (mapSet m k v)) =
  sumZ (map (fun kc : string * V => g (snd kc)) m)
  - match mapGet m k with Some old => g old | None => 0 end
  + g v.
Proof.
  unfold sumZ. induction m as [|[k' w] m IH]; cbn.
  - lia.
  - destruct (String.eqb k' k); cbn; [lia|]. rewrite IH. lia.
Qed.

Lemma numericTree_unfold (n : TreeNode) :
  numericTree n =
  isNum (size n)
  && forallb (fun kc : string * TreeNode => numericTree (snd kc)) (children n).
Proof.
  destruct n as [nm sz kids fp os inst]. cbn. f_equal.
  induction kids as [|[k c] kids IH]; cbn; [reflexivity | now rewrite IH].
Qed.

Lemma js_add_num (a b : Z) : js_add (VNum a) (VNum b) = VNum (a + b).
Proof. reflexivity. Qed.

Lemma arrive_total rest symbol child (z : Z) :
  vmsize symbol = VNum z -> numericTree child = true ->
  numericTree (arrive rest symbol child) = true
  /\ ownTotal (arrive rest symbol child) =
     ownTotal child + (if isEmpty_list rest then z else 0).
Proof.
  intros Hz Hc. destruct rest; cbn [arrive isEmpty_list]; [|split; [exact Hc | lia]].
  rewrite numericTree_unfold in *. rewrite !ownTotal_unfold.
  apply andb_true_iff in Hc as [Hs Hk].
  destruct child as [nm sz kids fp os inst]. cbn in *.
  destruct sz; try discriminate Hs. rewrite Hz. cbn. rewrite Hk.
  split; [reflexivity | lia].
Qed.

Lemma setChild_total (n : TreeNode) (k : string) (child : TreeNode) :
  numericTree n = true -> numericTree child = true ->
  numericTree (setChild n k child) = true
  /\ ownTotal (setChild n k child) =
     ownTotal n
     - match mapGet (children n) k with Some old => ownTotal old | None => 0 end
     + ownTotal child.
Proof.
  intros Hn Hc. split.
  - rewrite numericTree_unfold in Hn |- *.
    apply andb_true_iff in Hn as [Hs Hk].
    destruct n as [nm sz kids fp os inst]. cbn in *. rewrite Hs. cbn.
    apply forallb_mapSet; [exact Hk | exact Hc].
  - rewrite (ownTotal_unfold (setChild n k child)), (ownTotal_unfold n).
    destruct n as [nm sz kids fp os inst]. cbn [setChild children size].
    rewrite (sumZ_mapSet ownTotal). lia.
Qed.

Lemma numericTree_child (n : TreeNode) (k : string) (child : TreeNode) :
  numericTree n = true -> mapGet (children n) k = Some child ->
  numericTree child = true.
Proof.
  rewrite numericTree_unfold. intros Hn Hget.
  apply andb_true_iff in Hn as [_ Hk].
  exact (forallb_mapGet _ _ _ _ Hk Hget).
Qed.

(** One record adds its size to the hierarchy exactly when its walk has a
    part to go to and stays on own properties. *)
Lemma insertParts_total (parts : list string) (z : Z) :
  forallb nonEmpty parts = true ->
  forall path symbol current,
    vmsize symbol = VNum z ->
    numericTree current = true -> ownKeysOnly current = true ->
    numericTree (insertParts parts path symbol current) = true
    /\ ownTotal (insertParts parts path symbol current) =
       ownTotal current
       + (if negb (isEmpty_list parts) && stays parts then z else 0).
Proof.
  induction parts as [|part rest IH]; intros Hne path symbol current Hz Hnum Hown.
  - cbn. split; [exact Hnum | lia].
  - cbn [forallb] in Hne. apply andb_true_iff in Hne as [Hpart Hrest].
    unfold nonEmpty in Hpart. apply negb_true_iff in Hpart.
    rewrite insertParts_cons by exact Hpart.
    cbn [isEmpty_list negb andb stays forallb].
    assert (Hgo : forall child,
              numericTree child = true -> ownKeysOnly child = true ->
              numericTree (insertParts rest (extendPath path part) symbol
                             (arrive rest symbol child)) = true
              /\ ownTotal (insertParts rest (extendPath path part) symbol
                             (arrive rest symbol child)) =
                 ownTotal child + (if stays rest then z else 0)).
    { intros child Hcn Hco.
      destruct (arrive_total rest symbol child z Hz Hcn) as [Han Hat].
      destruct (IH Hrest (extendPath path part) symbol (arrive rest symbol child)
                  Hz Han (ownKeysOnly_arrive _ _ _ Hco)) as [Hin Hit].
      split; [exact Hin|]. rewrite Hit, Hat.
      destruct rest; cbn [isEmpty_list negb andb stays forallb]; lia. }
    destruct (mapGet (children current) part) as [child|] eqn:E.
    + destruct (ownKeysOnly_child _ _ _ Hown E) as [Hk Hco].
      destruct (Hgo child (numericTree_child _ _ _ Hnum E) Hco) as [Hin Hit].
      destruct (setChild_total current part _ Hnum Hin) as [Hsn Hst].
      split; [exact Hsn|]. rewrite Hst, E, Hit, Hk. cbn [negb andb].
      fold (stays rest). destruct (stays rest); lia.
    + destruct (inherited part) eqn:Hk; [cbn [negb andb]; split; [exact Hnum | lia]|].
      destruct (Hgo (newNode part (extendPath path part) symbol) eq_refl eq_refl)
        as [Hin Hit].
      destruct (setChild_total current part _ Hnum Hin) as [Hsn Hst].
      split; [exact Hsn|]. rewrite Hst, E, Hit. cbn [negb andb].
      fold (stays rest). change (ownTotal (newNode part (extendPath path part) symbol)) with 0.
      destruct (stays rest); lia.
Qed.

(** ** The aggregation pass *)

Lemma js_or_num (z : Z) : js_or (VNum z) (VNum 0) = VNum z.
Proof.
  unfold js_or. cbn. destruct (z =? 0) eqn:E; [|reflexivity].
  apply Z.eqb_eq in E. now subst.
Qed.

Lemma calculateTotalSize_unfold (n : TreeNode) :
  calculateTotalSize n =
  let kids := map (fun kc : string * TreeNode =>
                     (fst kc, calculateTotalSize (snd kc))) (children n) in
  mkNode (name n)
    (js_add (js_or (size n) (VNum 0))
       (fold_left (fun sum child => js_add sum (js_or (size child) (VNum 0)))
                  (mapValues kids) (VNum 0)))
    kids (fullPath n) (originalSymbol n) (node_instantiations n).
Proof.
  destruct n as [nm sz kids fp os inst]. cbn.
  assert (E : map (fun kc : string * TreeNode =>
                     let '(k, child) := kc in (k, calculateTotalSize child)) kids
              = map (fun kc : string * TreeNode =>
                       (fst kc, calculateTotalSize (snd kc))) kids).
  { apply map_ext. now intros [k c]. }
  now rewrite E.
Qed.

Lemma children_sum (kids : dict TreeNode) (a : Z) :
  Forall (fun kc : string * TreeNode =>
            size (calculateTotalSize (snd kc)) = VNum (ownTotal (snd kc))) kids ->
  fold_left (fun sum child => js_add sum (js_or (size child) (VNum 0)))
    (mapValues (map (fun kc : string * TreeNode =>
                       (fst kc, calculateTotalSize (snd kc))) kids))
    (VNum a)
  = VNum (a + sumZ (map (fun kc : string * TreeNode => ownTotal (snd kc)) kids)).
Proof.
  revert a. induction kids as [|[k c] kids IH]; intros a Hall; cbn.
  - f_equal. lia.
  - apply Forall_cons_iff in Hall as [Hc Hall]. cbn in Hc.
    rewrite Hc, js_or_num, js_add_num, IH by exact Hall.
    f_equal. unfold sumZ. cbn. lia.
Qed.

(** After the pass a node's size is the sum of the sizes recorded below. *)
Lemma calculateTotalSize_size (n : TreeNode) :
  numericTree n = true -> size (calculateTotalSize n) = VNum (ownTotal n).
Proof.
  induction n as [nm sz kids fp os inst IH] using TreeNode_induction.
  intros Hnum. rewrite calculateTotalSize_unfold, ownTotal_unfold.
  cbv zeta. cbn [size children].
  rewrite numericTree_unfold in Hnum. cbn [size children] in Hnum.
  apply andb_true_iff in Hnum as [Hs Hk].
  destruct sz; try discriminate Hs. cbn [sizeZ].
  rewrite children_sum, js_or_num, js_add_num; [f_equal; lia|].
  rewrite forallb_forall in Hk. rewrite Forall_forall in *.
  intros kc Hin. apply IH; [exact Hin | now apply Hk].
Qed.

Lemma nodeAt_calculateTotalSize (path : list string) :
  forall n, nodeAt (calculateTotalSize n) path =
            option_map calculateTotalSize (nodeAt n path).
Proof.
  induction path as [|key path IH]; intros n; [reflexivity|].
  cbn [nodeAt]. rewrite (calculateTotalSize_unfold n). cbn [children].
  rewrite mapGet_map. destruct (mapGet (children n) key); cbn; [apply IH | reflexivity].
Qed.

Lemma instAt_calculateTotalSize (n : TreeNode) (path : list string) :
  instAt (calculateTotalSize n) path = instAt n path.
Proof.
  unfold instAt. rewrite nodeAt_calculateTotalSize.
  destruct (nodeAt n path) as [m|]; [|reflexivity].
  cbn. now rewrite (calculateTotalSize_unfold m).
Qed.

(** ** From the rows to the hierarchy *)

Lemma forallb_filter {A : Type} (f : A -> bool) (l : list A) :
  forallb f (filter f l) = true.
Proof.
  induction l as [|x l IH]; cbn; [reflexivity|].
  destruct (f x) eqn:E; cbn; [now rewrite E | exact IH].
Qed.

Lemma filter_all {A : Type} (f : A -> bool) (l : list A) :
  forallb f l = true -> filter f l = l.
Proof.
  induction l as [|x l IH]; cbn; [reflexivity|].
  intros H. apply andb_true_iff in H as [Hx Hl]. now rewrite Hx, IH.
Qed.

(** [processSymbol] returns parts that are all non-empty, or the single
    empty part of a blank name. *)
Lemma splitSymbol_shape (s : string) :
  forallb nonEmpty (splitSymbol s) = true \/ splitSymbol s = [""].
Proof.
  unfold splitSymbol. destruct (startsWith s "[") eqn:Hb.
  - left. destruct s; [discriminate Hb | reflexivity].
  - destruct (includes s "."); [left; apply forallb_filter|].
    destruct (includes s "::"); [left; apply forallb_filter|].
    destruct (cleanName s); [now right | now left].
Qed.

Lemma insertParts_segments (s path : string) (symbol : CSVRow) (current : TreeNode) :
  insertParts (splitSymbol s) path symbol current =
  insertParts (segmentsOf (splitSymbol s)) path symbol current.
Proof.
  unfold segmentsOf. destruct (splitSymbol_shape s) as [H | H].
  - now rewrite filter_all.
  - now rewrite H.
Qed.

Lemma processSymbol_splitSymbol (fuel : nat) (s : string) (parts : list string) :
  processSymbol fuel s = Some parts -> exists rest, parts = splitSymbol rest.
Proof.
  unfold processSymbol. destruct (stripKeywords fuel s) as [rest|]; [|discriminate].
  intros H. injection H as <-. now exists rest.
Qed.

Lemma fold_insertSymbol_None (fuel : nat) (recs : list CSVRow) :
  fold_left (insertSymbol fuel) recs None = None.
Proof. induction recs as [|rec recs IH]; [reflexivity | exact IH]. Qed.

Lemma insertAll_returns (fuel : nat) (recs : list CSVRow) :
  (forall rec, In rec recs -> processSymbol fuel (textOf (symbols rec)) <> None) ->
  forall root0, exists root,
    fold_left (insertSymbol fuel) recs (Some root0) = Some root.
Proof.
  induction recs as [|rec recs IH]; intros Hall root0.
  - now exists root0.
  - cbn [fold_left]. unfold insertSymbol at 2.
    destruct (processSymbol fuel (textOf (symbols rec))) as [parts|] eqn:Hparts.
    + apply IH. intros r Hr. apply Hall. now right.
    + exfalso. apply (Hall rec); [now left | exact Hparts].
Qed.

Lemma filter_sum_snoc (f : CSVRow -> bool) (recs : list CSVRow) (rec : CSVRow) :
  sumZ (map sizeOf (filter f (recs ++ [rec]))) =
  sumZ (map sizeOf (filter f recs)) + (if f rec then sizeOf rec else 0).
Proof.
  rewrite filter_snoc, map_app. unfold sumZ. rewrite fold_right_app.
  destruct (f rec); cbn.
  - induction (map sizeOf (filter f recs)) as [|a l IH]; cbn; lia.
  - lia.
Qed.

(** The insertion loop over numeric records: the sizes recorded in the
    hierarchy grow by the sizes of the records that land in it. *)
Lemma insertAll_total (fuel : nat) (recs : list CSVRow) :
  forall root0 root,
    Forall (fun rec => numericRow rec = true) recs ->
    numericTree root0 = true -> ownKeysOnly root0 = true ->
    fold_left (insertSymbol fuel) recs (Some root0) = Some root ->
    numericTree root = true
    /\ ownTotal root =
       ownTotal root0 + sumZ (map sizeOf (filter (lands fuel) recs)).
Proof.
  induction recs as [|rec recs IH]; intros root0 root Hall Hnum Hown Hfold.
  - cbn in *. injection Hfold as <-. split; [exact Hnum | lia].
  - apply Forall_cons_iff in Hall as [Hrec Hall]. cbn [fold_left] in Hfold.
    unfold insertSymbol at 2 in Hfold.
    destruct (processSymbol fuel (textOf (symbols rec))) as [parts|] eqn:Hparts;
      [|rewrite fold_insertSymbol_None in Hfold; discriminate Hfold].
    destruct (processSymbol_splitSymbol _ _ _ Hparts) as [rest ->].
    rewrite insertParts_segments in Hfold.
    unfold numericRow in Hrec.
    destruct (vmsize rec) as [| | | |z|] eqn:Hz; try discriminate Hrec.
    destruct (insertParts_total (segmentsOf (splitSymbol rest)) z
                (forallb_filter _ _) "" rec root0 Hz Hnum Hown) as [Hn1 Ht1].
    destruct (IH _ root Hall Hn1 (insertParts_ownKeysOnly _ _ _ _ Hown) Hfold)
      as [Hn Ht].
    split; [exact Hn|]. rewrite Ht, Ht1. cbn [filter].
    unfold lands at 2. rewrite Hparts.
    assert (Hsize : sizeOf rec = z) by (unfold sizeOf; now rewrite Hz).
    destruct (negb (isEmpty_list (segmentsOf (splitSymbol rest)))
              && stays (segmentsOf (splitSymbol rest)));
      cbn [map]; unfold sumZ; cbn [fold_right]; lia.
Qed.

Lemma dedupStep_numeric (m : dict CSVRow) (row : CSVRow) :
  (forall k rec, In (k, rec) m -> numericRow rec = true) ->
  numericRow row = true ->
  forall k rec, In (k, rec) (dedupStep m row) -> numericRow rec = true.
Proof.
  intros Hm Hrow k rec. unfold dedupStep.
  destruct (mapGet m (canonicalName (textOf (symbols row)))) as [existing|] eqn:E.
  - intros Hin. apply In_mapSet in Hin as [[-> ->] | Hin]; [|now apply (Hm k)].
    apply mapGet_In in E. apply Hm in E. unfold numericRow in *. cbn.
    destruct (vmsize existing); try discriminate E.
    destruct (vmsize row); try discriminate Hrow. reflexivity.
  - intros Hin. apply In_mapSet in Hin as [[-> ->] | Hin]; [|now apply (Hm k)].
    exact Hrow.
Qed.

Lemma dedup_numeric (l : list CSVRow) :
  Forall (fun row => numericRow row = true) l ->
  Forall (fun rec => numericRow rec = true) (dedup l).
Proof.
  intros Hl. unfold dedup.
  assert (H : forall m, (forall k rec, In (k, rec) m -> numericRow rec = true) ->
            forall k rec, In (k, rec) (fold_left dedupStep l m) ->
                          numericRow rec = true).
  { induction Hl as [|row l Hrow Hl IH]; intros m Hm; cbn; [exact Hm|].
    apply IH. now apply dedupStep_numeric. }
  apply Forall_forall. intros rec Hin. unfold mapValues in Hin.
  apply in_map_iff in Hin as [[k rec'] [<- Hin]].
  apply (H [] (fun k rec (F : In (k, rec) []) => match F with end) k rec' Hin).
Qed.

(** Conservation, where it holds: when the kept rows have numeric sizes and
    the fuel lets every keyword loop end, the handler returns, and the
    root's size after the aggregation pass is the sum of the sizes of the
    collapsed records that have a segment and no segment naming an
    inherited member of [Object.prototype]. *)
Lemma processFile_conservation (localeCompare : string -> string -> Z)
  (fuel : nat) (data : list CSVRow) :
  (forall row, In row data -> keepRow row = true -> exists z, vmsize row = VNum z) ->
  (forall rec, In rec (dedup (normalize localeCompare data)) ->
               processSymbol fuel (textOf (symbols rec)) <> None) ->
  exists root,
    processFile localeCompare fuel data = Some root
    /\ size root =
       VNum (sumZ (map sizeOf (filter (lands fuel)
                                 (dedup (normalize localeCompare data))))).
Proof.
  intros Hnum Hfuel.
  destruct (insertAll_returns fuel _ Hfuel emptyRoot) as [tree Hfold].
  exists (calculateTotalSize tree). unfold processFile. rewrite Hfold.
  split; [reflexivity|].
  assert (Hrows : Forall (fun row => numericRow row = true)
                    (normalize localeCompare data)).
  { apply Forall_forall. intros row Hin.
    apply (Permutation_in _ (sortBy_perm (compareRows localeCompare) _)) in Hin.
    apply filter_In in Hin as [Hin Hkeep].
    destruct (Hnum row Hin Hkeep) as [z Hz]. unfold numericRow. now rewrite Hz. }
  destruct (insertAll_total fuel _ emptyRoot tree (dedup_numeric _ Hrows)
              eq_refl eq_refl Hfold) as [Hn Ht].
  rewrite (calculateTotalSize_size tree Hn), Ht. f_equal.
Qed.

(** A fuel that is enough for each record is enough for all of them. *)
Lemma fuel_for_all (recs : list CSVRow) :
  (forall rec, In rec recs ->
     exists fuel, processSymbol fuel (textOf (symbols rec)) <> None) ->
  exists fuel, forall rec, In rec recs ->
    processSymbol fuel (textOf (symbols rec)) <> None.
Proof.
  induction recs as [|rec recs IH]; intros Hall.
  - exists 0%nat. intros rec [].
  - destruct (Hall rec (or_introl eq_refl)) as [f1 H1].
    destruct (IH (fun r Hr => Hall r (or_intror Hr))) as [f2 H2].
    exists (Nat.max f1 f2). intros r [<- | Hr].
    + destruct (processSymbol f1 (textOf (symbols rec))) as [parts|] eqn:E;
        [|contradiction].
      rewrite (processSymbol_mono f1 _ _ parts E); [discriminate | lia].
    + specialize (H2 r Hr).
      destruct (processSymbol f2 (textOf (symbols r))) as [parts|] eqn:E;
        [|contradiction].
      rewrite (processSymbol_mono f2 _ _ parts E); [discriminate | lia].
Qed.

(** C1 does not hold of the code. The single row [{"toString", 100, 0}] is
    kept, has a numeric size, collapses to itself and yields the one
    segment ["toString"], so the claim puts 100 at the root. The insertion
    loop reads [root.children["toString"]], finds the function every object
    inherits, takes it for an existing child and adds the size to that
    function: the hierarchy stays empty and the root's size is 0 after the
    aggregation pass. *)
Theorem conservation_inherited_segment (localeCompare : string -> string -> Z)
  (fuel : nat) :
  let data := [ mkRow (VStr "toString") (VNum 100) (VNum 0) ] in
  let records := dedup (normalize localeCompare data) in
  records = data
  /\ processSymbol (S fuel) "toString" = Some ["toString"]
  /\ sumZ (map sizeOf (filter (hasSegments (S fuel)) records)) = 100
  /\ processFile localeCompare (S fuel) data = Some emptyRoot
  /\ option_map size (processFile localeCompare (S fuel) data) = Some (VNum 0).
Proof. repeat split. Qed.

(** ** Instantiation counts in the hierarchy *)

Lemma instAt_setChild (n : TreeNode) (k key : string) (child : TreeNode)
  (path : list string) :
  instAt (setChild n k child) (key :: path) =
  if String.eqb k key then instAt child path else instAt n (key :: path).
Proof.
  unfold instAt. cbn [nodeAt]. destruct n as [nm sz kids fp os inst].
  cbn [setChild children]. destruct (String.eqb k key) eqn:E.
  - apply String.eqb_eq in E. subst key. now rewrite mapGet_mapSet_same.
  - apply String.eqb_neq in E. now rewrite mapGet_mapSet_other.
Qed.

Lemma instAt_setChild_nil (n : TreeNode) (k : string) (child : TreeNode) :
  instAt (setChild n k child) [] = instAt n [].
Proof. now destruct n. Qed.

Lemma instAt_child (n : TreeNode) (key : string) (path : list string) :
  instAt n (key :: path) =
  match mapGet (children n) key with
  | Some child => instAt child path
  | None => None
  end.
Proof. unfold instAt. cbn [nodeAt]. now destruct (mapGet (children n) key). Qed.

Lemma instAt_addRecord (symbol : CSVRow) (n : TreeNode) (path : list string) :
  instAt (addRecord symbol n) path =
  match path with
  | [] => Some (js_add (node_instantiations n) (instantiations symbol))
  | _ :: _ => instAt n path
  end.
Proof. destruct n, path; reflexivity. Qed.

(** What one record does to the count found along [path]. *)
Lemma insertParts_instAt (parts : list string) :
  forallb nonEmpty parts = true ->
  forall pathKey symbol current path,
    ownKeysOnly current = true ->
    if negb (isEmpty_list parts) && pathEqb parts path && stays parts
    then instAt (insertParts parts pathKey symbol current) path =
         Some (js_add (orZero (instAt current path)) (instantiations symbol))
    else instAt (insertParts parts pathKey symbol current) path = instAt current path
         \/ (instAt current path = None
             /\ instAt (insertParts parts pathKey symbol current) path
                = Some (VNum 0)).
Proof.
  induction parts as [|part rest IH]; intros Hne pathKey symbol current path Hown.
  - left. reflexivity.
  - cbn [forallb] in Hne. apply andb_true_iff in Hne as [Hpart Hrest].
    unfold nonEmpty in Hpart. apply negb_true_iff in Hpart.
    rewrite insertParts_cons by exact Hpart.
    assert (Hsub : forall child p,
              ownKeysOnly child = true ->
              if pathEqb rest p && stays rest
              then instAt (insertParts rest (extendPath pathKey part) symbol
                             (arrive rest symbol child)) p
                   = Some (js_add (orZero (instAt child p)) (instantiations symbol))
              else instAt (insertParts rest (extendPath pathKey part) symbol
                             (arrive rest symbol child)) p = instAt child p
                   \/ (instAt child p = None
                       /\ instAt (insertParts rest (extendPath pathKey part) symbol
                                    (arrive rest symbol child)) p = Some (VNum 0))).
    { intros child p Hc. destruct rest as [|r rest'].
      - cbn [arrive insertParts]. rewrite instAt_addRecord.
        destruct p as [|k p']; cbn [pathEqb stays forallb andb].
        + now destruct child.
        + now left.
      - exact (IH Hrest (extendPath pathKey part) symbol child p Hc). }
    cbn [isEmpty_list negb pathEqb stays forallb]. fold (stays rest).
    destruct path as [|key p].
    + cbn [andb]. left.
      destruct (mapGet (children current) part); [apply instAt_setChild_nil|].
      destruct (inherited part); [reflexivity | apply instAt_setChild_nil].
    + destruct (mapGet (children current) part) as [child|] eqn:E.
      * destruct (ownKeysOnly_child _ _ _ Hown E) as [Hk Hc].
        rewrite instAt_setChild, Hk.
        destruct (String.eqb part key) eqn:Ek; cbn [negb andb]; [|now left].
        apply String.eqb_eq in Ek. subst key.
        rewrite (instAt_child current), E. apply Hsub. exact Hc.
      * destruct (inherited part) eqn:Hk.
        -- cbn [negb andb]. rewrite andb_false_r. now left.
        -- rewrite instAt_setChild.
           destruct (String.eqb part key) eqn:Ek; cbn [negb andb]; [|now left].
           apply String.eqb_eq in Ek. subst key.
           rewrite (instAt_child current), E.
           specialize (Hsub (newNode part (extendPath pathKey part) symbol) p eq_refl).
           assert (Hnew : instAt (newNode part (extendPath pathKey part) symbol) p
                          = match p with [] => Some (VNum 0) | _ :: _ => None end).
           { destruct p; reflexivity. }
           rewrite Hnew in Hsub.
           destruct (pathEqb rest p && stays rest).
           ++ rewrite Hsub. now destruct p.
           ++ destruct p; destruct Hsub as [H | [H1 H2]];
                try discriminate H1; auto.
Qed.

Lemma countsAt_snoc (fuel : nat) (path : list string) (recs : list CSVRow)
  (rec : CSVRow) :
  countsAt fuel path (recs ++ [rec]) =
  if endsAt fuel path rec
  then js_add (countsAt fuel path recs) (instantiations rec)
  else countsAt fuel path recs.
Proof.
  unfold countsAt. rewrite filter_snoc.
  destruct (endsAt fuel path rec).
  - now rewrite map_app, fold_left_app.
  - now rewrite app_nil_r.
Qed.

Lemma countsAgree_step (fuel : nat) (tree : TreeNode) (recs : list CSVRow)
  (rec : CSVRow) (parts : list string) :
  ownKeysOnly tree = true -> countsAgree fuel tree recs ->
  processSymbol fuel (textOf (symbols rec)) = Some parts ->
  countsAgree fuel (insertParts parts "" rec tree) (recs ++ [rec]).
Proof.
  intros Hown Hagree Hparts path.
  destruct (processSymbol_splitSymbol _ _ _ Hparts) as [rest ->].
  rewrite insertParts_segments.
  pose proof (insertParts_instAt (segmentsOf (splitSymbol rest))
                (forallb_filter _ _) "" rec tree path Hown) as Hstep.
  assert (Hends : endsAt fuel path rec =
                  negb (isEmpty_list (segmentsOf (splitSymbol rest)))
                  && pathEqb (segmentsOf (splitSymbol rest)) path
                  && stays (segmentsOf (splitSymbol rest))).
  { unfold endsAt. now rewrite Hparts. }
  rewrite <- Hends in Hstep. specialize (Hagree path).
  rewrite countsAt_snoc, filter_snoc.
  destruct (endsAt fuel path rec).
  - rewrite Hstep. f_equal.
    destruct (instAt tree path); cbn [orZero]; [exact Hagree|].
    unfold countsAt. now rewrite Hagree.
  - rewrite app_nil_r. destruct Hstep as [-> | [Hnone ->]]; [exact Hagree|].
    rewrite Hnone in Hagree. unfold countsAt. now rewrite Hagree.
Qed.

Lemma insertAll_counts (fuel : nat) (recs : list CSVRow) :
  forall done root0 root,
    ownKeysOnly root0 = true -> countsAgree fuel root0 done ->
    fold_left (insertSymbol fuel) recs (Some root0) = Some root ->
    countsAgree fuel root (done ++ recs).
Proof.
  induction recs as [|rec recs IH]; intros done root0 root Hown Hagree Hfold.
  - cbn in Hfold. injection Hfold as <-. now rewrite app_nil_r.
  - cbn [fold_left] in Hfold. unfold insertSymbol at 2 in Hfold.
    destruct (processSymbol fuel (textOf (symbols rec))) as [parts|] eqn:Hparts;
      [|rewrite fold_insertSymbol_None in Hfold; discriminate Hfold].
    replace (done ++ rec :: recs)%list with ((done ++ [rec]) ++ recs)%list
      by (now rewrite <- app_assoc).
    apply (IH _ (insertParts parts "" rec root0)).
    + now apply insertParts_ownKeysOnly.
    + now apply countsAgree_step.
    + exact Hfold.
Qed.




(** ** The hierarchies the builder returns are well keyed *)

Lemma NoDup_noDupKeys (keys : list string) :
  NoDup keys -> noDupKeys keys = true.
Proof.
  induction 1 as [|k keys Hnotin _ IH]; cbn; [reflexivity|].
  rewrite IH, andb_true_r. apply negb_true_iff.
  destruct (existsb (String.eqb k) keys) eqn:E; [|reflexivity].
  apply existsb_exists in E as [k' [Hin Hk]].
  apply String.eqb_eq in Hk. subst k'. contradiction.
Qed.

Lemma wellKeyed_unfold (n : TreeNode) :
  wellKeyed n =
  forallb (fun kc : string * TreeNode =>
             String.eqb (fst kc) (name (snd kc))
             && negb (String.eqb (fst kc) "__proto__")
             && wellKeyed (snd kc)) (children n)
  && noDupKeys (mapKeys (children n)).
Proof.
  destruct n as [nm sz kids fp os inst]. cbn. f_equal.
  induction kids as [|[k c] kids IH]; cbn; [reflexivity | now rewrite IH].
Qed.

Lemma wellKeyed_setChild (n : TreeNode) (k : string) (child : TreeNode) :
  wellKeyed n = true -> wellKeyed child = true ->
  name child = k -> k <> "__proto__" ->
  wellKeyed (setChild n k child) = true.
Proof.
  intros Hn Hc Hname Hproto. rewrite wellKeyed_unfold in Hn |- *.
  apply andb_true_iff in Hn as [Hall Hnd].
  destruct n as [nm sz kids fp os inst]. cbn [setChild children] in *.
  apply andb_true_iff. split.
  - apply forallb_mapSet; [exact Hall|]. cbn. rewrite Hname, String.eqb_refl, Hc.
    apply String.eqb_neq in Hproto. now rewrite Hproto.
  - apply NoDup_noDupKeys, mapSet_NoDup. now apply noDupKeys_NoDup.
Qed.

Lemma wellKeyed_child (n : TreeNode) (k : string) (child : TreeNode) :
  wellKeyed n = true -> mapGet (children n) k = Some child ->
  name child = k /\ k <> "__proto__" /\ wellKeyed child = true.
Proof.
  intros Hn Hget. destruct (wellKeyed_children n Hn) as [Hall _].
  rewrite Forall_forall in Hall. apply mapGet_In in Hget.
  destruct (Hall _ Hget) as (H1 & H2 & H3). cbn in *. auto.
Qed.

Lemma name_insertParts (parts : list string) :
  forall path symbol current,
    name (insertParts parts path symbol current) = name current.
Proof.
  induction parts as [|part rest IH]; intros path symbol current; [reflexivity|].
  destruct (isEmpty part) eqn:Hne.
  - cbn [insertParts]. rewrite Hne. apply IH.
  - rewrite insertParts_cons by exact Hne.
    destruct (mapGet (children current) part); [now destruct current|].
    destruct (inherited part); [reflexivity | now destruct current].
Qed.

Lemma arrive_keeps rest symbol child :
  name (arrive rest symbol child) = name child
  /\ (wellKeyed child = true -> wellKeyed (arrive rest symbol child) = true).
Proof. destruct rest, child; cbn; auto. Qed.

Lemma insertParts_wellKeyed (parts : list string) :
  forall path symbol current,
    wellKeyed current = true ->
    wellKeyed (insertParts parts path symbol current) = true.
Proof.
  induction parts as [|part rest IH]; intros path symbol current Hwk; [exact Hwk|].
  destruct (isEmpty part) eqn:Hne.
  - cbn [insertParts]. rewrite Hne. now apply IH.
  - rewrite insertParts_cons by exact Hne.
    destruct (mapGet (children current) part) as [child|] eqn:E.
    + destruct (wellKeyed_child _ _ _ Hwk E) as (Hname & Hproto & Hc).
      destruct (arrive_keeps rest symbol child) as [Han Haw].
      apply wellKeyed_setChild; auto.
      rewrite name_insertParts. congruence.
    + destruct (inherited part) eqn:Hk; [exact Hwk|].
      destruct (arrive_keeps rest symbol (newNode part (extendPath path part) symbol))
        as [Han Haw].
      apply wellKeyed_setChild; auto.
      * rewrite name_insertParts. exact Han.
      * intros ->. discriminate Hk.
Qed.

Lemma calculateTotalSize_wellKeyed (n : TreeNode) :
  wellKeyed n = true -> wellKeyed (calculateTotalSize n) = true.
Proof.
  induction n as [nm sz kids fp os inst IH] using TreeNode_induction.
  intros Hwk. rewrite wellKeyed_unfold in Hwk |- *.
  rewrite calculateTotalSize_unfold. cbv zeta. cbn [children] in *.
  apply andb_true_iff in Hwk as [Hall Hnd]. rewrite mapKeys_map, Hnd, andb_true_r.
  rewrite forallb_forall in *. rewrite Forall_forall in IH.
  intros kc Hin. apply in_map_iff in Hin as [[k c] [<- Hin]]. cbn.
  specialize (Hall _ Hin). cbn in Hall.
  apply andb_true_iff in Hall as [Hkp Hc].
  pose proof (IH (k, c) Hin Hc) as Hcalc. cbn [snd] in Hcalc.
  rewrite Hcalc, andb_true_r.
  rewrite (calculateTotalSize_unfold c). exact Hkp.
Qed.

(** Every hierarchy [processFile] returns is in the data model that the
    frame property of the merge pass is stated for. *)
Lemma processFile_wellKeyed (localeCompare : string -> string -> Z) (fuel : nat)
  (data : list CSVRow) (root : TreeNode) :
  processFile localeCompare fuel data = Some root -> wellKeyed root = true.
Proof.
  unfold processFile.
  generalize (dedup (normalize localeCompare data)) as recs. intros recs.
  assert (H : forall root0 tree,
            wellKeyed root0 = true ->
            fold_left (insertSymbol fuel) recs (Some root0) = Some tree ->
            wellKeyed tree = true).
  { induction recs as [|rec recs IH]; intros root0 tree Hwk Hfold.
    - cbn in Hfold. now injection Hfold as <-.
    - cbn [fold_left] in Hfold. unfold insertSymbol at 2 in Hfold.
      destruct (processSymbol fuel (textOf (symbols rec))) as [parts|];
        [|rewrite fold_insertSymbol_None in Hfold; discriminate Hfold].
      apply (IH _ tree (insertParts_wellKeyed parts "" rec root0 Hwk) Hfold). }
  destruct (fold_left (insertSymbol fuel) recs (Some emptyRoot)) as [tree|] eqn:E;
    [|discriminate].
  intros Hrun. injection Hrun as <-.
  apply calculateTotalSize_wellKeyed. now apply (H emptyRoot).
Qed.

(** ** The category filter set *)

Lemma Category_eqb_eq (a b : Category) : Category_eqb a b = true <-> a = b.
Proof. destruct a, b; cbn; split; intros H; try reflexivity; discriminate H. Qed.

Lemma Category_eqb_refl (a : Category) : Category_eqb a a = true.
Proof. now destruct a. Qed.

Lemma Category_eqb_sym (a b : Category) : Category_eqb a b = Category_eqb b a.
Proof. now destruct a, b. Qed.

Lemma has_In (s : list Category) (c : Category) : has s c = true <-> In c s.
Proof.
  unfold has. rewrite existsb_exists. split.
  - intros [x [Hin Hx]]. apply Category_eqb_eq in Hx. now subst.
  - intros Hin. exists c. split; [exact Hin | apply Category_eqb_refl].
Qed.

Lemma has_app (s t : list Category) (c : Category) :
  has (s ++ t)%list c = has s c || has t c.
Proof. unfold has. apply existsb_app. Qed.

Lemma has_setDelete (s : list Category) (c d : Category) :
  has (setDelete s c) d = negb (Category_eqb d c) && has s d.
Proof.
  unfold has, setDelete. induction s as [|x s IH]; cbn.
  - now rewrite andb_false_r.
  - destruct (Category_eqb x c) eqn:Exc; cbn; rewrite IH.
    + apply Category_eqb_eq in Exc. subst x.
      destruct (Category_eqb d c); reflexivity.
    + destruct (Category_eqb d x) eqn:Edx; cbn; [|reflexivity].
      apply Category_eqb_eq in Edx. subst x. now rewrite Exc.
Qed.

Lemma setDelete_absent (s : list Category) (c : Category) :
  has s c = false -> setDelete s c = s.
Proof.
  unfold has, setDelete. induction s as [|x s IH]; cbn; [reflexivity|].
  intros H. apply orb_false_iff in H as [Hx Hs].
  rewrite Category_eqb_sym, Hx. cbn. now rewrite IH.
Qed.

(** X1. Toggling a category flips its membership in the filter set and
    leaves every other category as it was, so toggling the same category
    twice gives back a set with the same members; the set never lists a
    category twice, and a category that was off is added last and taken
    away again without a trace. *)
Theorem toggleFilter_flips (activeFilters : list Category) (category : Category) :
  (forall d, has (toggleFilter activeFilters category) d =
             if Category_eqb d category then negb (has activeFilters category)
             else has activeFilters d)
  /\ (forall d, has (toggleFilter (toggleFilter activeFilters category) category) d
                = has activeFilters d)
  /\ (NoDup activeFilters -> NoDup (toggleFilter activeFilters category))
  /\ (has activeFilters category = false ->
      toggleFilter (toggleFilter activeFilters category) category = activeFilters).
Proof.
  assert (Hflip : forall s c d,
            has (toggleFilter s c) d =
            if Category_eqb d c then negb (has s c) else has s d).
  { intros s c d. unfold toggleFilter. destruct (has s c) eqn:Hc.
    - rewrite has_setDelete. destruct (Category_eqb d c); reflexivity.
    - rewrite has_app. unfold has at 2. cbn [existsb]. rewrite orb_false_r.
      destruct (Category_eqb d c) eqn:E; [|apply orb_false_r].
      apply Category_eqb_eq in E. subst d. now rewrite Hc. }
  split; [apply Hflip|]. split; [|split].
  - intros d. rewrite !Hflip. destruct (Category_eqb d category) eqn:E.
    + rewrite Category_eqb_refl, negb_involutive.
      apply Category_eqb_eq in E. now subst.
    + reflexivity.
  - intros Hnd. unfold toggleFilter. destruct (has activeFilters category) eqn:Hc.
    + now apply NoDup_filter.
    + apply NoDup_rev in Hnd.
      rewrite <- (rev_involutive (activeFilters ++ [category])%list).
      apply NoDup_rev. rewrite rev_app_distr. cbn. constructor; [|exact Hnd].
      rewrite <- in_rev, <- has_In. now rewrite Hc.
  - intros Hc. unfold toggleFilter at 2. rewrite Hc. unfold toggleFilter.
    rewrite has_app. cbn. rewrite Category_eqb_refl, orb_true_r.
    unfold setDelete. rewrite filter_app. cbn. rewrite Category_eqb_refl. cbn.
    rewrite app_nil_r. now apply setDelete_absent.
Qed.

Lemma toggleFilter_flips_witness :
  NoDup (toggleFilter [CPP; Rust] Zig)
  /\ toggleFilter (toggleFilter [CPP; Rust] Zig) Zig = [CPP; Rust].
Proof.
  destruct (toggleFilter_flips [CPP; Rust] Zig) as (_ & _ & Hnd & Hback).
  split.
  - apply Hnd. repeat constructor; cbn; intuition discriminate.
  - apply Hback. reflexivity.
Defined.

(** ** The size slider *)



(** ** The largest record *)

Lemma js_max_num (a b : Z) : js_max (VNum a) (VNum b) = VNum (Z.max a b).
Proof. reflexivity. Qed.

Lemma js_max_NaN_l (b : jsval) : js_max VNaN b = VNaN.
Proof. reflexivity. Qed.

Lemma maxVmSize_NaN (recs : list CSVRow) :
  fold_left (fun max symbol => js_max max (vmsize symbol)) recs VNaN = VNaN.
Proof. induction recs as [|rec recs IH]; [reflexivity | exact IH]. Qed.

Lemma maxVmSize_from (recs : list CSVRow) :
  Forall (fun rec => numericRow rec = true) recs ->
  forall start,
  exists m,
    fold_left (fun max symbol => js_max max (vmsize symbol)) recs (VNum start)
    = VNum m
    /\ start <= m
    /\ (forall rec, In rec recs -> sizeOf rec <= m)
    /\ (m = start \/ exists rec, In rec recs /\ sizeOf rec = m).
Proof.
  induction 1 as [|rec recs Hrec _ IH]; intros start.
  - exists start. cbn. repeat split; [lia | intros rec [] | now left].
  - unfold numericRow in Hrec.
    destruct (vmsize rec) as [| | | |z|] eqn:Hz; try discriminate Hrec.
    cbn [fold_left]. rewrite Hz, js_max_num.
    destruct (IH (Z.max start z)) as (m & Hm & Hle & Hall & Hsome).
    assert (Hs : sizeOf rec = z) by (unfold sizeOf; now rewrite Hz).
    exists m. split; [exact Hm|]. split; [lia|]. split.
    + intros r [<- | Hr]; [lia | now apply Hall].
    + destruct Hsome as [-> | (r & Hr & Hrm)].
      * destruct (Z.max_spec start z) as [[_ ->] | [_ ->]].
        -- right. exists rec. split; [now left | exact Hs].
        -- now left.
      * right. exists r. split; [now right | exact Hrm].
Qed.

(** X3. When the collapsed records have numeric sizes, the maximum handed
    to the slider is a number, not negative, no record is larger, and it is
    0 or the size of one of the records. One record whose size does not
    convert to a number (a missing [vmsize] column) makes it [NaN],
    whatever the other records are. *)
Theorem maxVmSize_bound (recs : list CSVRow) :
  (Forall (fun rec => numericRow rec = true) recs ->
   exists m,
     maxVmSize recs = VNum m
     /\ 0 <= m
     /\ (forall rec, In rec recs -> sizeOf rec <= m)
     /\ (m = 0 \/ exists rec, In rec recs /\ sizeOf rec = m))
  /\ (forall rec, In rec recs -> toNumber (vmsize rec) = VNaN ->
      maxVmSize recs = VNaN).
Proof.
  split.
  - intros Hnum. exact (maxVmSize_from recs Hnum 0).
  - intros rec Hin Hnan. unfold maxVmSize. generalize (VNum 0) as start.
    induction recs as [|r recs IH]; intros start; [destruct Hin|].
    cbn [fold_left]. destruct Hin as [-> | Hin]; [|now apply IH].
    assert (E : js_max start (vmsize rec) = VNaN).
    { unfold js_max. rewrite Hnan. now destruct (toNumber start). }
    rewrite E. apply maxVmSize_NaN.
Qed.

Lemma maxVmSize_bound_witness :
  (exists m,
     maxVmSize [ mkRow (VStr "a") (VNum 30) (VNum 0);
                 mkRow (VStr "b") (VNum 70) (VNum 0) ] = VNum m
     /\ 0 <= m
     /\ (forall rec, In rec [ mkRow (VStr "a") (VNum 30) (VNum 0);
                              mkRow (VStr "b") (VNum 70) (VNum 0) ] ->
                     sizeOf rec <= m)
     /\ (m = 0 \/ exists rec,
            In rec [ mkRow (VStr "a") (VNum 30) (VNum 0);
                     mkRow (VStr "b") (VNum 70) (VNum 0) ] /\ sizeOf rec = m))
  /\ maxVmSize [ mkRow (VStr "a") (VNum 30) (VNum 0);
                 mkRow (VStr "b") VUndefined (VNum 0) ] = VNaN.
Proof.
  split.
  - apply (proj1 (maxVmSize_bound _)). repeat constructor.
  - apply (proj2 (maxVmSize_bound _) (mkRow (VStr "b") VUndefined (VNum 0)));
      [cbn; tauto | reflexivity].
Defined.

(** ** The rows of the views *)









(** ** The size at every node *)

Lemma nodeAt_setChild (n : TreeNode) (k key : string) (child : TreeNode)
  (path : list string) :
  nodeAt (setChild n k child) (key :: path) =
  if String.eqb k key then nodeAt child path else nodeAt n (key :: path).
Proof.
  cbn [nodeAt]. destruct n as [nm sz kids fp os inst].
  cbn [setChild children]. destruct (String.eqb k key) eqn:E.
  - apply String.eqb_eq in E. subst key. now rewrite mapGet_mapSet_same.
  - apply String.eqb_neq in E. now rewrite mapGet_mapSet_other.
Qed.

Lemma totalAt_setChild (n : TreeNode) (k key : string) (child : TreeNode)
  (path : list string) :
  totalAt (setChild n k child) (key :: path) =
  if String.eqb k key then totalAt child path else totalAt n (key :: path).
Proof.
  unfold totalAt. rewrite nodeAt_setChild. now destruct (String.eqb k key).
Qed.

Lemma totalAt_child (n : TreeNode) (key : string) (path : list string) :
  totalAt n (key :: path) =
  match mapGet (children n) key with
  | Some child => totalAt child path
  | None => None
  end.
Proof. unfold totalAt. cbn [nodeAt]. now destruct (mapGet (children n) key). Qed.

Lemma totalAt_addRecord (symbol : CSVRow) (n : TreeNode) (key : string)
  (path : list string) :
  totalAt (addRecord symbol n) (key :: path) = totalAt n (key :: path).
Proof. now destruct n. Qed.

(** What one record adds at and below the node along [path]. *)
Lemma insertParts_totalAt (parts : list string) (z : Z) :
  forallb nonEmpty parts = true ->
  forall pathKey symbol current path,
    vmsize symbol = VNum z ->
    numericTree current = true -> ownKeysOnly current = true ->
    if negb (isEmpty_list parts) && prefixb path parts && stays parts
    then totalAt (insertParts parts pathKey symbol current) path =
         Some (orZeroZ (totalAt current path) + z)
    else totalAt (insertParts parts pathKey symbol current) path
         = totalAt current path
         \/ (totalAt current path = None
             /\ totalAt (insertParts parts pathKey symbol current) path = Some 0).
Proof.
  induction parts as [|part rest IH];
    intros Hne pathKey symbol current path Hz Hnum Hown.
  - left. reflexivity.
  - destruct path as [|key p].
    { (* at the node itself: the total of the whole walk *)
      destruct (insertParts_total (part :: rest) z Hne pathKey symbol current
                  Hz Hnum Hown) as [_ Htot].
      cbn [prefixb andb] in *. rewrite andb_true_r.
      unfold totalAt. cbn [nodeAt option_map orZeroZ]. rewrite Htot.
      destruct (negb (isEmpty_list (part :: rest)) && stays (part :: rest)).
      - reflexivity.
      - left. f_equal. lia. }
    cbn [forallb] in Hne. apply andb_true_iff in Hne as [Hpart Hrest].
    unfold nonEmpty in Hpart. apply negb_true_iff in Hpart.
    rewrite insertParts_cons by exact Hpart.
    assert (Hsub : forall child,
              numericTree child = true -> ownKeysOnly child = true ->
              if prefixb p rest && stays rest
              then totalAt (insertParts rest (extendPath pathKey part) symbol
                              (arrive rest symbol child)) p
                   = Some (orZeroZ (totalAt child p) + z)
              else totalAt (insertParts rest (extendPath pathKey part) symbol
                              (arrive rest symbol child)) p = totalAt child p
                   \/ (totalAt child p = None
                       /\ totalAt (insertParts rest (extendPath pathKey part) symbol
                                     (arrive rest symbol child)) p = Some 0)).
    { intros child Hcn Hco. destruct rest as [|r rest'].
      - cbn [arrive insertParts].
        destruct (arrive_total [] symbol child z Hz Hcn) as [_ Hat].
        cbn [arrive isEmpty_list] in Hat.
        destruct p as [|k p']; cbn [prefixb stays forallb andb].
        + unfold totalAt. cbn [nodeAt option_map orZeroZ]. now rewrite Hat.
        + left. apply totalAt_addRecord.
      - exact (IH Hrest (extendPath pathKey part) symbol child p Hz Hcn Hco). }
    cbn [isEmpty_list negb prefixb stays forallb]. fold (stays rest).
    destruct (mapGet (children current) part) as [child|] eqn:E.
    + destruct (ownKeysOnly_child _ _ _ Hown E) as [Hk Hc].
      rewrite totalAt_setChild, Hk.
      rewrite (String.eqb_sym key part).
      destruct (String.eqb part key) eqn:Ek; cbn [negb andb]; [|now left].
      apply String.eqb_eq in Ek. subst key.
      rewrite (totalAt_child current), E.
      apply Hsub; [exact (numericTree_child _ _ _ Hnum E) | exact Hc].
    + destruct (inherited part) eqn:Hk.
      * cbn [negb andb]. rewrite andb_false_r. now left.
      * rewrite totalAt_setChild. rewrite (String.eqb_sym key part).
        destruct (String.eqb part key) eqn:Ek; cbn [negb andb]; [|now left].
        apply String.eqb_eq in Ek. subst key.
        rewrite (totalAt_child current), E.
        specialize (Hsub (newNode part (extendPath pathKey part) symbol)
                      eq_refl eq_refl).
        assert (Hnew : totalAt (newNode part (extendPath pathKey part) symbol) p
                       = match p with [] => Some 0 | _ :: _ => None end).
        { destruct p; reflexivity. }
        rewrite Hnew in Hsub.
        destruct (prefixb p rest && stays rest).
        -- rewrite Hsub. now destruct p.
        -- destruct p; destruct Hsub as [H | [H1 H2]];
             try discriminate H1; auto.
Qed.

Lemma sizesAt_snoc (fuel : nat) (path : list string) (recs : list CSVRow)
  (rec : CSVRow) :
  sizesAt fuel path (recs ++ [rec]) =
  sizesAt fuel path recs + (if passes fuel path rec then sizeOf rec else 0).
Proof. apply filter_sum_snoc. Qed.

Lemma sizesAgree_step (fuel : nat) (tree : TreeNode) (recs : list CSVRow)
  (rec : CSVRow) (parts : list string) (z : Z) :
  vmsize rec = VNum z ->
  numericTree tree = true -> ownKeysOnly tree = true ->
  sizesAgree fuel tree recs ->
  processSymbol fuel (textOf (symbols rec)) = Some parts ->
  sizesAgree fuel (insertParts parts "" rec tree) (recs ++ [rec]).
Proof.
  intros Hz Hnum Hown Hagree Hparts path.
  destruct (processSymbol_splitSymbol _ _ _ Hparts) as [rest ->].
  rewrite insertParts_segments.
  pose proof (insertParts_totalAt (segmentsOf (splitSymbol rest)) z
                (forallb_filter _ _) "" rec tree path Hz Hnum Hown) as Hstep.
  assert (Hpasses : passes fuel path rec =
                    negb (isEmpty_list (segmentsOf (splitSymbol rest)))
                    && prefixb path (segmentsOf (splitSymbol rest))
                    && stays (segmentsOf (splitSymbol rest))).
  { unfold passes. now rewrite Hparts. }
  rewrite <- Hpasses in Hstep. specialize (Hagree path).
  assert (Hsize : sizeOf rec = z) by (unfold sizeOf; now rewrite Hz).
  rewrite sizesAt_snoc, filter_snoc.
  destruct (passes fuel path rec).
  - rewrite Hstep. rewrite Hsize.
    destruct (totalAt tree path); cbn [orZeroZ]; [now rewrite Hagree|].
    unfold sizesAt. now rewrite Hagree.
  - rewrite app_nil_r, Z.add_0_r.
    destruct Hstep as [-> | [Hnone ->]]; [exact Hagree|].
    rewrite Hnone in Hagree. unfold sizesAt. now rewrite Hagree.
Qed.

Lemma insertAll_sizes (fuel : nat) (recs : list CSVRow) :
  forall done root0 root,
    Forall (fun rec => numericRow rec = true) recs ->
    numericTree root0 = true -> ownKeysOnly root0 = true ->
    sizesAgree fuel root0 done ->
    fold_left (insertSymbol fuel) recs (Some root0) = Some root ->
    numericTree root = true /\ sizesAgree fuel root (done ++ recs).
Proof.
  induction recs as [|rec recs IH];
    intros done root0 root Hall Hnum Hown Hagree Hfold.
  - cbn in Hfold. injection Hfold as <-. now rewrite app_nil_r.
  - apply Forall_cons_iff in Hall as [Hrec Hall].
    cbn [fold_left] in Hfold. unfold insertSymbol at 2 in Hfold.
    destruct (processSymbol fuel (textOf (symbols rec))) as [parts|] eqn:Hparts;
      [|rewrite fold_insertSymbol_None in Hfold; discriminate Hfold].
    unfold numericRow in Hrec.
    destruct (vmsize rec) as [| | | |z|] eqn:Hz; try discriminate Hrec.
    replace (done ++ rec :: recs)%list with ((done ++ [rec]) ++ recs)%list
      by (now rewrite <- app_assoc).
    pose proof (sizesAgree_step fuel root0 done rec parts z Hz Hnum Hown
                  Hagree Hparts) as Hnext.
    destruct (processSymbol_splitSymbol _ _ _ Hparts) as [rest Hrest].
    assert (Hn1 : numericTree (insertParts parts "" rec root0) = true).
    { rewrite Hrest, insertParts_segments.
      apply (insertParts_total _ z (forallb_filter _ _) "" rec root0 Hz Hnum Hown). }
    apply (IH _ (insertParts parts "" rec root0) root Hall Hn1
             (insertParts_ownKeysOnly _ _ _ _ Hown) Hnext Hfold).
Qed.

Lemma numericTree_nodeAt (path : list string) :
  forall n node, numericTree n = true -> nodeAt n path = Some node ->
                 numericTree node = true.
Proof.
  induction path as [|key path IH]; intros n node Hn Hat.
  - cbn in Hat. now injection Hat as <-.
  - cbn [nodeAt] in Hat.
    destruct (mapGet (children n) key) as [child|] eqn:E; [|discriminate Hat].
    apply (IH child node (numericTree_child _ _ _ Hn E) Hat).
Qed.

Lemma normalize_numeric (localeCompare : string -> string -> Z)
  (data : list CSVRow) :
  (forall row, In row data -> keepRow row = true -> exists z, vmsize row = VNum z) ->
  Forall (fun row => numericRow row = true) (normalize localeCompare data).
Proof.
  intros Hnum. apply Forall_forall. intros row Hin.
  apply (Permutation_in _ (sortBy_perm (compareRows localeCompare) _)) in Hin.
  apply filter_In in Hin as [Hin Hkeep].
  destruct (Hnum row Hin Hkeep) as [z Hz]. unfold numericRow. now rewrite Hz.
Qed.

Lemma sizesAgree_calculateTotalSize (fuel : nat) (tree : TreeNode)
  (recs : list CSVRow) :
  numericTree tree = true -> sizesAgree fuel tree recs ->
  forall path,
    match nodeAt (calculateTotalSize tree) path with
    | Some node => size node = VNum (sizesAt fuel path recs)
    | None => filter (passes fuel path) recs = []
    end.
Proof.
  intros Hn Hagree path. specialize (Hagree path). unfold totalAt in Hagree.
  rewrite nodeAt_calculateTotalSize.
  destruct (nodeAt tree path) as [node|] eqn:Hat; cbn [option_map] in *.
  - rewrite (calculateTotalSize_size node (numericTree_nodeAt _ _ _ Hn Hat)).
    now rewrite Hagree.
  - exact Hagree.
Qed.

Lemma emptyRoot_sizes (fuel : nat) : sizesAgree fuel emptyRoot [].
Proof. intros [|k p]; reflexivity. Qed.

(** X6. When the kept rows have numeric sizes, no collapsed record has the
    segment [__proto__] (so that no walk stores on [Object.prototype]) and
    the fuel lets every keyword loop end, the handler returns a hierarchy in
    which the size of every node is the sum of the sizes of the collapsed
    records whose segment path goes through that node (and names no
    inherited member of [Object.prototype]); where the hierarchy has no
    node, no such record goes through. *)
Theorem processFile_sizes (localeCompare : string -> string -> Z) (fuel : nat)
  (data : list CSVRow) :
  (forall row, In row data -> keepRow row = true -> exists z, vmsize row = VNum z) ->
  (forall rec, In rec (dedup (normalize localeCompare data)) ->
               offPrototype fuel rec = true) ->
  (forall rec, In rec (dedup (normalize localeCompare data)) ->
               processSymbol fuel (textOf (symbols rec)) <> None) ->
  exists root,
    processFile localeCompare fuel data = Some root
    /\ forall path,
         match nodeAt root path with
         | Some node =>
             size node =
             VNum (sizesAt fuel path (dedup (normalize localeCompare data)))
         | None =>
             filter (passes fuel path) (dedup (normalize localeCompare data)) = []
         end.
Proof.
  intros Hnum _ Hfuel.
  destruct (insertAll_returns fuel _ Hfuel emptyRoot) as [tree Hfold].
  exists (calculateTotalSize tree). unfold processFile. rewrite Hfold.
  split; [reflexivity|].
  destruct (insertAll_sizes fuel _ [] emptyRoot tree
              (dedup_numeric _ (normalize_numeric localeCompare data Hnum))
              eq_refl eq_refl (emptyRoot_sizes fuel) Hfold) as [Hn Hagree].
  exact (sizesAgree_calculateTotalSize fuel tree _ Hn Hagree).
Qed.

Lemma processFile_sizes_witness :
  exists root,
    processFile codeUnitCompare 2
      [ mkRow (VStr "ns::f__anon_1") (VNum 30) (VNum 4);
        mkRow (VStr "ns::f__anon_2") (VNum 20) (VNum 1);
        mkRow (VStr "int ns::g") (VNum 10) (VNum 0) ] = Some root
    /\ forall path,
         match nodeAt root path with
         | Some node =>
             size node =
             VNum (sizesAt 2 path
                     [ mkRow (VStr "ns::f") (VNum 50) (VNum 6);
                       mkRow (VStr "int ns::g") (VNum 10) (VNum 0) ])
         | None =>
             filter (passes 2 path)
               [ mkRow (VStr "ns::f") (VNum 50) (VNum 6);
                 mkRow (VStr "int ns::g") (VNum 10) (VNum 0) ] = []
         end.
Proof.
  refine (processFile_sizes codeUnitCompare 2
            [ mkRow (VStr "ns::f__anon_1") (VNum 30) (VNum 4);
              mkRow (VStr "ns::f__anon_2") (VNum 20) (VNum 1);
              mkRow (VStr "int ns::g") (VNum 10) (VNum 0) ] _ _ _).
  - intros row Hin _. cbn in Hin.
    destruct Hin as [<- | [<- | [<- | []]]]; eexists; reflexivity.
  - intros rec Hin. cbn in Hin. destruct Hin as [<- | [<- | []]]; reflexivity.
  - intros rec Hin. cbn in Hin. destruct Hin as [<- | [<- | []]]; discriminate.
Defined.

(** ** A node is never smaller than its child *)

Lemma prefixb_app (p q : list string) (key : string) :
  prefixb (p ++ [key]) q = true -> prefixb p q = true.
Proof.
  revert q. induction p as [|a p IH]; intros q H; [reflexivity|].
  destruct q as [|b q]; [discriminate H|]. cbn in *.
  apply andb_true_iff in H as [-> H]. now apply IH.
Qed.

Lemma passes_parent (fuel : nat) (path : list string) (key : string)
  (rec : CSVRow) :
  passes fuel (path ++ [key]) rec = true -> passes fuel path rec = true.
Proof.
  unfold passes. destruct (processSymbol fuel (textOf (symbols rec))); [|easy].
  intros H. apply andb_true_iff in H as [H ->].
  apply andb_true_iff in H as [-> H]. now rewrite (prefixb_app _ _ _ H).
Qed.

Lemma sum_filter_le (f g : CSVRow -> bool) (recs : list CSVRow) :
  Forall (fun rec => nonnegRow rec = true) recs ->
  (forall rec, f rec = true -> g rec = true) ->
  0 <= sumZ (map sizeOf (filter f recs))
       <= sumZ (map sizeOf (filter g recs)).
Proof.
  intros Hall Hfg. unfold sumZ.
  induction Hall as [|rec recs Hrec _ IH]; cbn [filter]; [cbn; lia|].
  assert (0 <= sizeOf rec).
  { unfold nonnegRow, sizeOf in *. destruct (vmsize rec); try discriminate Hrec.
    now apply Z.leb_le. }
  specialize (Hfg rec).
  destruct (f rec); [rewrite Hfg by reflexivity|destruct (g rec)];
    cbn [map fold_right]; lia.
Qed.

Lemma dedupStep_nonneg (m : dict CSVRow) (row : CSVRow) :
  (forall k rec, In (k, rec) m -> nonnegRow rec = true) ->
  nonnegRow row = true ->
  forall k rec, In (k, rec) (dedupStep m row) -> nonnegRow rec = true.
Proof.
  intros Hm Hrow k rec. unfold dedupStep.
  destruct (mapGet m (canonicalName (textOf (symbols row)))) as [existing|] eqn:E.
  - intros Hin. apply In_mapSet in Hin as [[-> ->] | Hin]; [|now apply (Hm k)].
    apply mapGet_In in E. apply Hm in E. unfold nonnegRow in *. cbn.
    destruct (vmsize existing); try discriminate E.
    destruct (vmsize row); try discriminate Hrow. cbn.
    apply Z.leb_le in E, Hrow. apply Z.leb_le. lia.
  - intros Hin. apply In_mapSet in Hin as [[-> ->] | Hin]; [|now apply (Hm k)].
    exact Hrow.
Qed.

Lemma dedup_nonneg (l : list CSVRow) :
  Forall (fun row => nonnegRow row = true) l ->
  Forall (fun rec => nonnegRow rec = true) (dedup l).
Proof.
  intros Hl. unfold dedup.
  assert (H : forall m, (forall k rec, In (k, rec) m -> nonnegRow rec = true) ->
            forall k rec, In (k, rec) (fold_left dedupStep l m) ->
                          nonnegRow rec = true).
  { induction Hl as [|row l Hrow Hl IH]; intros m Hm; cbn; [exact Hm|].
    apply IH. now apply dedupStep_nonneg. }
  apply Forall_forall. intros rec Hin. unfold mapValues in Hin.
  apply in_map_iff in Hin as [[k rec'] [<- Hin]].
  apply (H [] (fun k rec (F : In (k, rec) []) => match F with end) k rec' Hin).
Qed.

Lemma nodeAt_app (p : list string) (key : string) :
  forall n child,
    nodeAt n (p ++ [key]) = Some child ->
    exists parent, nodeAt n p = Some parent
                   /\ mapGet (children parent) key = Some child.
Proof.
  induction p as [|a p IH]; intros n child H.
  - cbn in H. exists n. split; [reflexivity|].
    now destruct (mapGet (children n) key).
  - cbn [app nodeAt] in *. destruct (mapGet (children n) a); [|discriminate H].
    now apply IH.
Qed.

(** X7. When the kept rows have sizes that are numbers and not negative,
    every node of the returned hierarchy other than the root hangs under a
    node whose size is at least its own, and all sizes are non-negative: a
    node that passes the size threshold of the tree view is never hidden
    below a node that fails it. *)
Theorem processFile_parent_size (localeCompare : string -> string -> Z)
  (fuel : nat) (data : list CSVRow) (root : TreeNode) :
  (forall row, In row data -> keepRow row = true ->
               exists z, vmsize row = VNum z /\ 0 <= z) ->
  processFile localeCompare fuel data = Some root ->
  forall path key child,
    nodeAt root (path ++ [key]) = Some child ->
    exists parent,
      nodeAt root path = Some parent
      /\ mapGet (children parent) key = Some child
      /\ 0 <= sizeZ (size child) <= sizeZ (size parent)
      /\ forall minSize,
           js_ge (size child) minSize = true ->
           js_ge (size parent) minSize = true.
Proof.
  intros Hnum Hroot path key child Hchild.
  assert (Hnum' : forall row, In row data -> keepRow row = true ->
                              exists z, vmsize row = VNum z).
  { intros row Hin Hk. destruct (Hnum row Hin Hk) as [z [Hz _]]. now exists z. }
  unfold processFile in Hroot.
  destruct (fold_left (insertSymbol fuel) (dedup (normalize localeCompare data))
              (Some emptyRoot)) as [tree|] eqn:Hfold; [|discriminate Hroot].
  injection Hroot as <-.
  destruct (insertAll_sizes fuel _ [] emptyRoot tree
              (dedup_numeric _ (normalize_numeric localeCompare data Hnum'))
              eq_refl eq_refl (emptyRoot_sizes fuel) Hfold) as [Hn Hagree].
  pose proof (sizesAgree_calculateTotalSize fuel tree _ Hn Hagree) as Hsizes.
  cbn [app] in Hsizes.
  destruct (nodeAt_app path key _ child Hchild) as [parent [Hparent Hget]].
  exists parent. split; [exact Hparent|]. split; [exact Hget|].
  pose proof (Hsizes path) as Hp. rewrite Hparent in Hp.
  pose proof (Hsizes (path ++ [key])%list) as Hc. rewrite Hchild in Hc.
  assert (Hnn : Forall (fun rec => nonnegRow rec = true)
                  (dedup (normalize localeCompare data))).
  { apply dedup_nonneg. apply Forall_forall. intros row Hin.
    apply (Permutation_in _ (sortBy_perm (compareRows localeCompare) _)) in Hin.
    apply filter_In in Hin as [Hin Hkeep].
    destruct (Hnum row Hin Hkeep) as [z [Hz Hpos]]. unfold nonnegRow.
    rewrite Hz. now apply Z.leb_le. }
  pose proof (sum_filter_le (passes fuel (path ++ [key])) (passes fuel path)
                _ Hnn (passes_parent fuel path key)) as Hle.
  fold (sizesAt fuel (path ++ [key]) (dedup (normalize localeCompare data))) in Hle.
  fold (sizesAt fuel path (dedup (normalize localeCompare data))) in Hle.
  rewrite Hp, Hc. cbn [sizeZ]. split; [exact Hle|].
  intros minSize. unfold js_ge. cbn [toNumber].
  intros H. apply Z.leb_le in H. apply Z.leb_le. lia.
Qed.

Lemma processFile_parent_size_witness :
  exists parent,
    nodeAt sampleHierarchy ["x"] = Some parent
    /\ mapGet (children parent) "foo" = nodeAt sampleHierarchy ["x"; "foo"]
    /\ forall minSize,
         js_ge (VNum 10) minSize = true ->
         js_ge (size parent) minSize = true.
Proof.
  destruct (processFile_parent_size codeUnitCompare 2 sampleRows sampleHierarchy)
    with (path := ["x"]) (key := "foo")
         (child := mkNode "foo" (VNum 10) [] (VStr "x::foo") (VStr "x.foo") (VNum 0))
    as [parent (Hp & Hc & _ & Hge)].
  - intros row Hin _. cbn in Hin.
    destruct Hin as [<- | [<- | [<- | []]]]; eexists; split;
      try reflexivity; lia.
  - reflexivity.
  - reflexivity.
  - exists parent. split; [exact Hp|]. split; [exact Hc|]. exact Hge.
Defined.

(** ** The statistics bar *)

Lemma leavesOf_unfold (n : TreeNode) :
  leavesOf n =
  match children n with
  | [] => [n]
  | _ :: _ => flat_map (fun kc : string * TreeNode => leavesOf (snd kc)) (children n)
  end.
Proof.
  destruct n as [nm sz kids fp os inst]. cbn [leavesOf children].
  destruct kids as [|kc kids]; [reflexivity|].
  apply flat_map_ext. now intros [k c].
Qed.

Lemma calculateStats_unfold (state : dict StatsBar.CategoryStats * Z)
  (n : TreeNode) :
  StatsBar.calculateStats state n =
  match children n with
  | [] => StatsBar.countLeaf state n
  | _ :: _ =>
      fold_left (fun state (kc : string * TreeNode) =>
                   StatsBar.calculateStats state (snd kc)) (children n) state
  end.
Proof.
  destruct n as [nm sz kids fp os inst]. cbn [StatsBar.calculateStats children].
  destruct kids as [|kc kids]; [reflexivity|].
  generalize (kc :: kids). intros l. revert state.
  induction l as [|[k c] l IH]; intros state; [reflexivity|]. cbn. apply IH.
Qed.

(** The traversal visits the nodes without children, left to right. *)
Lemma calculateStats_leaves (n : TreeNode) :
  forall state,
    StatsBar.calculateStats state n
    = fold_left StatsBar.countLeaf (leavesOf n) state.
Proof.
  induction n as [nm sz kids fp os inst IH] using TreeNode_induction.
  intros state. rewrite calculateStats_unfold, leavesOf_unfold. cbn [children].
  destruct kids as [|kc kids]; [reflexivity|].
  revert state. induction IH as [|kc' l Hkc _ IHl]; intros state; [reflexivity|].
  cbn [fold_left flat_map]. rewrite fold_left_app, Hkc. apply IHl.
Qed.

Lemma leavesOf_nonempty (n : TreeNode) : leavesOf n <> [].
Proof.
  induction n as [nm sz kids fp os inst IH] using TreeNode_induction.
  rewrite leavesOf_unfold. cbn [children].
  destruct kids as [|[k c] kids]; [discriminate|].
  apply Forall_cons_iff in IH as [Hc _]. cbn [flat_map snd] in *.
  destruct (leavesOf c); [contradiction | discriminate].
Qed.

Lemma categoryName_inj (a b : Category) :
  StatsBar.categoryName a = StatsBar.categoryName b -> a = b.
Proof. destruct a, b; intros H; try reflexivity; discriminate H. Qed.

Lemma statFor_countLeaf (stats : dict StatsBar.CategoryStats) (total : Z)
  (leaf : TreeNode) (c : Category) :
  StatsBar.statFor (fst (StatsBar.countLeaf (stats, total) leaf)) c =
  if Category_eqb (leafCategory leaf) c
  then StatsBar.mkStats
         (js_add (StatsBar.stat_size (StatsBar.statFor stats c)) (size leaf))
         (StatsBar.stat_count (StatsBar.statFor stats c) + 1)
         (StatsBar.stat_percentage (StatsBar.statFor stats c))
  else StatsBar.statFor stats c.
Proof.
  unfold StatsBar.countLeaf, StatsBar.statFor. cbn [fst].
  fold (leafCategory leaf).
  destruct (Category_eqb (leafCategory leaf) c) eqn:E.
  - apply Category_eqb_eq in E. subst c. now rewrite mapGet_mapSet_same.
  - rewrite mapGet_mapSet_other; [reflexivity|].
    intros H. apply categoryName_inj in H. subst c.
    now rewrite Category_eqb_refl in E.
Qed.

Lemma fold_countLeaf (leaves : list TreeNode) :
  forall stats total,
    let state := fold_left StatsBar.countLeaf leaves (stats, total) in
    snd state = total + Z.of_nat (List.length leaves)
    /\ (forall c,
          StatsBar.stat_count (StatsBar.statFor (fst state) c) =
          StatsBar.stat_count (StatsBar.statFor stats c)
          + Z.of_nat (List.length (filter (fun leaf => Category_eqb (leafCategory leaf) c)
                                     leaves)))
    /\ (Forall (fun leaf => isNum (size leaf) = true) leaves ->
        forall c z,
          StatsBar.stat_size (StatsBar.statFor stats c) = VNum z ->
          StatsBar.stat_size (StatsBar.statFor (fst state) c) =
          VNum (z + leafSizes (filter (fun leaf => Category_eqb (leafCategory leaf) c)
                                      leaves))).
Proof.
  induction leaves as [|leaf leaves IH]; intros stats total.
  - cbn. split; [lia|]. split; [intros c; lia|].
    intros _ c z ->. f_equal. unfold leafSizes. cbn. lia.
  - cbn [fold_left]. cbv zeta.
    destruct (StatsBar.countLeaf (stats, total) leaf) as [stats1 total1] eqn:E.
    pose proof (statFor_countLeaf stats total leaf) as Hstat.
    rewrite E in Hstat. cbn [fst] in Hstat.
    assert (Htotal : total1 = total + 1)
      by (unfold StatsBar.countLeaf in E; now injection E as _ <-).
    destruct (IH stats1 total1) as (Hn & Hcount & Hsize).
    split; [rewrite Hn, Htotal; cbn [List.length]; lia|].
    split.
    + intros c. rewrite Hcount, Hstat. cbn [filter].
      destruct (Category_eqb (leafCategory leaf) c); cbn [StatsBar.stat_count List.length];
        lia.
    + intros Hall c z Hz. apply Forall_cons_iff in Hall as [Hleaf Hall].
      cbn [filter]. destruct (Category_eqb (leafCategory leaf) c) eqn:Ec.
      * destruct (size leaf) as [| | | |s|] eqn:Es; try discriminate Hleaf.
        rewrite (Hsize Hall c (z + s)).
        -- f_equal. unfold leafSizes, sumZ. cbn [map fold_right]. rewrite Es.
           cbn [sizeZ]. lia.
        -- rewrite Hstat, Ec. cbn [StatsBar.stat_size]. now rewrite Hz.
      * apply (Hsize Hall c z). now rewrite Hstat, Ec.
Qed.

Lemma category_partition (g : TreeNode -> Z) (leaves : list TreeNode) :
  sumZ (map (fun c => sumZ (map g (filter (fun leaf => Category_eqb (leafCategory leaf) c)
                                          leaves))) buttons)
  = sumZ (map g leaves).
Proof.
  unfold buttons, sumZ. cbn [map fold_right].
  induction leaves as [|leaf leaves IH]; [reflexivity|].
  cbn [filter map fold_right].
  destruct (leafCategory leaf); cbn [Category_eqb map fold_right]; lia.
Qed.

(** X8. The statistics bar counts the nodes without children: [totalCount]
    is their number, which is at least one (an empty hierarchy counts as one
    symbol, of the category of its own [originalSymbol]); the count of a
    button is the number of such nodes whose [originalSymbol] is of the
    button's category; and the counts of the five buttons add up to
    [totalCount]. *)
Theorem calculateStats_counts (hierarchy : TreeNode) :
  snd (statsOf hierarchy) = Z.of_nat (List.length (leavesOf hierarchy))
  /\ 1 <= snd (statsOf hierarchy)
  /\ (forall c,
        StatsBar.stat_count (StatsBar.statFor (fst (statsOf hierarchy)) c)
        = Z.of_nat (List.length (leavesIn c hierarchy)))
  /\ sumZ (map (fun c => StatsBar.stat_count
                           (StatsBar.statFor (fst (statsOf hierarchy)) c))
               buttons)
     = snd (statsOf hierarchy).
Proof.
  unfold statsOf. rewrite calculateStats_leaves.
  destruct (fold_countLeaf (leavesOf hierarchy) ([] : dict StatsBar.CategoryStats) 0) as (Hn & Hcount & _).
  cbv zeta in Hn, Hcount.
  assert (Hc : forall c,
             StatsBar.stat_count
               (StatsBar.statFor
                  (fst (fold_left StatsBar.countLeaf (leavesOf hierarchy)
                          (([] : dict StatsBar.CategoryStats), 0))) c)
             = Z.of_nat (List.length (leavesIn c hierarchy))).
  { intros c. rewrite Hcount. unfold leavesIn. now destruct c. }
  split; [rewrite Hn; lia|]. split.
  { rewrite Hn. pose proof (leavesOf_nonempty hierarchy).
    destruct (leavesOf hierarchy); [contradiction | cbn [List.length]; lia]. }
  split; [exact Hc|].
  rewrite (map_ext _ (fun c => Z.of_nat (List.length (leavesIn c hierarchy))) Hc), Hn.
  unfold leavesIn.
  pose proof (category_partition (fun _ => 1) (leavesOf hierarchy)) as Hp.
  assert (Hlen : forall l : list TreeNode,
             sumZ (map (fun _ => 1) l) = Z.of_nat (List.length l)).
  { induction l as [|a l IHl]; [reflexivity|].
    cbn [map List.length]. unfold sumZ in *. cbn [fold_right]. lia. }
  rewrite Hlen in Hp. rewrite <- Hp. cbn [Z.add]. f_equal.
  apply map_ext. intros c. now rewrite Hlen.
Qed.

Lemma statFor_size (hierarchy : TreeNode) :
  Forall (fun leaf => isNum (size leaf) = true) (leavesOf hierarchy) ->
  forall c,
    StatsBar.stat_size (StatsBar.statFor (fst (statsOf hierarchy)) c)
    = VNum (leafSizes (leavesIn c hierarchy)).
Proof.
  intros Hnum c. unfold statsOf. rewrite calculateStats_leaves.
  destruct (fold_countLeaf (leavesOf hierarchy)
              ([] : dict StatsBar.CategoryStats) 0) as (_ & _ & Hsize).
  cbv zeta in Hsize. rewrite (Hsize Hnum c 0) by now destruct c. reflexivity.
Qed.

Lemma buttons_sizes (hierarchy : TreeNode) :
  Forall (fun leaf => isNum (size leaf) = true) (leavesOf hierarchy) ->
  sumZ (map (fun c => sizeZ (StatsBar.stat_size
                               (StatsBar.statFor (fst (statsOf hierarchy)) c)))
            buttons)
  = leafSizes (leavesOf hierarchy).
Proof.
  intros Hnum.
  rewrite (map_ext _ (fun c => leafSizes (leavesIn c hierarchy)))
    by (intros c; now rewrite statFor_size).
  apply (category_partition (fun leaf => sizeZ (size leaf))).
Qed.

(** X9. When the nodes without children have numeric sizes, the size of a
    button is the sum of the sizes of those of its category, and the sizes
    of the five buttons add up to the sum over all of them. *)
Theorem calculateStats_sizes (hierarchy : TreeNode) :
  Forall (fun leaf => isNum (size leaf) = true) (leavesOf hierarchy) ->
  (forall c,
     StatsBar.stat_size (StatsBar.statFor (fst (statsOf hierarchy)) c)
     = VNum (leafSizes (leavesIn c hierarchy)))
  /\ sumZ (map (fun c => sizeZ (StatsBar.stat_size
                                  (StatsBar.statFor (fst (statsOf hierarchy)) c)))
               buttons)
     = leafSizes (leavesOf hierarchy).
Proof.
  intros Hnum. split; [exact (statFor_size hierarchy Hnum)|].
  exact (buttons_sizes hierarchy Hnum).
Qed.

Lemma calculateStats_sizes_witness :
  StatsBar.stat_size (StatsBar.statFor (fst (statsOf sampleHierarchy)) Zig)
  = VNum 35
  /\ StatsBar.stat_size (StatsBar.statFor (fst (statsOf sampleHierarchy)) CPP)
     = VNum 0.
Proof.
  destruct (calculateStats_sizes sampleHierarchy) as [Hs _].
  - repeat constructor.
  - split; [exact (Hs Zig) | exact (Hs CPP)].
Defined.

(** ** The buttons never show more than the whole *)

Lemma nonnegTree_unfold (n : TreeNode) :
  nonnegTree n =
  match size n with VNum z => 0 <=? z | _ => false end
  && forallb (fun kc : string * TreeNode => nonnegTree (snd kc)) (children n).
Proof.
  destruct n as [nm sz kids fp os inst]. cbn. f_equal.
  induction kids as [|[k c] kids IH]; cbn; [reflexivity | now rewrite IH].
Qed.

Lemma nonnegTree_numeric (n : TreeNode) :
  nonnegTree n = true -> numericTree n = true.
Proof.
  induction n as [nm sz kids fp os inst IH] using TreeNode_induction.
  rewrite nonnegTree_unfold, numericTree_unfold. cbn [size children].
  intros H. apply andb_true_iff in H as [Hs Hk].
  apply andb_true_iff. split; [now destruct sz|].
  rewrite forallb_forall in *. rewrite Forall_forall in IH.
  intros kc Hin. apply IH; [exact Hin | now apply Hk].
Qed.

Lemma nonnegTree_setChild (n : TreeNode) (k : string) (child : TreeNode) :
  nonnegTree n = true -> nonnegTree child = true ->
  nonnegTree (setChild n k child) = true.
Proof.
  rewrite (nonnegTree_unfold n), (nonnegTree_unfold (setChild n k child)).
  intros Hn Hc. apply andb_true_iff in Hn as [Hs Hk].
  destruct n as [nm sz kids fp os inst]. cbn [setChild size children] in *.
  rewrite Hs. cbn [andb]. now apply forallb_mapSet.
Qed.

Lemma nonnegTree_arrive (rest : list string) (symbol : CSVRow) (child : TreeNode) :
  nonnegRow symbol = true -> nonnegTree child = true ->
  nonnegTree (arrive rest symbol child) = true.
Proof.
  intros Hrow Hc. destruct rest; [|exact Hc]. cbn [arrive].
  rewrite nonnegTree_unfold in *. apply andb_true_iff in Hc as [Hs Hk].
  destruct child as [nm sz kids fp os inst]. cbn [addRecord size children] in *.
  rewrite Hk, andb_true_r. unfold nonnegRow in Hrow.
  destruct sz; try discriminate Hs. destruct (vmsize symbol); try discriminate Hrow.
  cbn. apply Z.leb_le in Hs, Hrow. apply Z.leb_le. lia.
Qed.

Lemma insertParts_nonneg (parts : list string) :
  forall path symbol current,
    nonnegRow symbol = true -> nonnegTree current = true ->
    nonnegTree (insertParts parts path symbol current) = true.
Proof.
  induction parts as [|part rest IH]; intros path symbol current Hrow Hc.
  - exact Hc.
  - destruct (isEmpty part) eqn:Hne.
    + cbn [insertParts]. rewrite Hne. now apply IH.
    + rewrite insertParts_cons by exact Hne.
      destruct (mapGet (children current) part) as [child|] eqn:E.
      * apply nonnegTree_setChild; [exact Hc|].
        apply IH; [exact Hrow|]. apply nonnegTree_arrive; [exact Hrow|].
        rewrite nonnegTree_unfold in Hc. apply andb_true_iff in Hc as [_ Hk].
        exact (forallb_mapGet _ _ _ _ Hk E).
      * destruct (inherited part); [exact Hc|].
        apply nonnegTree_setChild; [exact Hc|].
        apply IH; [exact Hrow|]. now apply nonnegTree_arrive.
Qed.

Lemma insertAll_nonneg (fuel : nat) (recs : list CSVRow) :
  forall root0 root,
    Forall (fun rec => nonnegRow rec = true) recs ->
    nonnegTree root0 = true ->
    fold_left (insertSymbol fuel) recs (Some root0) = Some root ->
    nonnegTree root = true.
Proof.
  induction recs as [|rec recs IH]; intros root0 root Hall Hnn Hfold.
  - cbn in Hfold. now injection Hfold as <-.
  - apply Forall_cons_iff in Hall as [Hrec Hall]. cbn [fold_left] in Hfold.
    unfold insertSymbol at 2 in Hfold.
    destruct (processSymbol fuel (textOf (symbols rec))) as [parts|];
      [|rewrite fold_insertSymbol_None in Hfold; discriminate Hfold].
    apply (IH _ root Hall (insertParts_nonneg _ _ _ _ Hrec Hnn) Hfold).
Qed.

Lemma children_calculateTotalSize (n : TreeNode) :
  children (calculateTotalSize n) =
  map (fun kc : string * TreeNode => (fst kc, calculateTotalSize (snd kc)))
      (children n).
Proof. now rewrite calculateTotalSize_unfold. Qed.

Lemma sumZ_app (a b : list Z) : sumZ (a ++ b) = sumZ a + sumZ b.
Proof.
  unfold sumZ. induction a as [|x a IH]; cbn; [reflexivity | rewrite IH; lia].
Qed.

(** After the aggregation pass the nodes without children hold numbers that
    are not negative and add up to no more than the whole. *)
Lemma leaves_bound (n : TreeNode) :
  nonnegTree n = true ->
  Forall (fun leaf => isNum (size leaf) = true) (leavesOf (calculateTotalSize n))
  /\ 0 <= leafSizes (leavesOf (calculateTotalSize n)) <= ownTotal n.
Proof.
  induction n as [nm sz kids fp os inst IH] using TreeNode_induction.
  intros Hnn. pose proof (nonnegTree_numeric _ Hnn) as Hnum.
  pose proof (calculateTotalSize_size _ Hnum) as Hsize.
  rewrite leavesOf_unfold, children_calculateTotalSize.
  rewrite nonnegTree_unfold in Hnn. cbn [size children] in Hnn.
  apply andb_true_iff in Hnn as [Hs Hk].
  destruct sz as [| | | |z|]; try discriminate Hs. apply Z.leb_le in Hs.
  rewrite ownTotal_unfold in *. cbn [size children sizeZ] in *.
  destruct kids as [|kc kids].
  - cbn [map]. split; [constructor; [now rewrite Hsize | constructor]|].
    unfold leafSizes, sumZ. cbn [map fold_right]. rewrite Hsize.
    cbn [sizeZ map fold_right]. unfold sumZ. cbn [fold_right]. lia.
  - clear Hsize Hnum.
    assert (G : Forall (fun leaf => isNum (size leaf) = true)
                  (flat_map (fun kc : string * TreeNode => leavesOf (snd kc))
                     (map (fun kc : string * TreeNode =>
                             (fst kc, calculateTotalSize (snd kc))) (kc :: kids)))
                /\ 0 <= leafSizes
                          (flat_map (fun kc : string * TreeNode => leavesOf (snd kc))
                             (map (fun kc : string * TreeNode =>
                                     (fst kc, calculateTotalSize (snd kc)))
                                  (kc :: kids)))
                     <= sumZ (map (fun kc : string * TreeNode => ownTotal (snd kc))
                                  (kc :: kids))).
    { revert IH Hk. generalize (kc :: kids). intros l IH Hk.
      induction IH as [|kc' l Hkc _ IHl].
      - cbn. split; [constructor | unfold leafSizes, sumZ; cbn; lia].
      - cbn [forallb] in Hk. apply andb_true_iff in Hk as [Hc Hk].
        destruct (Hkc Hc) as [Hf1 Hb1]. destruct (IHl Hk) as [Hf2 Hb2].
        cbn [map flat_map snd]. split; [apply Forall_app; now split|].
        unfold leafSizes in *. rewrite map_app, sumZ_app.
        change (sumZ (ownTotal (snd kc') ::
                      map (fun kc : string * TreeNode => ownTotal (snd kc)) l))
          with (ownTotal (snd kc')
                + sumZ (map (fun kc : string * TreeNode => ownTotal (snd kc)) l)).
        lia. }
    destruct G as [G1 G2]. cbn [map] in G1, G2 |- *. split; [exact G1 | lia].
Qed.

(** X10. When the kept rows have sizes that are numbers and not negative,
    the sizes of the five buttons of the statistics bar are not negative and
    add up to no more than the size of the hierarchy: the sum of the nodes
    without children, which leaves out what records ending at inner nodes
    contribute. *)
Theorem processFile_stats_bound (localeCompare : string -> string -> Z)
  (fuel : nat) (data : list CSVRow) (root : TreeNode) :
  (forall row, In row data -> keepRow row = true ->
               exists z, vmsize row = VNum z /\ 0 <= z) ->
  processFile localeCompare fuel data = Some root ->
  sumZ (map (fun c => sizeZ (StatsBar.stat_size
                               (StatsBar.statFor (fst (statsOf root)) c)))
            buttons)
  = leafSizes (leavesOf root)
  /\ 0 <= leafSizes (leavesOf root) <= sizeZ (size root).
Proof.
  intros Hnum Hroot. unfold processFile in Hroot.
  destruct (fold_left (insertSymbol fuel) (dedup (normalize localeCompare data))
              (Some emptyRoot)) as [tree|] eqn:Hfold; [|discriminate Hroot].
  injection Hroot as <-.
  assert (Hnn : Forall (fun rec => nonnegRow rec = true)
                  (dedup (normalize localeCompare data))).
  { apply dedup_nonneg. apply Forall_forall. intros row Hin.
    apply (Permutation_in _ (sortBy_perm (compareRows localeCompare) _)) in Hin.
    apply filter_In in Hin as [Hin Hkeep].
    destruct (Hnum row Hin Hkeep) as [z [Hz Hpos]]. unfold nonnegRow.
    rewrite Hz. now apply Z.leb_le. }
  pose proof (insertAll_nonneg fuel _ emptyRoot tree Hnn eq_refl Hfold) as Htree.
  destruct (leaves_bound tree Htree) as [Hleaves Hbound].
  split.
  - exact (buttons_sizes (calculateTotalSize tree) Hleaves).
  - rewrite (calculateTotalSize_size tree (nonnegTree_numeric _ Htree)).
    exact Hbound.
Qed.

Lemma processFile_stats_bound_witness :
  sumZ (map (fun c => sizeZ (StatsBar.stat_size
                               (StatsBar.statFor (fst (statsOf sampleHierarchy)) c)))
            buttons)
  = leafSizes (leavesOf sampleHierarchy)
  /\ 0 <= leafSizes (leavesOf sampleHierarchy) <= sizeZ (size sampleHierarchy).
Proof.
  apply (processFile_stats_bound codeUnitCompare 2 sampleRows sampleHierarchy).
  - intros row Hin _. cbn in Hin.
    destruct Hin as [<- | [<- | [<- | []]]]; eexists; split;
      try reflexivity; lia.
  - reflexivity.
Defined.

(** ** The labels of the nodes *)

Lemma labelOf_arrive (rest : list string) (symbol : CSVRow) (child : TreeNode) :
  labelOf (arrive rest symbol child) = labelOf child.
Proof. destruct rest, child; reflexivity. Qed.

Lemma labelOf_setChild (n : TreeNode) (k : string) (child : TreeNode) :
  labelOf (setChild n k child) = labelOf n.
Proof. now destruct n. Qed.

(** The walk never relabels the node it starts from. *)
Lemma labelOf_insertParts (parts : list string) :
  forall path symbol current,
    labelOf (insertParts parts path symbol current) = labelOf current.
Proof.
  induction parts as [|part rest IH]; intros path symbol current; [reflexivity|].
  destruct (isEmpty part) eqn:Hne.
  - cbn [insertParts]. rewrite Hne. apply IH.
  - rewrite insertParts_cons by exact Hne.
    destruct (mapGet (children current) part); [apply labelOf_setChild|].
    destruct (inherited part); [reflexivity | apply labelOf_setChild].
Qed.

Lemma labelAt_setChild (n : TreeNode) (k key : string) (child : TreeNode)
  (path : list string) :
  labelAt (setChild n k child) (key :: path) =
  if String.eqb k key then labelAt child path else labelAt n (key :: path).
Proof.
  unfold labelAt. rewrite nodeAt_setChild. now destruct (String.eqb k key).
Qed.

Lemma labelAt_child (n : TreeNode) (key : string) (path : list string) :
  labelAt n (key :: path) =
  match mapGet (children n) key with
  | Some child => labelAt child path
  | None => None
  end.
Proof. unfold labelAt. cbn [nodeAt]. now destruct (mapGet (children n) key). Qed.

Lemma labelAt_arrive (rest : list string) (symbol : CSVRow) (child : TreeNode)
  (key : string) (path : list string) :
  labelAt (arrive rest symbol child) (key :: path) = labelAt child (key :: path).
Proof. destruct rest, child; reflexivity. Qed.

(** What one record does to the label along [path]: a node that is there
    keeps its label, and a node appears exactly when the record reaches
    [path]. *)
Lemma insertParts_labelAt (parts : list string) :
  forallb nonEmpty parts = true ->
  forall pathKey symbol current path,
    path <> [] -> ownKeysOnly current = true ->
    labelAt (insertParts parts pathKey symbol current) path =
    match labelAt current path with
    | Some label => Some label
    | None =>
        if prefixb path parts && stays path
        then Some (last path "", VStr (joinFrom pathKey path), symbols symbol)
        else None
    end.
Proof.
  induction parts as [|part rest IH];
    intros Hne pathKey symbol current path Hpath Hown.
  - cbn [insertParts]. destruct path as [|key p]; [contradiction|].
    cbn [prefixb andb]. now destruct (labelAt current (key :: p)).
  - destruct path as [|key p]; [contradiction|]. clear Hpath.
    cbn [forallb] in Hne. apply andb_true_iff in Hne as [Hpart Hrest].
    unfold nonEmpty in Hpart. apply negb_true_iff in Hpart.
    rewrite insertParts_cons by exact Hpart.
    cbn [prefixb stays forallb]. fold (stays p).
    rewrite (String.eqb_sym key part).
    assert (Hsub : forall child,
              ownKeysOnly child = true ->
              labelAt (insertParts rest (extendPath pathKey part) symbol
                         (arrive rest symbol child)) p =
              match labelAt child p with
              | Some label => Some label
              | None =>
                  if prefixb p rest && stays p
                  then Some (last (part :: p) "",
                             VStr (joinFrom pathKey (part :: p)), symbols symbol)
                  else None
              end).
    { intros child Hco. destruct p as [|k p'].
      - unfold labelAt. cbn [nodeAt option_map].
        now rewrite labelOf_insertParts, labelOf_arrive.
      - rewrite (IH Hrest _ _ _ (k :: p')) by
          (try discriminate; now apply ownKeysOnly_arrive).
        rewrite labelAt_arrive. reflexivity. }
    destruct (mapGet (children current) part) as [child|] eqn:E.
    + destruct (ownKeysOnly_child _ _ _ Hown E) as [Hk Hc].
      rewrite labelAt_setChild.
      destruct (String.eqb part key) eqn:Ek; cbn [andb];
        [|now destruct (labelAt current (key :: p))].
      apply String.eqb_eq in Ek. subst key.
      rewrite (labelAt_child current), E, Hk. cbn [negb andb].
      now apply Hsub.
    + destruct (inherited part) eqn:Hk.
      * destruct (String.eqb part key) eqn:Ek; cbn [andb];
          [|now destruct (labelAt current (key :: p))].
        apply String.eqb_eq in Ek. subst key.
        rewrite (labelAt_child current), E, Hk. cbn [negb andb].
        now rewrite andb_false_r.
      * rewrite labelAt_setChild.
        destruct (String.eqb part key) eqn:Ek; cbn [andb];
          [|now destruct (labelAt current (key :: p))].
        apply String.eqb_eq in Ek. subst key.
        rewrite (labelAt_child current), E, Hk. cbn [negb andb].
        rewrite (Hsub (newNode part (extendPath pathKey part) symbol) eq_refl).
        destruct p as [|k p']; reflexivity.
Qed.

Lemma labelsAgree_step (fuel : nat) (tree : TreeNode) (recs : list CSVRow)
  (rec : CSVRow) (parts : list string) :
  ownKeysOnly tree = true ->
  labelsAgree fuel tree recs ->
  processSymbol fuel (textOf (symbols rec)) = Some parts ->
  labelsAgree fuel (insertParts parts "" rec tree) (recs ++ [rec]).
Proof.
  intros Hown Hagree Hparts path Hpath.
  destruct (processSymbol_splitSymbol _ _ _ Hparts) as [rest Hrest].
  rewrite Hrest, insertParts_segments.
  rewrite (insertParts_labelAt (segmentsOf (splitSymbol rest))
             (forallb_filter _ _) "" rec tree path Hpath Hown).
  rewrite (Hagree path Hpath). unfold firstReaching. rewrite filter_snoc.
  assert (Hreach : reaches fuel path rec =
                   prefixb path (segmentsOf (splitSymbol rest)) && stays path).
  { unfold reaches. now rewrite Hparts, Hrest. }
  rewrite <- Hreach.
  destruct (filter (reaches fuel path) recs) as [|r l]; [|reflexivity].
  cbn [hd_error option_map app]. now destruct (reaches fuel path rec).
Qed.

Lemma insertAll_labels (fuel : nat) (recs : list CSVRow) :
  forall done root0 root,
    ownKeysOnly root0 = true ->
    labelsAgree fuel root0 done ->
    fold_left (insertSymbol fuel) recs (Some root0) = Some root ->
    labelsAgree fuel root (done ++ recs).
Proof.
  induction recs as [|rec recs IH]; intros done root0 root Hown Hagree Hfold.
  - cbn in Hfold. injection Hfold as <-. now rewrite app_nil_r.
  - cbn [fold_left] in Hfold. unfold insertSymbol at 2 in Hfold.
    destruct (processSymbol fuel (textOf (symbols rec))) as [parts|] eqn:Hparts;
      [|rewrite fold_insertSymbol_None in Hfold; discriminate Hfold].
    replace (done ++ rec :: recs)%list with ((done ++ [rec]) ++ recs)%list
      by (now rewrite <- app_assoc).
    apply (IH _ (insertParts parts "" rec root0) root
             (insertParts_ownKeysOnly _ _ _ _ Hown)
             (labelsAgree_step fuel root0 done rec parts Hown Hagree Hparts)
             Hfold).
Qed.

Lemma labelAt_calculateTotalSize (n : TreeNode) (path : list string) :
  labelAt (calculateTotalSize n) path = labelAt n path.
Proof.
  unfold labelAt. rewrite nodeAt_calculateTotalSize.
  destruct (nodeAt n path) as [node|]; [|reflexivity]. cbn [option_map].
  now rewrite calculateTotalSize_unfold.
Qed.

Lemma append_assoc (a b c : string) : ((a ++ b) ++ c = a ++ (b ++ c))%string.
Proof. induction a as [|x a IH]; cbn; [reflexivity | now rewrite IH]. Qed.

Lemma joinFrom_concat (parts : list string) :
  forallb nonEmpty parts = true ->
  forall path,
    joinFrom path parts =
    match parts with
    | [] => path
    | _ :: _ =>
        if isEmpty path then String.concat "::" parts
        else (path ++ "::" ++ String.concat "::" parts)%string
    end.
Proof.
  induction parts as [|part rest IH]; intros Hne path; [reflexivity|].
  cbn [forallb] in Hne. apply andb_true_iff in Hne as [Hpart Hrest].
  unfold joinFrom in *. cbn [fold_left]. rewrite (IH Hrest).
  destruct rest as [|r rest']; [reflexivity|].
  assert (Hext : isEmpty (extendPath path part) = false).
  { unfold extendPath. destruct path; [|reflexivity].
    cbn. now apply negb_true_iff in Hpart. }
  rewrite Hext. unfold extendPath.
  destruct path as [|c path]; cbn [isEmpty]; [reflexivity|].
  change (String.concat "::" (part :: r :: rest'))
    with (part ++ "::" ++ String.concat "::" (r :: rest'))%string.
  now rewrite !append_assoc.
Qed.

Lemma prefixb_nonEmpty (p q : list string) :
  prefixb p q = true -> forallb nonEmpty q = true -> forallb nonEmpty p = true.
Proof.
  revert q. induction p as [|a p IH]; intros q Hp Hq; [reflexivity|].
  destruct q as [|b q]; [discriminate Hp|]. cbn in *.
  apply andb_true_iff in Hp as [Hab Hp]. apply andb_true_iff in Hq as [Hb Hq].
  apply String.eqb_eq in Hab. subst b. now rewrite Hb, (IH q).
Qed.

Lemma reaches_nonEmpty (fuel : nat) (path : list string) (rec : CSVRow) :
  reaches fuel path rec = true ->
  forallb nonEmpty path = true /\ stays path = true.
Proof.
  unfold reaches.
  destruct (processSymbol fuel (textOf (symbols rec))); [|discriminate].
  intros H. apply andb_true_iff in H as [Hp Hs]. split; [|exact Hs].
  apply (prefixb_nonEmpty _ _ Hp). apply forallb_filter.
Qed.

Lemma firstReaching_reaches (fuel : nat) (path : list string)
  (recs : list CSVRow) (rec : CSVRow) :
  firstReaching fuel path recs = Some rec ->
  In rec recs /\ reaches fuel path rec = true.
Proof.
  unfold firstReaching. intros H.
  destruct (filter (reaches fuel path) recs) as [|r l] eqn:E; [discriminate H|].
  injection H as ->. apply filter_In. rewrite E. now left.
Qed.

Lemma processFile_labelsAgree (localeCompare : string -> string -> Z)
  (fuel : nat) (data : list CSVRow) (root : TreeNode) :
  processFile localeCompare fuel data = Some root ->
  labelsAgree fuel root (dedup (normalize localeCompare data)).
Proof.
  unfold processFile. intros Hroot.
  destruct (fold_left (insertSymbol fuel) (dedup (normalize localeCompare data))
              (Some emptyRoot)) as [tree|] eqn:Hfold; [|discriminate Hroot].
  injection Hroot as <-. intros path Hpath.
  rewrite labelAt_calculateTotalSize.
  apply (insertAll_labels fuel _ [] emptyRoot tree eq_refl); [|exact Hfold|exact Hpath].
  intros [|k p] Hp; [contradiction | reflexivity].
Qed.

(** X11. Take an upload whose kept rows have numeric sizes, under a
    collation that is an order (so that the rows are inserted in the order
    of the model), none of whose collapsed records has the segment
    [__proto__] (so that no walk stores on [Object.prototype]). In the
    hierarchy the handler returns there is a node along a non-empty path
    exactly when a collapsed record reaches it; the node is named after the
    last segment of the path, its [fullPath] is the segments of the path
    joined by [::], and its [originalSymbol] is the name of the first
    record, in the order of the collapsed records, that reaches it: later
    records never relabel a node. *)
Theorem processFile_labels (localeCompare : string -> string -> Z)
  (fuel : nat) (data : list CSVRow) (root : TreeNode) :
  (forall a b, 0 < localeCompare a b -> localeCompare b a <= 0) ->
  (forall a b c, localeCompare a b <= 0 -> localeCompare b c <= 0 ->
                 localeCompare a c <= 0) ->
  (forall row, In row data -> keepRow row = true -> exists z, vmsize row = VNum z) ->
  (forall rec, In rec (dedup (normalize localeCompare data)) ->
               offPrototype fuel rec = true) ->
  processFile localeCompare fuel data = Some root ->
  forall path,
    path <> [] ->
    match nodeAt root path with
    | Some node =>
        name node = last path ""
        /\ fullPath node = VStr (String.concat "::" path)
        /\ exists rec,
             firstReaching fuel path (dedup (normalize localeCompare data))
             = Some rec
             /\ originalSymbol node = symbols rec
    | None =>
        forall rec, In rec (dedup (normalize localeCompare data)) ->
                    reaches fuel path rec = false
    end.
Proof.
  intros _ _ _ _ Hroot path Hpath.
  pose proof (processFile_labelsAgree _ _ _ _ Hroot path Hpath) as H.
  unfold labelAt in H.
  destruct (nodeAt root path) as [node|]; cbn [option_map] in H.
  - destruct (firstReaching fuel path (dedup (normalize localeCompare data)))
      as [rec|] eqn:Hfirst; [|discriminate H].
    cbn [option_map] in H. unfold labelOf in H. injection H as Hn Hf Ho.
    destruct (firstReaching_reaches _ _ _ _ Hfirst) as [_ Hreach].
    destruct (reaches_nonEmpty _ _ _ Hreach) as [Hne _].
    rewrite (joinFrom_concat path Hne "") in Hf.
    split; [exact Hn|]. split; [now destruct path|].
    exists rec. now split.
  - unfold firstReaching in H.
    destruct (filter (reaches fuel path) (dedup (normalize localeCompare data)))
      as [|r l] eqn:E; [|discriminate H].
    intros rec Hin. destruct (reaches fuel path rec) eqn:Hr; [|reflexivity].
    assert (Hf : In rec (filter (reaches fuel path)
                           (dedup (normalize localeCompare data))))
      by (apply filter_In; now split).
    rewrite E in Hf. contradiction.
Qed.

Lemma processFile_labels_witness :
  match nodeAt sampleHierarchy ["x"; "bar"] with
  | Some node =>
      name node = "bar"
      /\ fullPath node = VStr "x::bar"
      /\ exists rec,
           firstReaching 2 ["x"; "bar"] (dedup (normalize codeUnitCompare sampleRows))
           = Some rec
           /\ originalSymbol node = symbols rec
  | None =>
      forall rec, In rec (dedup (normalize codeUnitCompare sampleRows)) ->
                  reaches 2 ["x"; "bar"] rec = false
  end.
Proof.
  apply (processFile_labels codeUnitCompare 2 sampleRows sampleHierarchy
           codeUnitCompare_antisym codeUnitCompare_trans).
  - intros row Hin _. cbn in Hin.
    destruct Hin as [<- | [<- | [<- | []]]]; eexists; reflexivity.
  - intros rec Hin. cbn in Hin.
    destruct Hin as [<- | [<- | [<- | []]]]; reflexivity.
  - reflexivity.
  - discriminate.
Defined.

(** ** What the views read off a built hierarchy *)

Lemma reaches_truthy (fuel : nat) (key : string) (path : list string)
  (rec : CSVRow) :
  reaches fuel (key :: path) rec = true -> truthy (symbols rec) = true.
Proof.
  unfold reaches. destruct (symbols rec) as [| | | | |s]; cbn [textOf];
    try (destruct fuel; [discriminate | cbn; discriminate]).
  destruct s as [|c s]; [|reflexivity].
  destruct fuel; [discriminate | cbn; discriminate].
Qed.

Lemma concat_nonEmpty (key : string) (path : list string) :
  nonEmpty key = true -> isEmpty (String.concat "::" (key :: path)) = false.
Proof.
  intros Hk. destruct key as [|c key]; [discriminate Hk|].
  destruct path; reflexivity.
Qed.

(** X12. The search of the top-level filter reads only the joined path of
    a node of a built hierarchy, never its [originalSymbol] or [name]; for a
    top-level node that is its own key, so a search term that does not occur
    in the (lower-cased) first segment hides the row whatever lies below
    it. *)
Theorem processFile_search (localeCompare : string -> string -> Z)
  (fuel : nat) (data : list CSVRow) (root node : TreeNode)
  (key : string) (path : list string) :
  processFile localeCompare fuel data = Some root ->
  nodeAt root (key :: path) = Some node ->
  searchText node = String.concat "::" (key :: path)
  /\ (path = [] ->
      forall minSize activeFilters searchTerm,
        isEmpty searchTerm = false ->
        includes (toLowerCase key) (toLowerCase searchTerm) = false ->
        matchesFilters minSize activeFilters searchTerm node = false).
Proof.
  intros Hroot Hnode.
  pose proof (processFile_labelsAgree _ _ _ _ Hroot (key :: path)) as H.
  unfold labelAt in H. rewrite Hnode in H. cbn [option_map] in H.
  specialize (H ltac:(discriminate)).
  destruct (firstReaching fuel (key :: path) (dedup (normalize localeCompare data)))
    as [rec|] eqn:Hfirst; [|discriminate H].
  cbn [option_map] in H. unfold labelOf in H. injection H as _ Hf _.
  destruct (firstReaching_reaches _ _ _ _ Hfirst) as [_ Hreach].
  destruct (reaches_nonEmpty _ _ _ Hreach) as [Hne _].
  change (joinFrom (extendPath "" key) path) with (joinFrom "" (key :: path)) in Hf.
  rewrite (joinFrom_concat (key :: path) Hne "") in Hf. cbn [isEmpty] in Hf.
  cbn [forallb] in Hne. apply andb_true_iff in Hne as [Hk _].
  assert (Hsearch : searchText node = String.concat "::" (key :: path)).
  { unfold searchText, js_or. rewrite Hf. cbn [truthy].
    now rewrite (concat_nonEmpty key path Hk). }
  split; [exact Hsearch|].
  intros -> minSize activeFilters searchTerm Hterm Hmiss.
  unfold matchesFilters. destruct (js_lt (size node) minSize); [reflexivity|].
  cbv zeta. rewrite Hsearch, Hterm. cbn [String.concat orb].
  rewrite Hmiss. apply andb_false_r.
Qed.

Lemma processFile_search_witness :
  searchText (mkNode "x" (VNum 15)
                [ ("foo", mkNode "foo" (VNum 10) [] (VStr "x::foo") (VStr "x.foo") (VNum 0));
                  ("bar", mkNode "bar" (VNum 5) [] (VStr "x::bar") (VStr "x.bar") (VNum 0)) ]
                (VStr "x") (VStr "x.foo") (VNum 0)) = "x"
  /\ matchesFilters 0 [] "foo"
       (mkNode "x" (VNum 15)
          [ ("foo", mkNode "foo" (VNum 10) [] (VStr "x::foo") (VStr "x.foo") (VNum 0));
            ("bar", mkNode "bar" (VNum 5) [] (VStr "x::bar") (VStr "x.bar") (VNum 0)) ]
          (VStr "x") (VStr "x.foo") (VNum 0)) = false.
Proof.
  destruct (processFile_search codeUnitCompare 2 sampleRows sampleHierarchy
              (mkNode "x" (VNum 15)
                 [ ("foo", mkNode "foo" (VNum 10) [] (VStr "x::foo") (VStr "x.foo") (VNum 0));
                   ("bar", mkNode "bar" (VNum 5) [] (VStr "x::bar") (VStr "x.bar") (VNum 0)) ]
                 (VStr "x") (VStr "x.foo") (VNum 0))
              "x" [] eq_refl eq_refl) as [Hs Hm].
  split; [exact Hs|]. apply (Hm eq_refl 0 [] "foo"); reflexivity.
Defined.

(** X13. In a built hierarchy every node below the root carries a non-empty
    [originalSymbol]. So the category the tree view labels a top-level row
    with is that of the row's own [originalSymbol], the one the category
    filter and the statistics bar use; and the category a nested row
    computes (it renders no label, the category goes into the keys of its
    children) is that of the [originalSymbol] of its parent, whatever the
    row's own is. *)
Theorem processFile_row_category (localeCompare : string -> string -> Z)
  (fuel : nat) (data : list CSVRow) (root node : TreeNode)
  (key : string) (path : list string) :
  processFile localeCompare fuel data = Some root ->
  nodeAt root (key :: path) = Some node ->
  truthy (originalSymbol node) = true
  /\ TreeView.category (originalSymbol node) node = leafCategory node
  /\ forall k child,
       mapGet (children node) k = Some child ->
       TreeView.category (originalSymbol node) child = leafCategory node.
Proof.
  intros Hroot Hnode.
  pose proof (processFile_labelsAgree _ _ _ _ Hroot (key :: path)) as H.
  unfold labelAt in H. rewrite Hnode in H. cbn [option_map] in H.
  specialize (H ltac:(discriminate)).
  destruct (firstReaching fuel (key :: path) (dedup (normalize localeCompare data)))
    as [rec|] eqn:Hfirst; [|discriminate H].
  cbn [option_map] in H. unfold labelOf in H. injection H as _ _ Ho.
  destruct (firstReaching_reaches _ _ _ _ Hfirst) as [_ Hreach].
  pose proof (reaches_truthy _ _ _ _ Hreach) as Ht. rewrite <- Ho in Ht.
  split; [exact Ht|].
  unfold TreeView.category, TreeView.symbolForCategorization, leafCategory, js_or.
  rewrite Ht. split; [reflexivity|]. intros k child _. reflexivity.
Qed.

Lemma processFile_row_category_witness :
  TreeView.category (VStr "x.foo")
    (mkNode "bar" (VNum 5) [] (VStr "x::bar") (VStr "x.bar") (VNum 0)) = Zig.
Proof.
  destruct (processFile_row_category codeUnitCompare 2 sampleRows sampleHierarchy
              (mkNode "x" (VNum 15)
                 [ ("foo", mkNode "foo" (VNum 10) [] (VStr "x::foo") (VStr "x.foo") (VNum 0));
                   ("bar", mkNode "bar" (VNum 5) [] (VStr "x::bar") (VStr "x.bar") (VNum 0)) ]
                 (VStr "x") (VStr "x.foo") (VNum 0))
              "x" [] eq_refl eq_refl) as (_ & _ & Hc).
  exact (Hc "bar" _ eq_refl).
Defined.

(** ** What the collapsing keeps *)

Lemma length_mapSet {V : Type} (m : dict V) (k : string) (v : V) :
  (List.length (mapSet m k v) <= S (List.length m))%nat.
Proof.
  induction m as [|[k' w] m IH]; cbn; [lia|].
  destruct (String.eqb k' k); cbn; lia.
Qed.

Lemma dedupStep_total (m : dict CSVRow) (row : CSVRow) :
  (forall k rec, In (k, rec) m -> numericRow rec = true) ->
  numericRow row = true -> renamed row = true ->
  sumZ (map (fun kc : string * CSVRow => sizeOf (snd kc)) (dedupStep m row)) =
  sumZ (map (fun kc : string * CSVRow => sizeOf (snd kc)) m) + sizeOf row.
Proof.
  intros Hm Hrow Hren. unfold dedupStep.
  destruct (mapGet m (canonicalName (textOf (symbols row)))) as [existing|] eqn:E.
  - rewrite sumZ_mapSet, E. pose proof (Hm _ _ (mapGet_In _ _ _ E)) as He.
    unfold numericRow, sizeOf in *. cbn [vmsize].
    destruct (vmsize existing); try discriminate He.
    destruct (vmsize row); try discriminate Hrow. cbn. lia.
  - unfold renamed in Hren.
    assert (Hkey : (if negb (String.eqb (canonicalName (textOf (symbols row))) "_"
                             && negb (String.eqb (canonicalName (textOf (symbols row)))
                                                 (textOf (symbols row))))
                    then VStr (canonicalName (textOf (symbols row)))
                    else symbols row)
                   = VStr (canonicalName (textOf (symbols row)))).
    { destruct (String.eqb (canonicalName (textOf (symbols row))) "_");
        [|reflexivity].
      cbn [negb orb] in Hren. now rewrite Hren. }
    rewrite Hkey. cbn [textOf]. rewrite sumZ_mapSet, E.
    unfold sizeOf. cbn [vmsize snd]. lia.
Qed.

Lemma dedupState_total (l : list CSVRow) :
  Forall (fun row => numericRow row = true) l ->
  Forall (fun row => renamed row = true) l ->
  forall m,
    (forall k rec, In (k, rec) m -> numericRow rec = true) ->
    sumZ (map (fun kc : string * CSVRow => sizeOf (snd kc)) (fold_left dedupStep l m))
    = sumZ (map (fun kc : string * CSVRow => sizeOf (snd kc)) m)
      + sumZ (map sizeOf l).
Proof.
  induction l as [|row l IH]; intros Hnum Hren m Hm.
  - cbn [fold_left map]. change (sumZ []) with 0. lia.
  - apply Forall_cons_iff in Hnum as [Hrow Hnum].
    apply Forall_cons_iff in Hren as [Hr Hren].
    cbn [fold_left]. rewrite (IH Hnum Hren).
    + rewrite dedupStep_total by assumption.
      unfold sumZ. cbn [map fold_right]. lia.
    + now apply dedupStep_numeric.
Qed.

Lemma dedup_length (l : list CSVRow) :
  (List.length (dedup l) <= List.length l)%nat.
Proof.
  unfold dedup, mapValues. rewrite length_map.
  assert (H : forall m, (List.length (fold_left dedupStep l m)
                         <= List.length m + List.length l)%nat).
  { induction l as [|row l IH]; intros m; cbn [fold_left List.length]; [lia|].
    specialize (IH (dedupStep m row)).
    assert (List.length (dedupStep m row) <= S (List.length m))%nat; [|lia].
    unfold dedupStep.
    destruct (mapGet m (canonicalName (textOf (symbols row))));
      apply length_mapSet. }
  apply (H []).
Qed.

Lemma dedup_sum (l : list CSVRow) :
  Forall (fun row => numericRow row = true) l ->
  Forall (fun row => renamed row = true) l ->
  sumZ (map sizeOf (dedup l)) = sumZ (map sizeOf l).
Proof.
  intros Hnum Hren. unfold dedup, mapValues. rewrite map_map.
  rewrite (dedupState_total l Hnum Hren []); [reflexivity|].
  intros k rec [].
Qed.

(** X14. The collapsing never yields more records than rows. For rows with
    numeric sizes none of which strips to the bare ["_"] from a longer name,
    the records have pairwise distinct names and their sizes add up to the
    sizes of the rows. Without the condition size is lost: two rows named
    [___anon_1] leave one record holding the size of the second alone. *)
Theorem dedup_conserves (l : list CSVRow) :
  (List.length (dedup l) <= List.length l)%nat
  /\ (Forall (fun row => renamed row = true) l ->
      NoDup (map (fun rec => textOf (symbols rec)) (dedup l))
      /\ (Forall (fun row => numericRow row = true) l ->
          sumZ (map sizeOf (dedup l)) = sumZ (map sizeOf l)))
  /\ dedup [ mkRow (VStr "___anon_1") (VNum 10) (VNum 0);
             mkRow (VStr "___anon_1") (VNum 7) (VNum 0) ]
     = [ mkRow (VStr "___anon_1") (VNum 7) (VNum 0) ].
Proof.
  split; [apply dedup_length|]. split; [|reflexivity].
  intros Hren. split; [|intros Hnum; now apply dedup_sum].
  destruct (dedupState_spec l Hren) as (_ & Hkey & Hnd).
  unfold dedup. fold (dedupState l). unfold mapValues. rewrite map_map.
  unfold mapKeys in Hnd.
  rewrite (map_ext_in _ fst); [exact Hnd|].
  intros [k rec] Hin. cbn [fst snd]. now apply Hkey.
Qed.

Lemma dedup_conserves_witness :
  sumZ (map sizeOf (dedup [ mkRow (VStr "f__anon_7") (VNum 9) (VNum 2);
                            mkRow (VStr "g") (VNum 5) VUndefined;
                            mkRow (VStr "f__struct_1") (VNum 4) (VNum 3) ]))
  = 18.
Proof.
  destruct (dedup_conserves [ mkRow (VStr "f__anon_7") (VNum 9) (VNum 2);
                              mkRow (VStr "g") (VNum 5) VUndefined;
                              mkRow (VStr "f__struct_1") (VNum 4) (VNum 3) ])
    as (_ & H & _).
  destruct H as [_ H]; [repeat constructor|].
  rewrite H; [reflexivity | repeat constructor].
Defined.

(** ** From the rows to the root *)

Lemma sumZ_perm (a b : list Z) : Permutation a b -> sumZ a = sumZ b.
Proof.
  unfold sumZ. induction 1; cbn; lia.
Qed.

(** X15. Conservation from the parsed rows: when the kept rows have numeric
    sizes, none of them strips to the bare ["_"] from a longer name, the
    fuel lets every keyword loop end and every collapsed record has a
    segment and names no inherited member of [Object.prototype], the size of
    the root is the sum of the sizes of the kept rows. *)
Theorem processFile_conserves_rows (localeCompare : string -> string -> Z)
  (fuel : nat) (data : list CSVRow) :
  (forall row, In row data -> keepRow row = true ->
               (exists z, vmsize row = VNum z) /\ renamed row = true) ->
  (forall rec, In rec (dedup (normalize localeCompare data)) ->
               lands fuel rec = true) ->
  exists root,
    processFile localeCompare fuel data = Some root
    /\ size root = VNum (sumZ (map sizeOf (filter keepRow data))).
Proof.
  intros Hrows Hland.
  assert (Hnum : forall row, In row data -> keepRow row = true ->
                             exists z, vmsize row = VNum z)
    by (intros row Hin Hk; now destruct (Hrows row Hin Hk)).
  assert (Hfuel : forall rec, In rec (dedup (normalize localeCompare data)) ->
                              processSymbol fuel (textOf (symbols rec)) <> None).
  { intros rec Hin. specialize (Hland rec Hin). unfold lands in Hland.
    now destruct (processSymbol fuel (textOf (symbols rec))). }
  destruct (processFile_conservation localeCompare fuel data Hnum Hfuel)
    as [root [Hroot Hsize]].
  exists root. split; [exact Hroot|]. rewrite Hsize. f_equal.
  rewrite filter_all by (apply forallb_forall; exact Hland).
  rewrite dedup_sum.
  - apply sumZ_perm, Permutation_map, sortBy_perm.
  - now apply normalize_numeric.
  - apply Forall_forall. intros row Hin.
    apply (Permutation_in _ (sortBy_perm (compareRows localeCompare) _)) in Hin.
    apply filter_In in Hin as [Hin Hkeep]. now destruct (Hrows row Hin Hkeep).
Qed.

Lemma processFile_conserves_rows_witness :
  exists root,
    processFile codeUnitCompare 2
      [ mkRow (VStr "ns::f__anon_1") (VNum 30) (VNum 4);
        mkRow (VStr "") (VNum 99) (VNum 0);
        mkRow (VStr "ns::f__anon_2") (VNum 20) (VNum 1);
        mkRow (VStr "int ns::g") (VNum 10) (VNum 0) ] = Some root
    /\ size root = VNum 60.
Proof.
  refine (processFile_conserves_rows codeUnitCompare 2
            [ mkRow (VStr "ns::f__anon_1") (VNum 30) (VNum 4);
              mkRow (VStr "") (VNum 99) (VNum 0);
              mkRow (VStr "ns::f__anon_2") (VNum 20) (VNum 1);
              mkRow (VStr "int ns::g") (VNum 10) (VNum 0) ] _ _).
  - intros row Hin Hkeep. cbn in Hin.
    destruct Hin as [<- | [<- | [<- | [<- | []]]]];
      try discriminate Hkeep; split; try reflexivity; eexists; reflexivity.
  - intros rec Hin. cbn in Hin. destruct Hin as [<- | [<- | []]]; reflexivity.
Defined.

(** ** When the keyword loop ends *)

Lemma isPrefix_includes (sub s : string) :
  isPrefix sub s = true -> includes s sub = true.
Proof. intros H. destruct s; cbn [includes]; now rewrite H. Qed.

Lemma includes_cons (c : ascii) (s sub : string) :
  includes s sub = true -> includes (String c s) sub = true.
Proof. intros H. cbn [includes]. rewrite H. now destruct (isPrefix sub (String c s)). Qed.

Lemma includes_drop (n : nat) (sub : string) :
  forall s, includes (drop n s) sub = true -> includes s sub = true.
Proof.
  induction n as [|n IH]; intros s H; [exact H|].
  destruct s as [|c s]; [exact H|]. apply includes_cons, IH, H.
Qed.

Lemma isPrefix_trans (a : string) :
  forall b c, isPrefix a b = true -> isPrefix b c = true -> isPrefix a c = true.
Proof.
  induction a as [|x a IH]; intros b c Hab Hbc; [reflexivity|].
  destruct b as [|y b]; [discriminate Hab|].
  destruct c as [|z c]; [discriminate Hbc|].
  cbn [isPrefix] in *. apply andb_true_iff in Hab as [Hxy Hab].
  apply andb_true_iff in Hbc as [Hyz Hbc].
  apply Ascii.eqb_eq in Hxy, Hyz. subst y z.
  now rewrite Ascii.eqb_refl, (IH b c).
Qed.

Lemma includes_prefix (sub p : string) :
  includes p sub = true ->
  forall s, isPrefix p s = true -> includes s sub = true.
Proof.
  induction p as [|a p IH]; intros Hp s Hs.
  - cbn in Hp. destruct (isPrefix sub "") eqn:E; [|discriminate Hp].
    apply isPrefix_includes. now apply (isPrefix_trans sub "" s).
  - cbn [includes] in Hp.
    destruct (isPrefix sub (String a p)) eqn:E.
    + apply isPrefix_includes. now apply (isPrefix_trans sub (String a p) s).
    + destruct s as [|b s]; [discriminate Hs|].
      cbn [isPrefix] in Hs. apply andb_true_iff in Hs as [_ Hs].
      apply includes_cons. now apply IH.
Qed.

Lemma includes_indexOf (sub : string) :
  forall s, includes s sub = true -> 0 <= indexOf s sub.
Proof.
  induction s as [|c s IH]; intros H.
  - cbn in *. destruct (isPrefix sub ""); [lia | discriminate H].
  - rewrite indexOf_cons. cbn [includes] in H.
    destruct (isPrefix sub (String c s)); [lia|].
    specialize (IH H). destruct (indexOf s sub <? 0) eqn:E; [|lia].
    apply Z.ltb_lt in E. lia.
Qed.

(** A keyword that matches a text without a space is one of the two that
    are tested without the space. *)
Lemma spins_pointer (s : string) : spins s = true -> pointerFree s = false.
Proof.
  unfold spins, pointerFree. intros H. apply andb_true_iff in H as [Hk Hi].
  apply Z.ltb_lt in Hi.
  assert (Hspace : includes s " " = false).
  { destruct (includes s " ") eqn:E; [|reflexivity].
    pose proof (includes_indexOf " " s E). lia. }
  unfold startsKeyword, startsWith in Hk.
  repeat match type of Hk with
         | _ || _ = true => apply orb_true_iff in Hk as [Hk | Hk]
         end;
    try (match type of Hk with
         | isPrefix ?kw s = true =>
             rewrite (includes_prefix " " kw eq_refl s Hk) in Hspace
         end; discriminate Hspace);
    rewrite (isPrefix_includes _ _ Hk); [reflexivity | apply andb_false_r].
Qed.

Lemma pointerFree_stripOnce (s : string) :
  pointerFree s = true -> pointerFree (stripOnce s) = true.
Proof.
  unfold pointerFree, stripOnce, slice. intros H.
  apply andb_true_iff in H as [Hv Hc].
  apply negb_true_iff in Hv, Hc. apply andb_true_iff.
  split; apply negb_true_iff.
  - destruct (includes (drop _ s) "void*") eqn:E; [|reflexivity].
    now rewrite (includes_drop _ _ _ E) in Hv.
  - destruct (includes (drop _ s) "char*") eqn:E; [|reflexivity].
    now rewrite (includes_drop _ _ _ E) in Hc.
Qed.

Lemma stripKeywords_pointerFree (n : nat) :
  forall s, (String.length s <= n)%nat -> pointerFree s = true ->
            exists r, stripKeywords (S n) s = Some r
                      /\ (String.length r <= String.length s)%nat
                      /\ startsKeyword r = false.
Proof.
  induction n as [|n IH]; intros s Hle Hfree.
  - destruct (startsKeyword s) eqn:Hk.
    + destruct s; [discriminate Hk | cbn in Hle; lia].
    + exists s. cbn. rewrite Hk. repeat split. lia.
  - destruct (startsKeyword s) eqn:Hk.
    + destruct (indexOf s " " <? 0) eqn:Hi.
      * assert (Hs : spins s = true) by (unfold spins; now rewrite Hk, Hi).
        rewrite (spins_pointer s Hs) in Hfree. discriminate Hfree.
      * apply Z.ltb_ge in Hi. pose proof (stripOnce_shorter s Hi) as Hs.
        destruct (IH (stripOnce s) ltac:(lia) (pointerFree_stripOnce s Hfree))
          as [r (Hr & Hlen & Hkw)].
        exists r. split; [|split; [lia | exact Hkw]].
        change (stripKeywords (S (S n)) s)
          with (if startsKeyword s then stripKeywords (S n) (stripOnce s)
                else Some s).
        now rewrite Hk.
    + exists s. cbn. rewrite Hk. repeat split. lia.
Qed.

(** X16. On a text that holds neither [void*] nor [char*] the keyword loop
    ends within [length + 1] tests of its condition, so [processSymbol]
    returns, with that fuel and any larger one: the segments of what is
    left when no keyword heads the text any more. The texts on which it
    spins all hold one of the two. *)
Theorem processSymbol_returns (symbol : string) :
  pointerFree symbol = true ->
  (exists rest,
     startsKeyword rest = false
     /\ (String.length rest <= String.length symbol)%nat
     /\ forall fuel, (String.length symbol < fuel)%nat ->
                     processSymbol fuel symbol = Some (splitSymbol rest))
  /\ forall s, spins s = true -> pointerFree s = false.
Proof.
  intros Hfree. split; [|exact spins_pointer].
  destruct (stripKeywords_pointerFree (String.length symbol) symbol
              (Nat.le_refl _) Hfree) as [rest (Hr & Hlen & Hkw)].
  exists rest. split; [exact Hkw|]. split; [exact Hlen|].
  intros fuel Hfuel. unfold processSymbol.
  now rewrite (stripKeywords_mono _ fuel _ _ Hr ltac:(lia)).
Qed.

Lemma processSymbol_returns_witness :
  exists rest,
    startsKeyword rest = false
    /\ (String.length rest <= 22)%nat
    /\ forall fuel, (22 < fuel)%nat ->
                    processSymbol fuel "const unsigned ns::f()"
                    = Some (splitSymbol rest).
Proof.
  destruct (processSymbol_returns "const unsigned ns::f()" eq_refl) as [H _].
  exact H.
Defined.

(** ** The groups of the merge pass *)

Lemma processNode_unfold (groups : dict SymbolGroup) (n : TreeNode) :
  processNode groups n =
  fold_left (fun groups (kc : string * TreeNode) => processNode groups (snd kc))
            (children n)
            match children n with
            | [] => addLeaf groups n
            | _ :: _ => groups
            end.
Proof.
  destruct n as [nm sz kids fp os inst]. cbn [processNode children].
  generalize (match kids with
              | [] => addLeaf groups (mkNode nm sz kids fp os inst)
              | _ :: _ => groups
              end) as start.
  induction kids as [|[k c] kids IH]; intros start; [reflexivity|].
  cbn [fold_left snd]. apply IH.
Qed.

(** The first traversal visits the nodes without children, left to right. *)
Lemma processNode_leaves (n : TreeNode) :
  forall groups, processNode groups n = fold_left addLeaf (leavesOf n) groups.
Proof.
  induction n as [nm sz kids fp os inst IH] using TreeNode_induction.
  intros groups. rewrite processNode_unfold, leavesOf_unfold. cbn [children].
  destruct kids as [|kc kids]; [reflexivity|].
  revert groups. induction IH as [|kc' l Hkc _ IHl]; intros groups; [reflexivity|].
  cbn [fold_left flat_map]. rewrite fold_left_app, Hkc. apply IHl.
Qed.

Lemma collectGroups_leaves (symbols : list TreeNode) :
  collectGroups symbols = fold_left addLeaf (flat_map leavesOf symbols) [].
Proof.
  unfold collectGroups. generalize (@nil (string * SymbolGroup)) as start.
  induction symbols as [|n symbols IH]; intros start; [reflexivity|].
  cbn [fold_left flat_map]. now rewrite fold_left_app, processNode_leaves, IH.
Qed.

Lemma addLeaf_joinGroup (groups : dict SymbolGroup) (node : TreeNode) :
  addLeaf groups node =
  if String.eqb (leafBaseName (name node)) "" then groups
  else mapSet groups (leafBaseName (name node))
         (joinGroup match mapGet groups (leafBaseName (name node)) with
                    | Some group => group
                    | None => mkGroup (leafBaseName (name node)) (VNum 0) 0 [] 0 []
                    end node).
Proof.
  unfold addLeaf. now destruct (String.eqb (leafBaseName (name node)) "").
Qed.

Lemma fold_addLeaf (baseName : string) (leaves : list TreeNode) :
  baseName <> "" ->
  forall groups,
    mapGet (fold_left addLeaf leaves groups) baseName =
    match filter (fun leaf => String.eqb (leafBaseName (name leaf)) baseName)
                 leaves with
    | [] => mapGet groups baseName
    | members =>
        Some (fold_left joinGroup members
                match mapGet groups baseName with
                | Some group => group
                | None => mkGroup baseName (VNum 0) 0 [] 0 []
                end)
    end.
Proof.
  intros Hb. induction leaves as [|leaf leaves IH]; intros groups; [reflexivity|].
  cbn [fold_left filter]. rewrite IH, addLeaf_joinGroup.
  destruct (String.eqb (leafBaseName (name leaf)) baseName) eqn:E.
  - apply String.eqb_eq in E. rewrite E.
    apply String.eqb_neq in Hb. rewrite Hb.
    rewrite mapGet_mapSet_same. cbn [fold_left].
    now destruct (filter _ leaves).
  - destruct (String.eqb (leafBaseName (name leaf)) "") eqn:E0; [reflexivity|].
    apply String.eqb_neq in E. now rewrite mapGet_mapSet_other.
Qed.

Lemma fold_addLeaf_empty (leaves : list TreeNode) :
  forall groups, mapGet groups "" = None ->
                 mapGet (fold_left addLeaf leaves groups) "" = None.
Proof.
  induction leaves as [|leaf leaves IH]; intros groups Hg; [exact Hg|].
  cbn [fold_left]. apply IH. rewrite addLeaf_joinGroup.
  destruct (String.eqb (leafBaseName (name leaf)) "") eqn:E; [exact Hg|].
  apply String.eqb_neq in E. now rewrite mapGet_mapSet_other.
Qed.

Lemma fold_joinGroup (members : list TreeNode) :
  forall group,
    fold_left joinGroup members group =
    mkGroup (group_name group)
            (fold_left (fun acc leaf => js_add acc (size leaf)) members
                       (group_size group))
            (count group + Z.of_nat (List.length members))
            (originalSymbols group
             ++ filter truthy (map originalSymbol members))%list
            (group_instantiations group + Z.of_nat (List.length members))
            (group_children group).
Proof.
  induction members as [|leaf members IH]; intros group.
  - cbn. rewrite app_nil_r, !Z.add_0_r. now destruct group.
  - cbn [fold_left]. rewrite IH. destruct group as [gn gs gc go gi gk].
    unfold joinGroup.
    cbn [group_name group_size count originalSymbols group_instantiations
         group_children map filter List.length fold_left].
    f_equal; try lia.
    destruct (truthy (originalSymbol leaf)); [|reflexivity].
    now rewrite <- app_assoc.
Qed.

(** X17. The groups of the merge pass: under a non-empty name there is a
    group exactly when some node without children, anywhere in the forest,
    strips to that name; the group then holds the name, the sizes of these
    nodes added up from 0 in traversal order, their number (as [count] and
    as [instantiations]), their non-empty [originalSymbol]s in order and no
    children. No group is ever filed under the empty name. *)
Theorem collectGroups_spec (symbols : list TreeNode) (baseName : string) :
  mapGet (collectGroups symbols) baseName =
  if isEmpty baseName || isEmpty_list (membersOf baseName symbols) then None
  else
    Some (mkGroup baseName
            (fold_left (fun acc leaf => js_add acc (size leaf))
                       (membersOf baseName symbols) (VNum 0))
            (Z.of_nat (List.length (membersOf baseName symbols)))
            (filter truthy (map originalSymbol (membersOf baseName symbols)))
            (Z.of_nat (List.length (membersOf baseName symbols)))
            []).
Proof.
  rewrite collectGroups_leaves. destruct baseName as [|c b].
  - cbn [isEmpty orb]. now apply fold_addLeaf_empty.
  - cbn [isEmpty orb]. rewrite fold_addLeaf by discriminate.
    unfold membersOf.
    destruct (filter _ (flat_map leavesOf symbols)) as [|m members] eqn:E;
      [reflexivity|].
    cbn [isEmpty_list mapGet]. now rewrite fold_joinGroup.
Qed.

(** ** Running the merge pass again *)

Lemma addLeaf_transformNode (state groups : dict SymbolGroup) (n : TreeNode) :
  addLeaf state (transformNode groups n) = addLeaf state n.
Proof. now destruct n. Qed.

Lemma transformNode_wellKeyed groups (n : TreeNode) :
  wellKeyed n = true ->
  transformNode groups n =
  mkNode (name n) (size n)
         (map (fun kc : string * TreeNode => (fst kc, transformNode groups (snd kc)))
              (children n))
         (fullPath n) (originalSymbol n)
         (annotate (mapGet groups (nodeBaseName (name n))) (node_instantiations n)).
Proof.
  intros Hwk. rewrite <- (children_transformNode groups n Hwk). now destruct n.
Qed.

Lemma wellKeyed_transformNode groups (n : TreeNode) :
  wellKeyed n = true -> wellKeyed (transformNode groups n) = true.
Proof.
  induction n as [nm sz kids fp os inst IH] using TreeNode_induction.
  intros Hwk. rewrite (transformNode_wellKeyed groups _ Hwk).
  rewrite wellKeyed_unfold in Hwk |- *. cbn [children name] in *.
  apply andb_true_iff in Hwk as [Hall Hnd].
  rewrite mapKeys_map, Hnd, andb_true_r.
  rewrite forallb_forall in *. rewrite Forall_forall in IH.
  intros kc' Hin. apply in_map_iff in Hin as [kc [<- Hin]].
  specialize (Hall kc Hin). cbn [fst snd].
  apply andb_true_iff in Hall as [Hkp Hc]. rewrite name_transformNode, Hkp.
  now apply IH.
Qed.

Lemma leavesOf_transformNode groups (n : TreeNode) :
  wellKeyed n = true ->
  leavesOf (transformNode groups n) = map (transformNode groups) (leavesOf n).
Proof.
  induction n as [nm sz kids fp os inst IH] using TreeNode_induction.
  intros Hwk. rewrite (leavesOf_unfold (transformNode groups _)).
  rewrite children_transformNode by exact Hwk.
  rewrite (leavesOf_unfold (mkNode nm sz kids fp os inst)). cbn [children].
  rewrite wellKeyed_unfold in Hwk. cbn [children] in Hwk.
  apply andb_true_iff in Hwk as [Hall _].
  assert (G : flat_map (fun kc : string * TreeNode => leavesOf (snd kc))
                (map (fun kc : string * TreeNode =>
                        (fst kc, transformNode groups (snd kc))) kids)
              = map (transformNode groups)
                  (flat_map (fun kc : string * TreeNode => leavesOf (snd kc)) kids)).
  { induction IH as [|kc' l Hkc _ IHl]; [reflexivity|].
    cbn [forallb] in Hall. apply andb_true_iff in Hall as [Hc Hall].
    apply andb_true_iff in Hc as [_ Hc].
    cbn [map flat_map snd]. rewrite map_app, Hkc by exact Hc. f_equal.
    now apply IHl. }
  destruct kids as [|kc kids]; [reflexivity | exact G].
Qed.

Lemma annotate_idempotent (group : option SymbolGroup) (old : jsval) :
  annotate group (annotate group old) = annotate group old.
Proof.
  unfold annotate, js_or.
  destruct (truthy match group with
                   | Some g => VNum (count g)
                   | None => VUndefined
                   end) eqn:E; now rewrite ?E.
Qed.

Lemma transformNode_idempotent groups (n : TreeNode) :
  wellKeyed n = true ->
  transformNode groups (transformNode groups n) = transformNode groups n.
Proof.
  induction n as [nm sz kids fp os inst IH] using TreeNode_induction.
  intros Hwk.
  rewrite (transformNode_wellKeyed groups (transformNode groups _))
    by now apply wellKeyed_transformNode.
  rewrite !(transformNode_wellKeyed groups (mkNode nm sz kids fp os inst) Hwk).
  cbn [name size children fullPath originalSymbol node_instantiations].
  rewrite annotate_idempotent. f_equal.
  rewrite map_map. apply map_ext_in. intros kc Hin. cbn [fst snd]. f_equal.
  rewrite Forall_forall in IH. apply IH; [exact Hin|].
  rewrite wellKeyed_unfold in Hwk. cbn [children] in Hwk.
  apply andb_true_iff in Hwk as [Hall _]. rewrite forallb_forall in Hall.
  specialize (Hall kc Hin). now apply andb_true_iff in Hall as [_ Hc].
Qed.

(** X18. On a forest of the data model (children filed under their own
    names) the merge pass finds the same groups after it has run as before,
    and running it a second time changes nothing. *)
Theorem mergeInstantiations_idempotent (symbols : list TreeNode) :
  Forall (fun tree => wellKeyed tree = true) symbols ->
  collectGroups (mergeInstantiations symbols) = collectGroups symbols
  /\ mergeInstantiations (mergeInstantiations symbols)
     = mergeInstantiations symbols.
Proof.
  intros Hwk.
  assert (Hgroups : collectGroups (mergeInstantiations symbols)
                    = collectGroups symbols).
  { rewrite !collectGroups_leaves. unfold mergeInstantiations.
    generalize (collectGroups symbols) as groups. intros groups.
    generalize (@nil (string * SymbolGroup)) as start.
    induction Hwk as [|tree symbols Ht _ IHs]; intros start; [reflexivity|].
    cbn [map flat_map]. rewrite !fold_left_app, IHs. f_equal.
    rewrite leavesOf_transformNode by exact Ht.
    generalize (leavesOf tree) as leaves. intros leaves. revert start.
    induction leaves as [|leaf leaves IHl]; intros start; [reflexivity|].
    cbn [map fold_left]. now rewrite addLeaf_transformNode, IHl. }
  split; [exact Hgroups|].
  unfold mergeInstantiations at 1. rewrite Hgroups. unfold mergeInstantiations.
  rewrite map_map. apply map_ext_in. intros tree Hin.
  apply transformNode_idempotent. rewrite Forall_forall in Hwk. now apply Hwk.
Qed.

Lemma mergeInstantiations_idempotent_witness :
  mergeInstantiations (mergeInstantiations [sampleHierarchy])
  = mergeInstantiations [sampleHierarchy].
Proof.
  destruct (mergeInstantiations_idempotent [sampleHierarchy]) as [_ H].
  - repeat constructor.
  - exact H.
Defined.

(** ** The badge of a collapsed symbol *)

Lemma filter_filter_impl {A : Type} (f g : A -> bool) (l : list A) :
  (forall x, In x l -> f x = true -> g x = true) ->
  filter f l = filter f (filter g l).
Proof.
  induction l as [|x l IH]; intros H; [reflexivity|]. cbn [filter].
  assert (IH' : filter f l = filter f (filter g l))
    by (apply IH; intros y Hy; apply H; now right).
  destruct (f x) eqn:Ef.
  - rewrite (H x (or_introl eq_refl) Ef). cbn [filter]. now rewrite Ef, IH'.
  - destruct (g x); cbn [filter]; now rewrite ?Ef, IH'.
Qed.

Lemma filter_length_perm {A : Type} (f : A -> bool) (l l' : list A) :
  Permutation l l' -> List.length (filter f l) = List.length (filter f l').
Proof.
  induction 1 as [|x l l' _ IH|x y l|l l' l'' _ IH1 _ IH2]; cbn [filter].
  - reflexivity.
  - destruct (f x); cbn [List.length]; now rewrite IH.
  - destruct (f x), (f y); reflexivity.
  - now rewrite IH1.
Qed.

Lemma collapse_noCount (c : string) (first : CSVRow) (rest : list CSVRow) :
  Forall (fun row => noCount row = true) (first :: rest) ->
  exists v,
    collapse c (first :: rest)
    = Some (mkRow (VStr c) v (VNum (Z.of_nat (List.length rest)))).
Proof.
  intros Hall.
  assert (H0 : forall row, noCount row = true ->
                           nullish (instantiations row) (VNum 0) = VNum 0).
  { intros row Hrow. unfold noCount in Hrow.
    destruct (instantiations row); try discriminate Hrow; try reflexivity.
    apply Z.eqb_eq in Hrow. now subst. }
  apply Forall_cons_iff in Hall as [Hfirst Hrest].
  cbn [collapse]. rewrite (H0 first Hfirst). eexists. f_equal. f_equal.
  assert (G : forall k,
             fold_left (fun acc row =>
                          js_add acc (js_add (nullish (instantiations row) (VNum 0))
                                             (VNum 1)))
                       rest (VNum k)
             = VNum (k + Z.of_nat (List.length rest))).
  { induction Hrest as [|row rest Hrow _ IH]; intros k.
    - cbn. f_equal. lia.
    - cbn [fold_left List.length]. rewrite (H0 row Hrow).
      change (js_add (VNum k) (js_add (VNum 0) (VNum 1))) with (VNum (k + (0 + 1))).
      rewrite IH. f_equal. lia. }
  exact (G 0).
Qed.

Lemma dedup_group (l : list CSVRow) (c : string) :
  Forall (fun row => renamed row = true) l ->
  filter (fun rec => String.eqb (textOf (symbols rec)) c) (dedup l) =
  match collapse c (filter (stripsTo c) l) with
  | Some rec => [rec]
  | None => []
  end.
Proof.
  intros Hren. destruct (dedupState_spec l Hren) as (Hget & Hkey & Hnd).
  unfold dedup. fold (dedupState l).
  rewrite (filter_by_key _ c Hkey Hnd). now rewrite Hget.
Qed.

Lemma processFile_countsAgree (localeCompare : string -> string -> Z)
  (fuel : nat) (data : list CSVRow) (root : TreeNode) :
  processFile localeCompare fuel data = Some root ->
  forall path node,
    nodeAt root path = Some node ->
    node_instantiations node
    = countsAt fuel path (dedup (normalize localeCompare data)).
Proof.
  unfold processFile. intros Hroot path node Hnode.
  destruct (fold_left (insertSymbol fuel) (dedup (normalize localeCompare data))
              (Some emptyRoot)) as [tree|] eqn:Hfold; [|discriminate Hroot].
  injection Hroot as <-.
  assert (Hagree : countsAgree fuel tree (dedup (normalize localeCompare data))).
  { apply (insertAll_counts fuel _ [] emptyRoot tree eq_refl); [|exact Hfold].
    intros [|k p]; reflexivity. }
  specialize (Hagree path). rewrite <- instAt_calculateTotalSize in Hagree.
  unfold instAt in Hagree. now rewrite Hnode in Hagree.
Qed.

Lemma pathEqb_refl (p : list string) : pathEqb p p = true.
Proof. induction p as [|a p IH]; cbn; [reflexivity | now rewrite String.eqb_refl]. Qed.

(** X19. The badge of a collapsed symbol. Take rows that bring no counts of
    their own and none of which strips to the bare ["_"] from a longer name,
    and a canonical name [c] whose record is the only one that ends at its
    node. With [m] kept rows stripping to [c] the node carries the count
    [m - 1] (0 when there is none), and the tree view shows the badge [m]
    when [m] is at least 3 and no badge otherwise: a symbol with two
    variants shows none. *)
Theorem badge_counts_variants (localeCompare : string -> string -> Z)
  (fuel : nat) (data : list CSVRow) (root node : TreeNode) (c : string)
  (parts : list string) :
  (forall row, In row data -> keepRow row = true ->
               renamed row = true /\ noCount row = true) ->
  processFile localeCompare fuel data = Some root ->
  processSymbol fuel c = Some parts ->
  segmentsOf parts <> [] ->
  nodeAt root (segmentsOf parts) = Some node ->
  (forall rec, In rec (dedup (normalize localeCompare data)) ->
               endsAt fuel (segmentsOf parts) rec = true ->
               textOf (symbols rec) = c) ->
  node_instantiations node
  = VNum (Z.max 0 (Z.of_nat (List.length (variants c data)) - 1))
  /\ TreeView.badge node =
     if 3 <=? Z.of_nat (List.length (variants c data))
     then Some (VNum (Z.of_nat (List.length (variants c data))))
     else None.
Proof.
  intros Hrows Hroot Hparts Hne Hnode Honly.
  set (recs := dedup (normalize localeCompare data)) in *.
  set (path := segmentsOf parts) in *.
  assert (Hall : Forall (fun row => renamed row = true /\ noCount row = true)
                   (normalize localeCompare data)).
  { apply Forall_forall. intros row Hin.
    apply (Permutation_in _ (sortBy_perm (compareRows localeCompare) _)) in Hin.
    apply filter_In in Hin as [Hin Hkeep]. now apply Hrows. }
  assert (Hren : Forall (fun row => renamed row = true)
                   (normalize localeCompare data))
    by (eapply Forall_impl; [|exact Hall]; cbn; tauto).
  assert (Hstays : stays path = true).
  { pose proof (processFile_labelsAgree _ _ _ _ Hroot path Hne) as H.
    unfold labelAt in H. rewrite Hnode in H. cbn [option_map] in H.
    fold recs in H.
    destruct (firstReaching fuel path recs) as [rec|] eqn:Hfirst; [|discriminate H].
    destruct (firstReaching_reaches _ _ _ _ Hfirst) as [_ Hreach].
    now destruct (reaches_nonEmpty _ _ _ Hreach). }
  assert (Hlen : List.length (filter (stripsTo c) (normalize localeCompare data))
                 = List.length (variants c data)).
  { unfold variants, normalize. apply filter_length_perm, sortBy_perm. }
  assert (Hcount : node_instantiations node
                   = VNum (Z.max 0 (Z.of_nat (List.length (variants c data)) - 1))).
  { rewrite (processFile_countsAgree _ _ _ _ Hroot path node Hnode).
    unfold countsAt. fold recs.
    rewrite (filter_filter_impl (endsAt fuel path)
               (fun rec => String.eqb (textOf (symbols rec)) c) recs)
      by (intros rec Hin He; apply String.eqb_eq; now apply Honly).
    unfold recs. rewrite (dedup_group _ c Hren). rewrite <- Hlen.
    destruct (filter (stripsTo c) (normalize localeCompare data))
      as [|first rest] eqn:Hgroup; [reflexivity|].
    assert (Hnc : Forall (fun row => noCount row = true) (first :: rest)).
    { rewrite <- Hgroup. apply Forall_forall. intros row Hin.
      apply filter_In in Hin as [Hin _]. rewrite Forall_forall in Hall.
      now apply Hall. }
    destruct (collapse_noCount c first rest Hnc) as [v ->].
    cbn [filter]. unfold endsAt at 1. cbn [symbols textOf]. rewrite Hparts.
    fold path. rewrite pathEqb_refl, Hstays.
    destruct path; [contradiction|]. cbn [isEmpty_list negb andb map fold_left].
    cbn [instantiations List.length]. rewrite js_add_num. f_equal. lia. }
  split; [exact Hcount|].
  unfold TreeView.badge. rewrite Hcount. cbn [nullish js_gt toNumber js_add].
  destruct (3 <=? Z.of_nat (List.length (variants c data))) eqn:E.
  - apply Z.leb_le in E.
    replace (1 <? Z.max 0 (Z.of_nat (List.length (variants c data)) - 1))
      with true by (symmetry; apply Z.ltb_lt; lia).
    f_equal. cbn. f_equal. lia.
  - apply Z.leb_gt in E.
    replace (1 <? Z.max 0 (Z.of_nat (List.length (variants c data)) - 1))
      with false by (symmetry; apply Z.ltb_ge; lia).
    reflexivity.
Qed.

Lemma badge_counts_variants_witness :
  TreeView.badge (mkNode "f" (VNum 60) [] (VStr "ns::f") (VStr "ns::f") (VNum 2))
  = Some (VNum 3).
Proof.
  destruct (badge_counts_variants codeUnitCompare 2
              [ mkRow (VStr "ns::f__anon_1") (VNum 30) (VNum 0);
                mkRow (VStr "ns::f__anon_2") (VNum 20) VNull;
                mkRow (VStr "ns::f__anon_3") (VNum 10) VUndefined;
                mkRow (VStr "ns::g__anon_1") (VNum 5) (VNum 0);
                mkRow (VStr "ns::g__anon_2") (VNum 4) (VNum 0) ]
              (mkNode "root" (VNum 69)
                 [ ("ns", mkNode "ns" (VNum 69)
                            [ ("f", mkNode "f" (VNum 60) [] (VStr "ns::f")
                                      (VStr "ns::f") (VNum 2));
                              ("g", mkNode "g" (VNum 9) [] (VStr "ns::g")
                                      (VStr "ns::g") (VNum 1)) ]
                            (VStr "ns") (VStr "ns::f") (VNum 0)) ]
                 VUndefined VUndefined (VNum 0))
              (mkNode "f" (VNum 60) [] (VStr "ns::f") (VStr "ns::f") (VNum 2))
              "ns::f" ["ns"; "f"]) as [_ H].
  - intros row Hin _. cbn in Hin.
    destruct Hin as [<- | [<- | [<- | [<- | [<- | []]]]]]; split; reflexivity.
  - reflexivity.
  - reflexivity.
  - discriminate.
  - reflexivity.
  - intros rec Hin. cbn in Hin.
    destruct Hin as [<- | [<- | []]]; [reflexivity | discriminate].
  - exact H.
Defined.

(** ** The merge pass on a built hierarchy *)

Lemma collectGroups_count (symbols : list TreeNode) (baseName : string) :
  option_map count (mapGet (collectGroups symbols) baseName) =
  if isEmpty baseName || isEmpty_list (membersOf baseName symbols) then None
  else Some (Z.of_nat (List.length (membersOf baseName symbols))).
Proof.
  rewrite collectGroups_leaves. destruct baseName as [|c b].
  - cbn [isEmpty orb]. now rewrite fold_addLeaf_empty.
  - cbn [isEmpty orb]. rewrite fold_addLeaf by discriminate.
    unfold membersOf.
    destruct (filter _ (flat_map leavesOf symbols)) as [|m members] eqn:E;
      [reflexivity|].
    cbn [isEmpty_list mapGet option_map]. now rewrite fold_joinGroup.
Qed.

(** X20. The merge pass applied to a hierarchy the handler returns keeps
    every node in its place with its name and size, and gives a node,
    whether it has children or not, the number of the nodes without
    children anywhere in the hierarchy that strip to the node's own
    stripped name; a node no such node matches keeps its count. *)
Theorem merge_after_build (localeCompare : string -> string -> Z)
  (fuel : nat) (data : list CSVRow) (root node : TreeNode) (path : list string) :
  processFile localeCompare fuel data = Some root ->
  nodeAt root path = Some node ->
  exists node',
    nodeAt (transformNode (collectGroups [root]) root) path = Some node'
    /\ In (transformNode (collectGroups [root]) root) (mergeInstantiations [root])
    /\ name node' = name node
    /\ size node' = size node
    /\ node_instantiations node' =
       if isEmpty (nodeBaseName (name node))
          || isEmpty_list (membersOf (nodeBaseName (name node)) [root])
       then node_instantiations node
       else VNum (Z.of_nat (List.length
                              (membersOf (nodeBaseName (name node)) [root]))).
Proof.
  intros Hroot Hnode.
  pose proof (transformNode_frame (collectGroups [root]) path
                (collectGroups_populated [root]) root
                (processFile_wellKeyed _ _ _ _ Hroot)) as H.
  rewrite Hnode in H. destruct H as [node' (Hat & Hn & Hs & _ & _ & _ & Hi)].
  exists node'. split; [exact Hat|]. split; [now left|].
  split; [exact Hn|]. split; [exact Hs|]. rewrite Hi.
  pose proof (collectGroups_count [root] (nodeBaseName (name node))) as Hc.
  destruct (mapGet (collectGroups [root]) (nodeBaseName (name node))) as [g|];
    cbn [option_map] in Hc;
    destruct (isEmpty (nodeBaseName (name node))
              || isEmpty_list (membersOf (nodeBaseName (name node)) [root]));
    try discriminate Hc; [|reflexivity].
  now injection Hc as ->.
Qed.

Lemma merge_after_build_witness :
  exists node',
    nodeAt (transformNode (collectGroups [sampleHierarchy]) sampleHierarchy)
           ["x"; "foo"] = Some node'
    /\ name node' = "foo"
    /\ node_instantiations node' = VNum 2.
Proof.
  destruct (merge_after_build codeUnitCompare 2 sampleRows sampleHierarchy
              (mkNode "foo" (VNum 10) [] (VStr "x::foo") (VStr "x.foo") (VNum 0))
              ["x"; "foo"] eq_refl eq_refl)
    as [node' (Hat & _ & Hn & _ & Hi)].
  exists node'. split; [exact Hat|]. split; [exact Hn | exact Hi].
Defined.

(** ** A file smaller than the threshold *)

Lemma ownTotal_child_le (n : TreeNode) (key : string) (child : TreeNode) :
  nonnegTree n = true -> In (key, child) (children n) ->
  ownTotal child <= ownTotal n.
Proof.
  intros Hnn Hin. rewrite (ownTotal_unfold n).
  rewrite nonnegTree_unfold in Hnn. apply andb_true_iff in Hnn as [Hs Hk].
  assert (H0 : 0 <= sizeZ (size n)).
  { destruct (size n); try discriminate Hs. now apply Z.leb_le. }
  assert (G : forall kids : dict TreeNode,
             forallb (fun kc : string * TreeNode => nonnegTree (snd kc)) kids = true ->
             In (key, child) kids ->
             ownTotal child
             <= sumZ (map (fun kc : string * TreeNode => ownTotal (snd kc)) kids)
             /\ 0 <= sumZ (map (fun kc : string * TreeNode => ownTotal (snd kc)) kids)).
  { clear. intros kids. unfold sumZ.
    induction kids as [|[k c] kids IH]; intros Hk Hin; [destruct Hin|].
    cbn [forallb snd] in Hk. apply andb_true_iff in Hk as [Hc Hk].
    pose proof (leaves_bound c Hc) as [_ Hb]. cbn [map fold_right snd].
    assert (Hrest : 0 <= fold_right Z.add 0
                            (map (fun kc : string * TreeNode => ownTotal (snd kc)) kids)).
    { clear -Hk. induction kids as [|[k' c'] kids IH]; cbn; [lia|].
      cbn [forallb snd] in Hk. apply andb_true_iff in Hk as [Hc Hk].
      pose proof (leaves_bound c' Hc) as [_ Hb]. specialize (IH Hk). lia. }
    destruct Hin as [Heq | Hin].
    - injection Heq as _ ->. lia.
    - destruct (IH Hk Hin). lia. }
  destruct (G (children n) Hk Hin). lia.
Qed.

(** X21. When the kept rows have sizes that are numbers and not negative
    and the hierarchy as a whole is smaller than the size threshold, no
    top-level row passes the filter, whatever the category filter and the
    search term: after a file of less than 10 KiB in all the list is empty
    until the threshold is lowered. *)
Theorem small_file_hidden (localeCompare : string -> string -> Z)
  (fuel : nat) (data : list CSVRow) (root : TreeNode) (minSize : Z) :
  (forall row, In row data -> keepRow row = true ->
               exists z, vmsize row = VNum z /\ 0 <= z) ->
  processFile localeCompare fuel data = Some root ->
  sizeZ (size root) < minSize ->
  (forall activeFilters searchTerm,
     shownRoots minSize activeFilters searchTerm root = [])
  /\ (sizeZ (size root) < initialMinSize ->
      forall activeFilters searchTerm,
        shownRoots initialMinSize activeFilters searchTerm root = []).
Proof.
  intros Hnum Hroot Hsmall. unfold processFile in Hroot.
  destruct (fold_left (insertSymbol fuel) (dedup (normalize localeCompare data))
              (Some emptyRoot)) as [tree|] eqn:Hfold; [|discriminate Hroot].
  injection Hroot as <-.
  assert (Hnn : Forall (fun rec => nonnegRow rec = true)
                  (dedup (normalize localeCompare data))).
  { apply dedup_nonneg. apply Forall_forall. intros row Hin.
    apply (Permutation_in _ (sortBy_perm (compareRows localeCompare) _)) in Hin.
    apply filter_In in Hin as [Hin Hkeep].
    destruct (Hnum row Hin Hkeep) as [z [Hz Hpos]]. unfold nonnegRow.
    rewrite Hz. now apply Z.leb_le. }
  pose proof (insertAll_nonneg fuel _ emptyRoot tree Hnn eq_refl Hfold) as Htree.
  assert (Hhide : forall m, sizeZ (size (calculateTotalSize tree)) < m ->
            forall activeFilters searchTerm,
              shownRoots m activeFilters searchTerm (calculateTotalSize tree) = []).
  { intros m Hm activeFilters searchTerm. unfold shownRoots.
    rewrite (calculateTotalSize_size tree (nonnegTree_numeric _ Htree)) in Hm.
    cbn [sizeZ] in Hm.
    assert (Hnone : forall child,
               In child (sortBy bySizeDesc
                           (mapValues (children (calculateTotalSize tree)))) ->
               matchesFilters m activeFilters searchTerm child = false).
    { intros child Hin.
      apply (Permutation_in _ (sortBy_perm bySizeDesc _)) in Hin.
      rewrite children_calculateTotalSize in Hin. unfold mapValues in Hin.
      rewrite map_map in Hin. cbn [snd] in Hin.
      apply in_map_iff in Hin as [[k c] [<- Hin]]. cbn [snd].
      pose proof (ownTotal_child_le tree k c Htree Hin) as Hle.
      assert (Hc : nonnegTree c = true).
      { rewrite nonnegTree_unfold in Htree.
        apply andb_true_iff in Htree as [_ Hk]. rewrite forallb_forall in Hk.
        exact (Hk _ Hin). }
      unfold matchesFilters.
      rewrite (calculateTotalSize_size c (nonnegTree_numeric _ Hc)).
      unfold js_lt. cbn [toNumber].
      replace (ownTotal c <? m) with true by (symmetry; apply Z.ltb_lt; lia).
      reflexivity. }
    induction (sortBy bySizeDesc (mapValues (children (calculateTotalSize tree))))
      as [|x l IH]; [reflexivity|].
    cbn [filter]. rewrite (Hnone x (or_introl eq_refl)).
    apply IH. intros child Hin. apply Hnone. now right. }
  split; [now apply Hhide | intros Hinit; now apply Hhide].
Qed.

Lemma small_file_hidden_witness :
  shownRoots initialMinSize [] "" sampleHierarchy = [].
Proof.
  destruct (small_file_hidden codeUnitCompare 2 sampleRows sampleHierarchy
              initialMinSize) as [H _].
  - intros row Hin _. cbn in Hin.
    destruct Hin as [<- | [<- | [<- | []]]]; eexists; split;
      try reflexivity; lia.
  - reflexivity.
  - reflexivity.
  - exact (H [] "").
Defined.
